(** * MGTTS: the Wyoming framing codec and the playback loop of [mgtts.py]

    A shallow embedding of [send_event], [recv_event],
    [start_streaming_player] and the request / receive loop of [main],
    together with the part of Python's [json] and [str]/[bytes] runtime
    those functions rely on.

    Conventions of the embedding:
    - a Python [str] is the list of its code points ([pystr]);
    - a Python [bytes]/[bytearray] is a [list byte];
    - a Python [int] is a [Z];
    - a Python [dict] is an association list in insertion order with
      pairwise distinct keys;
    - a raised exception is the [Raise] outcome of [result];
    - JSON numbers are integers: Python [float] is not part of the
      embedding, a float literal met by [loads] yields [Unsupported]. *)

From Stdlib Require Import ZArith NArith List Bool Lia String Ascii.
From Stdlib.Strings Require Import Byte.
From Stdlib Require Import Decimal DecimalFacts DecimalPos DecimalN DecimalZ.
Import ListNotations.

Set Warnings "-register-all".

Local Open Scope N_scope.

(** * The Python runtime the program relies on *)

Module Py.

(** ** Exceptions and outcomes *)

Inductive exn : Type :=
| ConnectionError (msg : string)
| KeyError
| TypeError
| ValueError            (* JSONDecodeError and UnicodeDecodeError are ValueErrors *)
| AttributeError
| UnicodeEncodeError
| Unsupported           (* behaviour outside the embedding (floats, non-string keys) *)
| FuelExhausted.        (* bound of a loop unrolling, never reached: see
                           [loads_total], [recv_event_total], [event_loop_total] *)

Inductive result (A : Type) : Type :=
| Ok (a : A)
| Raise (e : exn).
Arguments Ok {A} a.
Arguments Raise {A} e.

Definition bind {A B} (r : result A) (k : A -> result B) : result B :=
  match r with
  | Ok a => k a
  | Raise e => Raise e
  end.

Notation "x <- r ;; k" := (bind r (fun x => k))
  (at level 61, r at next level, right associativity).
Notation "' p <- r ;; k" := (bind r (fun p => k))
  (at level 61, p pattern, r at next level, right associativity).

(** ** Python strings and bytes *)

Definition pystr := list N.
Definition bytes := list byte.

(** A literal of the source, as the list of its code points. *)
Definition str (s : string) : pystr :=
  map N_of_ascii (list_ascii_of_string s).

Definition valid_codepoint (c : N) : Prop := c < 0x110000.
Definition is_high_surrogate (c : N) : bool := (0xd800 <=? c) && (c <=? 0xdbff).
Definition is_low_surrogate (c : N) : bool := (0xdc00 <=? c) && (c <=? 0xdfff).
Definition is_surrogate (c : N) : bool := (0xd800 <=? c) && (c <=? 0xdfff).

Fixpoint pystr_eqb (a b : pystr) : bool :=
  match a, b with
  | [], [] => true
  | x :: a', y :: b' => (x =? y) && pystr_eqb a' b'
  | _, _ => false
  end.

(** [str.encode("utf-8")]: surrogates cannot be encoded. *)
Definition byte_of (n : N) : byte :=
  match Byte.of_N n with
  | Some b => b
  | None => x00
  end.

Definition utf8_encode_char (c : N) : result bytes :=
  if c <? 0x80 then Ok [byte_of c]
  else if c <? 0x800 then
    Ok [byte_of (0xc0 + c / 64); byte_of (0x80 + c mod 64)]
  else if is_surrogate c then Raise UnicodeEncodeError
  else if c <? 0x10000 then
    Ok [byte_of (0xe0 + c / 4096); byte_of (0x80 + (c / 64) mod 64);
        byte_of (0x80 + c mod 64)]
  else
    Ok [byte_of (0xf0 + c / 262144); byte_of (0x80 + (c / 4096) mod 64);
        byte_of (0x80 + (c / 64) mod 64); byte_of (0x80 + c mod 64)].

Fixpoint utf8_encode (s : pystr) : result bytes :=
  match s with
  | [] => Ok []
  | c :: s' =>
      b <- utf8_encode_char c ;;
      bs <- utf8_encode s' ;;
      Ok (b ++ bs)
  end.

(** [bytes.decode("utf-8")], strict: overlong forms, surrogates, code
    points past U+10FFFF and truncated sequences are rejected. *)
Definition is_cont (b : byte) : bool :=
  (0x80 <=? Byte.to_N b) && (Byte.to_N b <=? 0xbf).
Definition cont (b : byte) : N := Byte.to_N b - 0x80.

Fixpoint utf8_decode (bs : bytes) : result pystr :=
  match bs with
  | [] => Ok []
  | b0 :: r0 =>
      let n0 := Byte.to_N b0 in
      if n0 <? 0x80 then
        s <- utf8_decode r0 ;; Ok (n0 :: s)
      else if (0xc2 <=? n0) && (n0 <=? 0xdf) then
        match r0 with
        | b1 :: r1 =>
            if is_cont b1 then
              s <- utf8_decode r1 ;; Ok (((n0 - 0xc0) * 64 + cont b1) :: s)
            else Raise ValueError
        | _ => Raise ValueError
        end
      else if (0xe0 <=? n0) && (n0 <=? 0xef) then
        match r0 with
        | b1 :: b2 :: r2 =>
            let c := (n0 - 0xe0) * 4096 + cont b1 * 64 + cont b2 in
            if is_cont b1 && is_cont b2 && (0x800 <=? c) && negb (is_surrogate c)
            then s <- utf8_decode r2 ;; Ok (c :: s)
            else Raise ValueError
        | _ => Raise ValueError
        end
      else if (0xf0 <=? n0) && (n0 <=? 0xf4) then
        match r0 with
        | b1 :: b2 :: b3 :: r3 =>
            let c := (n0 - 0xf0) * 262144 + cont b1 * 4096
                     + cont b2 * 64 + cont b3 in
            if is_cont b1 && is_cont b2 && is_cont b3
               && (0x10000 <=? c) && (c <? 0x110000)
            then s <- utf8_decode r3 ;; Ok (c :: s)
            else Raise ValueError
        | _ => Raise ValueError
        end
      else Raise ValueError
  end.

End Py.
Import Py.

Module Json.

Local Open Scope N_scope.

(** ** JSON values, as Python's [json] module produces and consumes them *)

Inductive json : Type :=
| JNull
| JBool (b : bool)
| JInt (z : Z)
| JStr (s : pystr)
| JArr (items : list json)
| JObj (members : list (pystr * json)).

Definition dict := list (pystr * json).

Fixpoint dict_get (d : dict) (k : pystr) : option json :=
  match d with
  | [] => None
  | (k', v) :: d' => if pystr_eqb k' k then Some v else dict_get d' k
  end.

(** [d[k] = v]: an existing key keeps its position, a new one is appended. *)
Fixpoint dict_set (d : dict) (k : pystr) (v : json) : dict :=
  match d with
  | [] => [(k, v)]
  | (k', v') :: d' =>
      if pystr_eqb k' k then (k', v) :: d' else (k', v') :: dict_set d' k v
  end.

Definition dict_of_pairs (pairs : list (pystr * json)) : dict :=
  fold_left (fun d kv => dict_set d (fst kv) (snd kv)) pairs [].

Definition dict_update (d extra : dict) : dict :=
  fold_left (fun d kv => dict_set d (fst kv) (snd kv)) extra d.

(** *** Character codes used by the codec *)

Definition QUOTE : N := 34.
Definition BACKSLASH : N := 92.
Definition COMMA : N := 44.
Definition COLON : N := 58.
Definition LBRACKET : N := 91.
Definition RBRACKET : N := 93.
Definition LBRACE : N := 123.
Definition RBRACE : N := 125.
Definition MINUS : N := 45.
Definition LETTER_u : N := 117.
Definition NEWLINE : N := 10.

(** *** [json.dumps(obj, separators=(",", ":"))], with the default
    [ensure_ascii=True] *)

Definition hexdigit (d : N) : N := if d <? 10 then 48 + d else 87 + d.

(** ['{0:04x}'.format(n)] for [n < 0x10000]. *)
Definition hex4 (n : N) : pystr :=
  [hexdigit (n / 4096 mod 16); hexdigit (n / 256 mod 16);
   hexdigit (n / 16 mod 16); hexdigit (n mod 16)].

Definition escape_char (c : N) : pystr :=
  if c =? QUOTE then [BACKSLASH; QUOTE]
  else if c =? BACKSLASH then [BACKSLASH; BACKSLASH]
  else if c =? 10 then [BACKSLASH; 110]
  else if c =? 13 then [BACKSLASH; 114]
  else if c =? 9 then [BACKSLASH; 116]
  else if c =? 8 then [BACKSLASH; 98]
  else if c =? 12 then [BACKSLASH; 102]
  else if (32 <=? c) && (c <=? 126) then [c]
  else if c <? 0x10000 then BACKSLASH :: LETTER_u :: hex4 c
  else
    let n := c - 0x10000 in
    let s1 := N.lor 0xd800 (N.land (N.shiftr n 10) 0x3ff) in
    let s2 := N.lor 0xdc00 (N.land n 0x3ff) in
    (BACKSLASH :: LETTER_u :: hex4 s1) ++ (BACKSLASH :: LETTER_u :: hex4 s2).

Definition encode_string (s : pystr) : pystr :=
  QUOTE :: flat_map escape_char s ++ [QUOTE].

Fixpoint digits_of_uint (u : uint) : pystr :=
  match u with
  | Nil => []
  | D0 u' => 48 :: digits_of_uint u'
  | D1 u' => 49 :: digits_of_uint u'
  | D2 u' => 50 :: digits_of_uint u'
  | D3 u' => 51 :: digits_of_uint u'
  | D4 u' => 52 :: digits_of_uint u'
  | D5 u' => 53 :: digits_of_uint u'
  | D6 u' => 54 :: digits_of_uint u'
  | D7 u' => 55 :: digits_of_uint u'
  | D8 u' => 56 :: digits_of_uint u'
  | D9 u' => 57 :: digits_of_uint u'
  end.

(** [int.__repr__] *)
Definition repr_int (z : Z) : pystr :=
  match Z.to_int z with
  | Pos u => digits_of_uint u
  | Neg u => MINUS :: digits_of_uint u
  end.

Fixpoint join (sep : pystr) (parts : list pystr) : pystr :=
  match parts with
  | [] => []
  | [p] => p
  | p :: ps => p ++ sep ++ join sep ps
  end.

Fixpoint dumps (j : json) : pystr :=
  match j with
  | JNull => str "null"
  | JBool true => str "true"
  | JBool false => str "false"
  | JInt z => repr_int z
  | JStr s => encode_string s
  | JArr items => LBRACKET :: join [COMMA] (map dumps items) ++ [RBRACKET]
  | JObj members =>
      LBRACE ::
      join [COMMA]
        (map (fun kv => encode_string (fst kv) ++ COLON :: dumps (snd kv))
             members)
      ++ [RBRACE]
  end.

(** *** [json.loads(s)] for a [str] argument (strict mode) *)

Definition is_ws (c : N) : bool :=
  (c =? 32) || (c =? 9) || (c =? 10) || (c =? 13).

Fixpoint skip_ws (s : pystr) : pystr :=
  match s with
  | c :: r => if is_ws c then skip_ws r else s
  | [] => []
  end.

Definition hexval (c : N) : option N :=
  if (48 <=? c) && (c <=? 57) then Some (c - 48)
  else if (97 <=? c) && (c <=? 102) then Some (c - 87)
  else if (65 <=? c) && (c <=? 70) then Some (c - 55)
  else None.

(** [_decode_uXXXX]: exactly four hexadecimal digits. *)
Definition decode_uXXXX (h1 h2 h3 h4 : N) : option N :=
  match hexval h1, hexval h2, hexval h3, hexval h4 with
  | Some a, Some b, Some c, Some d => Some (a * 4096 + b * 256 + c * 16 + d)
  | _, _, _, _ => None
  end.

(** The table [BACKSLASH] of [json.decoder]. *)
Definition unescape (e : N) : option N :=
  if e =? QUOTE then Some QUOTE
  else if e =? BACKSLASH then Some BACKSLASH
  else if e =? 47 then Some 47
  else if e =? 98 then Some 8
  else if e =? 102 then Some 12
  else if e =? 110 then Some 10
  else if e =? 114 then Some 13
  else if e =? 116 then Some 9
  else None.

Definition prepend (c : N) (r : result (pystr * pystr)) : result (pystr * pystr) :=
  '(s, rest) <- r ;; Ok (c :: s, rest).

(** [scanstring]: the argument starts right after the opening quote; the
    result is the decoded string and the text after the closing quote.
    An escaped high surrogate directly followed by an escaped low
    surrogate is joined into one code point. *)
Fixpoint scanstring (s : pystr) : result (pystr * pystr) :=
  match s with
  | [] => Raise ValueError
  | c :: r =>
      if c =? QUOTE then Ok ([], r)
      else if c =? BACKSLASH then
        match r with
        | [] => Raise ValueError
        | e :: r1 =>
            if e =? LETTER_u then
              match r1 with
              | h1 :: h2 :: h3 :: h4 :: r2 =>
                  match decode_uXXXX h1 h2 h3 h4 with
                  | None => Raise ValueError
                  | Some uni =>
                      match r2 with
                      | b :: u :: g1 :: g2 :: g3 :: g4 :: r3 =>
                          if is_high_surrogate uni && (b =? BACKSLASH)
                             && (u =? LETTER_u)
                          then
                            match decode_uXXXX g1 g2 g3 g4 with
                            | None => Raise ValueError
                            | Some uni2 =>
                                if is_low_surrogate uni2 then
                                  prepend
                                    (0x10000 +
                                     N.lor (N.shiftl (uni - 0xd800) 10)
                                           (uni2 - 0xdc00))
                                    (scanstring r3)
                                else prepend uni (scanstring r2)
                            end
                          else prepend uni (scanstring r2)
                      | _ => prepend uni (scanstring r2)
                      end
                  end
              | _ => Raise ValueError
              end
            else
              match unescape e with
              | Some ch => prepend ch (scanstring r1)
              | None => Raise ValueError
              end
        end
      else if c <? 32 then Raise ValueError
      else prepend c (scanstring r)
  end.

Definition is_digit (c : N) : bool := (48 <=? c) && (c <=? 57).

Fixpoint span_digits (s : pystr) : pystr * pystr :=
  match s with
  | c :: r =>
      if is_digit c then let (ds, rest) := span_digits r in (c :: ds, rest)
      else ([], s)
  | [] => ([], [])
  end.

Fixpoint uint_of_digits (ds : pystr) : uint :=
  match ds with
  | [] => Nil
  | c :: r =>
      let u := uint_of_digits r in
      if c =? 48 then D0 u else if c =? 49 then D1 u
      else if c =? 50 then D2 u else if c =? 51 then D3 u
      else if c =? 52 then D4 u else if c =? 53 then D5 u
      else if c =? 54 then D6 u else if c =? 55 then D7 u
      else if c =? 56 then D8 u else D9 u
  end.

Definition starts_with_digit (s : pystr) : bool :=
  match s with
  | c :: _ => is_digit c
  | [] => false
  end.

(** What follows the integer part makes the literal a float when it is a
    fraction [\.[0-9]+] or an exponent [[eE][-+]?[0-9]+]. *)
Definition float_tail (s : pystr) : bool :=
  match s with
  | c :: r =>
      if c =? 46 then starts_with_digit r
      else if (c =? 101) || (c =? 69) then
        match r with
        | sg :: r' =>
            if (sg =? 43) || (sg =? 45) then starts_with_digit r'
            else is_digit sg
        | [] => false
        end
      else false
  | [] => false
  end.

(** [NUMBER_RE]: an optional minus sign, then either a single zero or a
    non-zero digit followed by any digits; an optional fraction and an
    optional exponent after it.  [None] when the text does not start
    with a number. *)
Definition match_number (s : pystr) : option (result (json * pystr)) :=
  let (neg, s1) :=
    match s with
    | c :: r => if c =? MINUS then (true, r) else (false, s)
    | [] => (false, s)
    end in
  match s1 with
  | c :: r =>
      if is_digit c then
        let (ds, rest) := if c =? 48 then ([c], r) else span_digits s1 in
        if float_tail rest then Some (Raise Unsupported)
        else
          let n := Z.of_N (N.of_uint (uint_of_digits ds)) in
          Some (Ok (JInt (if neg then (- n)%Z else n), rest))
      else None
  | [] => None
  end.

Fixpoint strip_prefix (p s : pystr) : option pystr :=
  match p, s with
  | [], _ => Some s
  | a :: p', b :: s' => if a =? b then strip_prefix p' s' else None
  | _ :: _, [] => None
  end.

(** [scan_once], with [JSONArray] and [JSONObject] as its two loops, as
    the C scanner of CPython implements them.  [fuel] bounds the
    nesting of recursive calls. *)
Fixpoint scan_once (fuel : nat) (s : pystr) : result (json * pystr) :=
  match fuel with
  | O => Raise FuelExhausted
  | S fuel' =>
      match s with
      | [] => Raise ValueError
      | c :: r =>
          if c =? QUOTE then
            '(v, rest) <- scanstring r ;; Ok (JStr v, rest)
          else if c =? LBRACE then
            match skip_ws r with
            | c1 :: r1 =>
                if c1 =? QUOTE then
                  '(pairs, rest) <- scan_members fuel' r1 ;;
                  Ok (JObj (dict_of_pairs pairs), rest)
                else if c1 =? RBRACE then Ok (JObj [], r1)
                else Raise ValueError
            | [] => Raise ValueError
            end
          else if c =? LBRACKET then
            match skip_ws r with
            | c1 :: r1 =>
                if c1 =? RBRACKET then Ok (JArr [], r1)
                else
                  '(items, rest) <- scan_items fuel' (c1 :: r1) ;;
                  Ok (JArr items, rest)
            | [] => Raise ValueError
            end
          else
            match strip_prefix (str "null") s, strip_prefix (str "true") s,
                  strip_prefix (str "false") s with
            | Some rest, _, _ => Ok (JNull, rest)
            | _, Some rest, _ => Ok (JBool true, rest)
            | _, _, Some rest => Ok (JBool false, rest)
            | _, _, _ =>
                match match_number s with
                | Some r => r
                | None =>
                    match strip_prefix (str "NaN") s,
                          strip_prefix (str "Infinity") s,
                          strip_prefix (str "-Infinity") s with
                    | None, None, None => Raise ValueError
                    | _, _, _ => Raise Unsupported
                    end
                end
            end
      end
  end

with scan_items (fuel : nat) (s : pystr) : result (list json * pystr) :=
  match fuel with
  | O => Raise FuelExhausted
  | S fuel' =>
      '(v, s1) <- scan_once fuel' s ;;
      match skip_ws s1 with
      | c :: r =>
          if c =? RBRACKET then Ok ([v], r)
          else if c =? COMMA then
            '(vs, rest) <- scan_items fuel' (skip_ws r) ;;
            Ok (v :: vs, rest)
          else Raise ValueError
      | [] => Raise ValueError
      end
  end

with scan_members (fuel : nat) (s : pystr)
  : result (list (pystr * json) * pystr) :=
  match fuel with
  | O => Raise FuelExhausted
  | S fuel' =>
      '(k, s1) <- scanstring s ;;
      match skip_ws s1 with
      | c :: s2 =>
          if c =? COLON then
            '(v, s3) <- scan_once fuel' (skip_ws s2) ;;
            match skip_ws s3 with
            | c' :: r =>
                if c' =? RBRACE then Ok ([(k, v)], r)
                else if c' =? COMMA then
                  match skip_ws r with
                  | q :: r' =>
                      if q =? QUOTE then
                        '(kvs, rest) <- scan_members fuel' r' ;;
                        Ok ((k, v) :: kvs, rest)
                      else Raise ValueError
                  | [] => Raise ValueError
                  end
                else Raise ValueError
            | [] => Raise ValueError
            end
          else Raise ValueError
      | [] => Raise ValueError
      end
  end.

Definition starts_with_bom (s : pystr) : bool :=
  match s with
  | c :: _ => c =? 0xfeff
  | [] => false
  end.

Definition loads (s : pystr) : result json :=
  if starts_with_bom s then Raise ValueError
  else
    '(v, rest) <- scan_once (S (2 * List.length s)) (skip_ws s) ;;
    match skip_ws rest with
    | [] => Ok v
    | _ :: _ => Raise ValueError
    end.

(** *** Truth values and integers of Python objects *)

Definition truthy (j : json) : bool :=
  match j with
  | JNull => false
  | JBool b => b
  | JInt z => negb (z =? 0)%Z
  | JStr [] => false
  | JStr (_ :: _) => true
  | JArr [] => false
  | JArr (_ :: _) => true
  | JObj [] => false
  | JObj (_ :: _) => true
  end.

(** The operand of [x > 0], [x - n] and [min(x, n)]: an [int], or a
    [bool] counting as 0 or 1; any other JSON value raises [TypeError]. *)
Definition as_int (j : json) : result Z :=
  match j with
  | JInt z => Ok z
  | JBool true => Ok 1%Z
  | JBool false => Ok 0%Z
  | _ => Raise TypeError
  end.

Definition len (b : bytes) : Z := Z.of_nat (List.length b).

End Json.
Import Json.

(** * The connection *)

Module Socket.

(** ** The connected socket

    [inbound] holds every byte the peer sends before it closes the
    connection.  [chunking] is the transport's fragmentation: the k-th
    call of [recv] delivers at most [S c] bytes when [c] is the k-th
    entry, and as many as asked once the list is used up.  A call on an
    exhausted stream returns the empty bytes object. *)

Record socket : Type := mk_socket {
  inbound : bytes;
  chunking : list nat;
  outbound : bytes;
  closed : bool
}.

Definition recv (sock : socket) (bufsize : Z) : bytes * socket :=
  let want := Z.to_nat bufsize in
  let n := match chunking sock with
           | [] => want
           | c :: _ => Nat.min want (S c)
           end in
  (firstn n (inbound sock),
   {| inbound := skipn n (inbound sock);
      chunking := tl (chunking sock);
      outbound := outbound sock;
      closed := closed sock |}).

Definition sendall (sock : socket) (data : bytes) : socket :=
  {| inbound := inbound sock;
     chunking := chunking sock;
     outbound := outbound sock ++ data;
     closed := closed sock |}.

Definition close (sock : socket) : socket :=
  {| inbound := inbound sock;
     chunking := chunking sock;
     outbound := outbound sock;
     closed := true |}.

End Socket.
Import Socket.

Local Open Scope N_scope.

(** * The program *)

(** ** [send_event] (mgtts.py, lines 18-28) *)

Definition send_event (sock : socket) (event_type : pystr)
    (data : option json) (payload : option bytes) : result socket :=
  let header := [(str "type", JStr event_type)] in
  let header :=
    match data with
    | Some d => if truthy d then dict_set header (str "data") d else header
    | None => header
    end in
  let header :=
    match payload with
    | Some ((_ :: _) as p) =>
        dict_set header (str "payload_length") (JInt (len p))
    | _ => header
    end in
  let header_line := dumps (JObj header) ++ [NEWLINE] in
  line <- utf8_encode header_line ;;
  let sock := sendall sock line in
  match payload with
  | Some ((_ :: _) as p) => Ok (sendall sock p)
  | _ => Ok sock
  end.

(** ** [recv_event] (mgtts.py, lines 31-72) *)

Fixpoint bytes_eqb (a b : bytes) : bool :=
  match a, b with
  | [], [] => true
  | x :: a', y :: b' => Byte.eqb x y && bytes_eqb a' b'
  | _, _ => false
  end.

(** Lines 34-41: one byte per [recv] until the newline. *)
Fixpoint read_header (fuel : nat) (sock : socket) (buf : bytes)
  : result (bytes * socket) :=
  match fuel with
  | O => Raise FuelExhausted
  | S fuel' =>
      let (b, sock') := recv sock 1 in
      match b with
      | [] => Raise (ConnectionError "Connection closed by server")
      | _ :: _ =>
          if bytes_eqb b [x0a] then Ok (buf, sock')
          else read_header fuel' sock' (buf ++ b)
      end
  end.

(** Lines 50-55: accumulate exactly [data_length] bytes. *)
Fixpoint read_data (fuel : nat) (sock : socket) (extra_buf : bytes)
    (data_length : Z) : result (bytes * socket) :=
  match fuel with
  | O => Raise FuelExhausted
  | S fuel' =>
      if (len extra_buf <? data_length)%Z then
        let (chunk, sock') := recv sock (data_length - len extra_buf) in
        match chunk with
        | [] => Raise (ConnectionError "Connection closed while reading data")
        | _ => read_data fuel' sock' (extra_buf ++ chunk) data_length
        end
      else Ok (extra_buf, sock)
  end.

(** Lines 62-69: accumulate the parts of the payload. *)
Fixpoint read_payload (fuel : nat) (sock : socket) (parts : list bytes)
    (remaining : Z) : result (list bytes * socket) :=
  match fuel with
  | O => Raise FuelExhausted
  | S fuel' =>
      if (remaining >? 0)%Z then
        let (chunk, sock') := recv sock (Z.min remaining 65536) in
        match chunk with
        | [] =>
            Raise (ConnectionError "Connection closed while reading payload")
        | _ => read_payload fuel' sock' (parts ++ [chunk])
                 (remaining - len chunk)
        end
      else Ok (parts, sock)
  end.

(** One element of a sequence handed to [dict.update]: it must itself be
    a sequence of two elements, the first one hashable. *)
Definition update_pair (item : json) : result (pystr * json) :=
  match item with
  | JArr [JStr k; v] => Ok (k, v)
  | JArr [JArr _; _] | JArr [JObj _; _] => Raise TypeError
  | JArr [_; _] => Raise Unsupported
  | JArr _ => Raise ValueError
  | JStr [a; b] => Ok ([a], JStr [b])
  | JStr _ => Raise ValueError
  | JObj [(k1, _); (k2, _)] => Ok (k1, JStr k2)
  | JObj _ => Raise ValueError
  | _ => Raise TypeError
  end.

Fixpoint update_seq (d : dict) (items : list json) : result dict :=
  match items with
  | [] => Ok d
  | item :: items' =>
      '(k, v) <- update_pair item ;;
      update_seq (dict_set d k v) items'
  end.

(** [d.update(extra)] for a dict [d]. *)
Definition update (d : dict) (extra : json) : result dict :=
  match extra with
  | JObj e => Ok (dict_update d e)
  | JArr items => update_seq d items
  | JStr s => update_seq d (map (fun c => JStr [c]) s)
  | _ => Raise TypeError
  end.

Definition get (d : dict) (k : pystr) (default : json) : json :=
  match dict_get d k with
  | Some v => v
  | None => default
  end.

Definition event : Type := json * json * bytes.

(** Lines 43-44: the header line decoded and parsed; subscripting
    anything but a dict with ["type"] raises [TypeError]. *)
Definition parse_header (buf : bytes) : result dict :=
  text <- utf8_decode buf ;;
  parsed <- loads text ;;
  match parsed with
  | JObj h => Ok h
  | _ => Raise TypeError
  end.

Definition subscript (d : dict) (k : pystr) : result json :=
  match dict_get d k with
  | Some v => Ok v
  | None => Raise KeyError
  end.

(** Lines 48-56.  The attribute [data.update] is looked up before its
    argument is evaluated. *)
Definition read_data_block (fuel : nat) (sock : socket) (data : json)
    (data_length : Z) : result (json * socket) :=
  if (data_length >? 0)%Z then
    '(extra_buf, sock) <- read_data fuel sock [] data_length ;;
    d <- match data with
         | JObj d => Ok d
         | _ => Raise AttributeError
         end ;;
    text <- utf8_decode extra_buf ;;
    extra <- loads text ;;
    d <- update d extra ;;
    Ok (JObj d, sock)
  else Ok (data, sock).

(** Lines 59-70. *)
Definition read_payload_block (fuel : nat) (sock : socket)
    (payload_length : Z) : result (bytes * socket) :=
  if (payload_length >? 0)%Z then
    '(parts, sock) <- read_payload fuel sock [] payload_length ;;
    Ok (List.concat parts, sock)
  else Ok ([], sock).

Definition recv_event (sock : socket) : result (event * socket) :=
  let fuel := S (List.length (inbound sock)) in
  '(buf, sock) <- read_header fuel sock [] ;;
  header <- parse_header buf ;;
  event_type <- subscript header (str "type") ;;
  let data := get header (str "data") (JObj []) in
  data_length <- as_int (get header (str "data_length") (JInt 0)) ;;
  '(data, sock) <- read_data_block fuel sock data data_length ;;
  payload_length <- as_int (get header (str "payload_length") (JInt 0)) ;;
  '(payload, sock) <- read_payload_block fuel sock payload_length ;;
  Ok ((event_type, data, payload), sock).

(** *** The same decoding on the bytes alone

    [decode_frame] reads [recv_event] on a transport that delivers every
    request in full; it is shown below to agree with [recv_event] under
    any fragmentation. *)

Fixpoint split_line (bs : bytes) : option (bytes * bytes) :=
  match bs with
  | [] => None
  | b :: r =>
      if Byte.eqb b x0a then Some ([], r)
      else match split_line r with
           | Some (line, rest) => Some (b :: line, rest)
           | None => None
           end
  end.

Definition take_exact (n : Z) (bs : bytes) : option (bytes * bytes) :=
  if (len bs <? n)%Z then None
  else Some (firstn (Z.to_nat n) bs, skipn (Z.to_nat n) bs).

Definition decode_data_block (rest : bytes) (data : json) (data_length : Z)
  : result (json * bytes) :=
  if (data_length >? 0)%Z then
    match take_exact data_length rest with
    | None => Raise (ConnectionError "Connection closed while reading data")
    | Some (extra_buf, rest') =>
        d <- match data with
             | JObj d => Ok d
             | _ => Raise AttributeError
             end ;;
        text <- utf8_decode extra_buf ;;
        extra <- loads text ;;
        d <- update d extra ;;
        Ok (JObj d, rest')
    end
  else Ok (data, rest).

Definition decode_payload_block (rest : bytes) (payload_length : Z)
  : result (bytes * bytes) :=
  if (payload_length >? 0)%Z then
    match take_exact payload_length rest with
    | None => Raise (ConnectionError "Connection closed while reading payload")
    | Some (payload, rest') => Ok (payload, rest')
    end
  else Ok ([], rest).

Definition decode_frame (bs : bytes) : result (event * bytes) :=
  match split_line bs with
  | None => Raise (ConnectionError "Connection closed by server")
  | Some (buf, rest) =>
      header <- parse_header buf ;;
      event_type <- subscript header (str "type") ;;
      let data := get header (str "data") (JObj []) in
      data_length <- as_int (get header (str "data_length") (JInt 0)) ;;
      '(data, rest) <- decode_data_block rest data data_length ;;
      payload_length <- as_int (get header (str "payload_length") (JInt 0)) ;;
      '(payload, rest) <- decode_payload_block rest payload_length ;;
      Ok ((event_type, data, payload), rest)
  end.

(** Successive calls of [recv_event] until one raises: the events
    decoded and the exception that ended the sequence. *)
Fixpoint recv_events (fuel : nat) (sock : socket) : list event * exn :=
  match fuel with
  | O => ([], FuelExhausted)
  | S fuel' =>
      match recv_event sock with
      | Ok (ev, sock') =>
          let (evs, e) := recv_events fuel' sock' in (ev :: evs, e)
      | Raise e => ([], e)
      end
  end.

(** ** [start_streaming_player] (mgtts.py, lines 75-106)

    The child process is recorded with the values its command line is
    built from; the formatting of the argument strings is not modelled. *)

Inductive player_name : Type := sox | ffplay | paplay | afplay.

Record process : Type := mk_process {
  program : player_name;
  arg_rate : json;
  arg_bits : json;
  arg_width : json;
  arg_channels : json;
  stderr_piped : bool;
  stdin_writes : list bytes;
  stdin_closed : bool;
  waited : bool
}.

Fixpoint repeat_list {A} (l : list A) (n : nat) : list A :=
  match n with
  | O => []
  | S n' => l ++ repeat_list l n'
  end.

(** [width * 8] *)
Definition times8 (width : json) : result json :=
  match width with
  | JInt w => Ok (JInt (w * 8))
  | JBool b => Ok (JInt (if b then 8 else 0))
  | JStr s => Ok (JStr (repeat_list s 8))
  | JArr l => Ok (JArr (repeat_list l 8))
  | JNull | JObj _ => Raise TypeError
  end.

(** Lists and dicts cannot be looked up in the tables of lines 88 and 99. *)
Definition hashable (j : json) : bool :=
  match j with
  | JArr _ | JObj _ => false
  | _ => true
  end.

Definition start_streaming_player (player : player_name)
    (rate width channels : json) (debug : bool) : result (option process) :=
  bits <- times8 width ;;
  let child := mk_process player rate bits width channels debug [] false false in
  match player with
  | sox => Ok (Some child)
  | ffplay => if hashable channels then Ok (Some child) else Raise TypeError
  | paplay => if hashable width then Ok (Some child) else Raise TypeError
  | afplay => Ok None
  end.

(** ** [main] (mgtts.py, lines 139-269)

    Argument parsing, the configuration file, the choice of the player
    and [connect] are inputs of the model: the request text, the merged
    [voice] and [speaker] (None or a string), the chosen [player] with
    its [streaming] flag, the [debug] flag and the connected socket.
    [pipe_breaks pid k] tells whether the write number [k] (from 0) to
    the standard input of child [pid] raises [BrokenPipeError].  A call
    of [play_wav_buffer] is recorded with its arguments; what the call
    does is outside the model, as are the diagnostics printed under
    [debug] and [KeyboardInterrupt]. *)

Record env : Type := mk_env {
  player : player_name;
  streaming : bool;
  debug : bool;
  pipe_breaks : nat -> nat -> bool
}.

Record format : Type := mk_format {
  rate : json;
  width : json;
  channels : json
}.

(** The local variables of the receive loop; [proc] refers to a child by
    its position in the table of children of the world. *)
Record locals : Type := mk_locals {
  proc : option nat;
  pcm_buf : bytes;
  fmt : format;
  total_bytes : Z;
  chunk_count : Z
}.

(** What the program acts on: the socket, the children it started and
    the calls of [play_wav_buffer]. *)
Record world : Type := mk_world {
  sock : socket;
  procs : list process;
  wav_played : list (bytes * format)
}.

Definition truthy_str (o : option pystr) : bool :=
  match o with
  | Some (_ :: _) => true
  | _ => false
  end.

Definition str_value (o : option pystr) : json :=
  match o with
  | Some s => JStr s
  | None => JNull
  end.

(** Lines 169-177. *)
Definition synth_data (text : pystr) (voice speaker : option pystr) : dict :=
  let synth := [(str "text", JStr text)] in
  if truthy_str voice || truthy_str speaker then
    let v := [] in
    let v := if truthy_str voice
             then dict_set v (str "name") (str_value voice) else v in
    let v := if truthy_str speaker
             then dict_set v (str "speaker") (str_value speaker) else v in
    dict_set synth (str "voice") (JObj v)
  else synth.

Definition is_str (j : json) (s : pystr) : bool :=
  match j with
  | JStr t => pystr_eqb t s
  | _ => false
  end.

Definition set_sock (w : world) (s : socket) : world :=
  mk_world s (procs w) (wav_played w).

Definition spawn (w : world) (p : process) : world :=
  mk_world (sock w) (procs w ++ [p]) (wav_played w).

Fixpoint update_nth {A} (l : list A) (n : nat) (f : A -> A) : list A :=
  match l, n with
  | [], _ => []
  | x :: l', O => f x :: l'
  | x :: l', S n' => x :: update_nth l' n' f
  end.

Definition on_proc (w : world) (pid : nat) (f : process -> process) : world :=
  mk_world (sock w) (update_nth (procs w) pid f) (wav_played w).

Definition write_stdin (payload : bytes) (p : process) : process :=
  mk_process (program p) (arg_rate p) (arg_bits p) (arg_width p)
    (arg_channels p) (stderr_piped p) (stdin_writes p ++ [payload])
    (stdin_closed p) (waited p).

Definition close_and_wait (p : process) : process :=
  mk_process (program p) (arg_rate p) (arg_bits p) (arg_width p)
    (arg_channels p) (stderr_piped p) (stdin_writes p) true true.

Definition writes_so_far (w : world) (pid : nat) : nat :=
  match nth_error (procs w) pid with
  | Some p => List.length (stdin_writes p)
  | None => O
  end.

(** How one iteration of the loop of lines 216-263 ends. *)
Inductive step : Type :=
| Continue (l : locals) (w : world)
| BreakStop (l : locals) (w : world)       (* line 263 *)
| BreakPipe (l : locals) (w : world)       (* line 244 *)
| Throw (e : exn).

(** Lines 223-231. *)
Definition on_audio_start (e : env) (data : json) (l : locals) (w : world)
  : step :=
  match data with
  | JObj d =>
      let fmt' := mk_format (get d (str "rate") (JInt 22050))
                            (get d (str "width") (JInt 2))
                            (get d (str "channels") (JInt 1)) in
      if streaming e then
        match start_streaming_player (player e) (rate fmt') (width fmt')
                (channels fmt') (debug e) with
        | Ok (Some child) =>
            Continue (mk_locals (Some (List.length (procs w))) (pcm_buf l) fmt'
                        (total_bytes l) (chunk_count l))
                     (spawn w child)
        | Ok None =>
            Continue (mk_locals None (pcm_buf l) fmt'
                        (total_bytes l) (chunk_count l)) w
        | Raise ex => Throw ex
        end
      else
        Continue (mk_locals (proc l) (pcm_buf l) fmt'
                    (total_bytes l) (chunk_count l)) w
  | _ => Throw AttributeError
  end.

(** Lines 233-246. *)
Definition on_audio_chunk (e : env) (payload : bytes) (l : locals) (w : world)
  : step :=
  match payload with
  | [] => Continue l w
  | _ :: _ =>
      let total := (total_bytes l + len payload)%Z in
      let count := (chunk_count l + 1)%Z in
      match (if streaming e then proc l else None) with
      | Some pid =>
          let l' := mk_locals (proc l) (pcm_buf l) (fmt l) total count in
          if pipe_breaks e pid (writes_so_far w pid) then BreakPipe l' w
          else Continue l' (on_proc w pid (write_stdin payload))
      | None =>
          Continue (mk_locals (proc l) (pcm_buf l ++ payload) (fmt l)
                      total count) w
      end
  end.

(** Lines 248-263. *)
Definition on_audio_stop (e : env) (l : locals) (w : world) : step :=
  match (if streaming e then proc l else None) with
  | Some pid => BreakStop l (on_proc w pid close_and_wait)
  | None =>
      match pcm_buf l with
      | _ :: _ =>
          BreakStop l (mk_world (sock w) (procs w)
                         (wav_played w ++ [(pcm_buf l, fmt l)]))
      | [] => BreakStop l w
      end
  end.

Definition dispatch (e : env) (ev : event) (l : locals) (w : world) : step :=
  let '(event_type, data, payload) := ev in
  if is_str event_type (str "audio-start") then on_audio_start e data l w
  else if is_str event_type (str "audio-chunk") then on_audio_chunk e payload l w
  else if is_str event_type (str "audio-stop") then on_audio_stop e l w
  else Continue l w.

(** How the [try] block of lines 204-263 is left. *)
Inductive ending : Type :=
| AudioStop
| PipeBroke
| Uncaught (e : exn).

Record run : Type := mk_run {
  how : ending;
  vars : locals;
  final : world
}.

(** The loop of lines 216-263.  When [recv_event] raises, the world
    recorded is the one before the call; when the processing of an
    event raises, the one in which the event has been received. *)
Fixpoint event_loop (fuel : nat) (e : env) (l : locals) (w : world) : run :=
  match fuel with
  | O => mk_run (Uncaught FuelExhausted) l w
  | S fuel' =>
      match recv_event (sock w) with
      | Raise ex => mk_run (Uncaught ex) l w
      | Ok (ev, sock') =>
          match dispatch e ev l (set_sock w sock') with
          | Continue l' w' => event_loop fuel' e l' w'
          | BreakStop l' w' => mk_run AudioStop l' w'
          | BreakPipe l' w' => mk_run PipeBroke l' w'
          | Throw ex => mk_run (Uncaught ex) l (set_sock w sock')
          end
      end
  end.

Definition initial_locals : locals :=
  mk_locals None [] (mk_format (JInt 22050) (JInt 2) (JInt 1)) 0 0.

(** The [finally] clause of line 269. *)
Definition finally_close (r : run) : run :=
  mk_run (how r) (vars r) (set_sock (final r) (close (sock (final r)))).

(** Lines 204-269. *)
Definition main (e : env) (text : pystr) (voice speaker : option pystr)
    (connected : socket) : run :=
  let w := mk_world connected [] [] in
  finally_close
    match send_event connected (str "synthesize")
            (Some (JObj (synth_data text voice speaker))) None with
    | Raise ex => mk_run (Uncaught ex) initial_locals w
    | Ok sock' =>
        event_loop (S (List.length (inbound sock'))) e initial_locals
          (set_sock w sock')
    end.

(** ** Well-formed values

    A Python [str] holds code points below 0x110000, a [dict] has
    pairwise distinct keys.  [no_surrogate_pair] excludes a high
    surrogate code point directly followed by a low surrogate one. *)

Fixpoint no_surrogate_pair (s : pystr) : bool :=
  match s with
  | c :: r =>
      match r with
      | c' :: _ => negb (is_high_surrogate c && is_low_surrogate c')
      | [] => true
      end && no_surrogate_pair r
  | [] => true
  end.

Definition str_ok (s : pystr) : bool :=
  forallb (fun c => c <? 0x110000) s && no_surrogate_pair s.

Fixpoint distinct_keys (keys : list pystr) : bool :=
  match keys with
  | [] => true
  | k :: ks => negb (existsb (pystr_eqb k) ks) && distinct_keys ks
  end.

Fixpoint json_ok (j : json) : bool :=
  match j with
  | JStr s => str_ok s
  | JArr items => forallb json_ok items
  | JObj members =>
      distinct_keys (map fst members)
      && forallb (fun kv => str_ok (fst kv) && json_ok (snd kv)) members
  | _ => true
  end.

(** ** Notions used by the proofs *)

(** The text after an escaped high surrogate does not start with the
    escape of a low surrogate. *)
Definition no_low_escape (t : pystr) : Prop :=
  match t with
  | b :: u :: g1 :: g2 :: g3 :: g4 :: _ =>
      (b =? BACKSLASH) && (u =? LETTER_u) = true ->
      exists v, decode_uXXXX g1 g2 g3 g4 = Some v /\ is_low_surrogate v = false
  | _ => True
  end.

(** What may follow a value inside compact output. *)
Definition follow (rest : pystr) : Prop :=
  match rest with
  | [] => True
  | c :: _ => c = COMMA \/ c = RBRACKET \/ c = RBRACE
  end.

(** The recursion depth [scan_once] needs on the output of [dumps]. *)
Fixpoint weight (j : json) : nat :=
  match j with
  | JArr items => S (fold_right (fun x n => S (weight x + n)) O items)
  | JObj members => S (fold_right (fun kv n => S (weight (snd kv) + n)) O members)
  | _ => 1
  end.

Definition items_weight (items : list json) : nat :=
  fold_right (fun x n => S (weight x + n)) O items.

Definition members_weight (members : list (pystr * json)) : nat :=
  fold_right (fun kv n => S (weight (snd kv) + n)) O members.

Definition encode_member (kv : pystr * json) : pystr :=
  encode_string (fst kv) ++ COLON :: dumps (snd kv).

(** The first character of a serialized value. *)
Definition value_start (c : N) : Prop :=
  is_ws c = false /\ c <> RBRACKET /\ c <> RBRACE /\ c <> 0xfeff.

Definition printable (c : N) : Prop := 32 <= c <= 126.

(** The socket after some reads: only the pending bytes and the
    fragmentation cursor change. *)
Definition moved (sock : socket) (rest : bytes) (ch : list nat) : socket :=
  mk_socket rest ch (outbound sock) (closed sock).


(** ** Notions used by the statements *)

Local Open Scope Z_scope.

(** The header line [send_event] writes for a header dict. *)
Definition header_line (header : dict) : bytes :=
  map byte_of (dumps (JObj header)) ++ [x0a].

Definition fresh_socket : socket := mk_socket [] [] [] false.


Definition bytes_or_empty (payload : option bytes) : bytes :=
  match payload with
  | Some p => p
  | None => []
  end.


(** The header dict built by lines 20-24. *)
Definition sent_header (event_type : pystr) (data : option json)
    (payload : option bytes) : dict :=
  let h := [(str "type", JStr event_type)] in
  let h := match data with
           | Some d => if truthy d then dict_set h (str "data") d else h
           | None => h
           end in
  match payload with
  | Some ((_ :: _) as p) => dict_set h (str "payload_length") (JInt (len p))
  | _ => h
  end.

Fixpoint decode_frames (fuel : nat) (bs : bytes) : list event * exn :=
  match fuel with
  | O => ([], FuelExhausted)
  | S fuel' =>
      match decode_frame bs with
      | Ok (ev, rest) =>
          let (evs, e) := decode_frames fuel' rest in (ev :: evs, e)
      | Raise e => ([], e)
      end
  end.

(** A byte string that [recv_event] decodes to [ev] and consumes whole. *)
Definition complete_frame (frame : bytes) (ev : event) : Prop :=
  recv_event (mk_socket frame [] [] false) = Ok (ev, mk_socket [] [] [] false).

(** The header line of [frame] carries the integer [N] under
    ["payload_length"]. *)
Definition declares_payload_length (frame : bytes) (N : Z) : Prop :=
  exists line body header,
    frame = line ++ x0a :: body /\ ~ In x0a line /\
    parse_header line = Ok header /\
    dict_get header (str "payload_length") = Some (JInt N).

(** A chunk frame with a three-byte payload that holds a newline. *)
Definition example_chunk_header : dict :=
  [(str "type", JStr (str "audio-chunk")); (str "payload_length", JInt 3)].

Definition example_chunk_frame : bytes :=
  header_line example_chunk_header ++ [x01; x0a; x03].

Definition example_stop_frame : bytes :=
  header_line [(str "type", JStr (str "audio-stop"))].


Definition example_idle_header : dict :=
  [(str "type", JStr (str "audio-stop")); (str "data", JObj [(str "k", JInt 1)]);
   (str "data_length", JInt 0); (str "payload_length", JInt (-4))].

Definition synthesize_header (data : dict) : dict :=
  [(str "type", JStr (str "synthesize")); (str "data", JObj data)].

(** The format an [audio-start] event with data [d] stands for. *)
Definition declared_format (d : dict) : format :=
  mk_format (get d (str "rate") (JInt 22050))
            (get d (str "width") (JInt 2))
            (get d (str "channels") (JInt 1)).

Definition audio_start (d : dict) (payload : bytes) : event :=
  (JStr (str "audio-start"), JObj d, payload).
Definition audio_chunk (data : json) (payload : bytes) : event :=
  (JStr (str "audio-chunk"), data, payload).
Definition audio_stop (data : json) (payload : bytes) : event :=
  (JStr (str "audio-stop"), data, payload).

Definition start_frame (r : Z) : bytes :=
  header_line
    [(str "type", JStr (str "audio-start"));
     (str "data", JObj [(str "rate", JInt r); (str "width", JInt 2);
                        (str "channels", JInt 1)])].

Definition quiet_env : env := mk_env sox true false (fun _ _ => false).
Definition broken_env : env := mk_env sox true false (fun _ _ => true).

Definition server (stream : bytes) : socket := mk_socket stream [] [] false.

Definition sox_child (r : Z) : process :=
  mk_process sox (JInt r) (JInt 16) (JInt 2) (JInt 1) false [] false false.

Definition chunk_frame (payload : bytes) : bytes :=
  header_line [(str "type", JStr (str "audio-chunk"));
               (str "payload_length", JInt (len payload))] ++ payload.

(** ** Notions used by the further properties *)

Local Open Scope Z_scope.

(** A byte stream made of complete frames, and the events the frames
    stand for. *)
Inductive encodes : bytes -> list event -> Prop :=
| encodes_nil : encodes [] []
| encodes_cons (frame stream : bytes) (ev : event) (evs : list event) :
    complete_frame frame ev ->
    encodes stream evs ->
    encodes (frame ++ stream) (ev :: evs).

(** The [audio-chunk] events of a response, each with its data and its
    payload, and the payloads the loop does not skip (line 234). *)
Definition chunk_events (chunks : list (json * bytes)) : list event :=
  map (fun c => audio_chunk (fst c) (snd c)) chunks.

Definition non_empty (b : bytes) : bool :=
  match b with
  | [] => false
  | _ :: _ => true
  end.

Definition audible (chunks : list (json * bytes)) : list bytes :=
  filter non_empty (map snd chunks).

Definition audio (chunks : list (json * bytes)) : bytes :=
  List.concat (map snd chunks).

(** An event the loop of [main] has no branch for, or an [audio-chunk]
    without payload. *)
Definition passed_over (ev : event) : Prop :=
  let '(event_type, _, payload) := ev in
  is_str event_type (str "audio-start") = false
  /\ is_str event_type (str "audio-stop") = false
  /\ (is_str event_type (str "audio-chunk") = true -> payload = []).

(** The number of bytes written so far to the standard input of the
    children. *)
Fixpoint written (ps : list process) : Z :=
  match ps with
  | [] => 0
  | p :: ps' => len (List.concat (stdin_writes p)) + written ps'
  end.

Definition delivered (w : world) : Z := written (procs w).

(** What every iteration of the loop keeps. *)
Definition accounted (l : locals) (w : world) : Prop :=
  total_bytes l = len (pcm_buf l) + delivered w
  /\ 0 <= chunk_count l <= total_bytes l
  /\ forall pid, proc l = Some pid -> (pid < List.length (procs w))%nat.

(** A child as [start_streaming_player] left it, after the given writes
    and, when [ended], the closing of its input and the wait for it. *)
Definition child_after (child : process) (writes : list bytes) (ended : bool)
  : process :=
  mk_process (program child) (arg_rate child) (arg_bits child)
    (arg_width child) (arg_channels child) (stderr_piped child)
    (stdin_writes child ++ writes) (stdin_closed child || ended)
    (waited child || ended).






(** A JSON value that is neither an integer nor a Boolean. *)
Definition not_a_number (v : json) : Prop :=
  v = JNull \/ (exists s, v = JStr s) \/ (exists items, v = JArr items)
  \/ (exists members, v = JObj members).


(** * The start of the program

    ** Lines 140-202 of [main]

    What [load_config] returned and what [argparse] parsed are inputs:
    each of the three settings is None or a string.  [which] tells
    whether [shutil.which] finds a program, [connect] what
    [sock.connect((host, port))] does.  Integer conversions are taken
    without the length limit of [sys.set_int_max_str_digits]. *)

Record config : Type := mk_config {
  cfg_server : option pystr;
  cfg_model : option pystr;
  cfg_speaker : option pystr
}.

Record arguments : Type := mk_arguments {
  cli_wyoming : option pystr;
  cli_model : option pystr;
  cli_speaker : option pystr;
  cli_debug : bool;
  cli_text : pystr
}.

(** [a or b] for two values that are None or a string. *)
Definition or_else (a b : option pystr) : option pystr :=
  if truthy_str a then a else b.

(** [s.rsplit(":", 1)]: the text before the last colon and the text
    after it, or the whole text when it holds no colon. *)
Fixpoint rsplit_colon (s : pystr) : list pystr :=
  match s with
  | [] => [[]]
  | c :: r =>
      match rsplit_colon r with
      | [host; port] => [c :: host; port]
      | _ => if (c =? COLON)%N then [[]; r] else [c :: r]
      end
  end.

(** [int(s)] for a string of ASCII characters: optional blanks, an
    optional sign, decimal digits with single underscores between
    them, optional blanks.  A string with a character outside ASCII is
    outside the embedding. *)
Definition is_space (c : N) : bool :=
  ((c =? 32) || ((9 <=? c) && (c <=? 13)))%N.

Fixpoint lstrip (s : pystr) : pystr :=
  match s with
  | c :: r => if is_space c then lstrip r else s
  | [] => []
  end.

Fixpoint scan_digits (s : pystr) (after_underscore : bool)
  : option (pystr * pystr) :=
  match s with
  | c :: r =>
      if is_digit c then
        match scan_digits r false with
        | Some (ds, rest) => Some (c :: ds, rest)
        | None => None
        end
      else if (c =? 95)%N then
        if after_underscore then None else scan_digits r true
      else if after_underscore then None else Some ([], s)
  | [] => if after_underscore then None else Some ([], [])
  end.

(** The literal after the sign: it may not start with an underscore
    and holds at least one digit. *)
Definition read_digits (negative : bool) (s : pystr) : result Z :=
  match s with
  | c :: _ =>
      if (c =? 95)%N then Raise ValueError
      else
        match scan_digits s false with
        | Some (d :: ds, rest) =>
            match lstrip rest with
            | [] =>
                let n := Z.of_N (N.of_uint (uint_of_digits (d :: ds))) in
                Ok (if negative then - n else n)
            | _ :: _ => Raise ValueError
            end
        | _ => Raise ValueError
        end
  | [] => Raise ValueError
  end.

Definition int_of_str (s : pystr) : result Z :=
  if existsb (fun c => 128 <=? c)%N s then Raise Unsupported
  else
    match lstrip s with
    | c :: r =>
        if (c =? 43)%N then read_digits false r
        else if (c =? MINUS)%N then read_digits true r
        else read_digits false (c :: r)
    | [] => Raise ValueError
    end.

(** Lines 166-167: unpacking anything but two parts raises
    [ValueError]. *)
Definition parse_server (server : pystr) : result (pystr * Z) :=
  match rsplit_colon server with
  | [host; port_str] =>
      port <- int_of_str port_str ;;
      Ok (host, port)
  | _ => Raise ValueError
  end.

(** Lines 180-194. *)
Definition binary (name : player_name) : pystr :=
  match name with
  | sox => str "play"
  | ffplay => str "ffplay"
  | paplay => str "paplay"
  | afplay => str "afplay"
  end.

Fixpoint first_found (which : pystr -> bool) (names : list player_name)
  : option player_name :=
  match names with
  | [] => None
  | name :: names' =>
      if which (binary name) then Some name else first_found which names'
  end.

Definition choose_player (which : pystr -> bool)
  : option (player_name * bool) :=
  match first_found which [sox; ffplay; paplay] with
  | Some name => Some (name, true)
  | None => if which (str "afplay") then Some (afplay, false) else None
  end.

(** What [sock.connect] does: it returns, it raises an [OSError], or it
    raises an exception of another class (a port outside 0..65535, a
    host name that cannot be encoded). *)
Inductive connection : Type :=
| Connected (s : socket)
| OSError
| Escapes.

Inductive diagnostic : Type := NoServer | NoPlayer | CannotConnect.

(** How the program ends: [sys.exit(1)] after a message, an exception
    raised before the [try] block, or the run of lines 204-269. *)
Inductive outcome : Type :=
| Exit (status : Z) (why : diagnostic)
| Raised (e : exn)
| ConnectRaised
| Ran (r : run).

Definition mgtts (cfg : config) (args : arguments)
    (which : pystr -> bool) (connect : pystr -> Z -> connection)
    (pipe_breaks : nat -> nat -> bool) : outcome :=
  let server := or_else (cli_wyoming args) (cfg_server cfg) in
  let voice := or_else (cli_model args) (cfg_model cfg) in
  let speaker := or_else (cli_speaker args) (cfg_speaker cfg) in
  match server with
  | Some ((_ :: _) as server) =>
      match parse_server server with
      | Ok (host, port) =>
          match choose_player which with
          | Some (player, streaming) =>
              match connect host port with
              | Connected sock =>
                  Ran (main (mk_env player streaming (cli_debug args)
                               pipe_breaks)
                         (cli_text args) voice speaker sock)
              | OSError => Exit 1 CannotConnect
              | Escapes => ConnectRaised
              end
          | None => Exit 1 NoPlayer
          end
      | Raise e => Raised e
      end
  | _ => Exit 1 NoServer
  end.

(** The order of preference of the players. *)
Definition preferred (a b : player_name) : bool :=
  match a, b with
  | sox, (ffplay | paplay | afplay) => true
  | ffplay, (paplay | afplay) => true
  | paplay, afplay => true
  | _, _ => false
  end.

(** The selector of the voice ([name] or [speaker]) carried by the data
    of a request. *)
Definition requested (data : dict) (key : pystr) : option pystr :=
  match dict_get data (str "voice") with
  | Some (JObj v) =>
      match dict_get v key with
      | Some (JStr s) => Some s
      | _ => None
      end
  | _ => None
  end.

(** The setting in force: the one of the command line when it is not
    empty, else the one of the configuration when that is not empty. *)
Definition in_force (cli cfg : option pystr) : option pystr :=
  if truthy_str cli then cli else if truthy_str cfg then cfg else None.

(** * The players

    ** The command line of [start_streaming_player] (lines 77-106)

    [str(x)] and [f"{x}"] write an integer in decimal, a string as it
    is, [True], [False] and [None] by their names; for a list or a dict
    they write the [repr] of the elements, which is outside the
    embedding. *)

Definition py_str (j : json) : result pystr :=
  match j with
  | JNull => Ok (str "None")
  | JBool true => Ok (str "True")
  | JBool false => Ok (str "False")
  | JInt z => Ok (repr_int z)
  | JStr s => Ok s
  | JArr _ | JObj _ => Raise Unsupported
  end.

(** Line 88: [{1: "mono", 2: "stereo"}.get(channels, f"{channels}c")];
    [True] is the key 1. *)
Definition ch_layout (channels : json) : result pystr :=
  match channels with
  | JArr _ | JObj _ => Raise TypeError
  | JInt 1 | JBool true => Ok (str "mono")
  | JInt 2 => Ok (str "stereo")
  | _ => c <- py_str channels ;; Ok (c ++ str "c")
  end.

(** Lines 99 and 102: [fmt_map.get(width, 's16le')]. *)
Definition sample_format (width : json) : result pystr :=
  match width with
  | JArr _ | JObj _ => Raise TypeError
  | JInt 4 => Ok (str "s32le")
  | _ => Ok (str "s16le")
  end.

(** The argument list handed to [subprocess.Popen], None for a player
    that does not stream (line 106). *)
Definition popen_args (player : player_name) (rate bits width channels : json)
    (debug : bool) : result (option (list pystr)) :=
  match player with
  | sox =>
      r <- py_str rate ;;
      b <- py_str bits ;;
      c <- py_str channels ;;
      Ok (Some [str "play"; str "-q"; str "-t"; str "raw"; str "-r"; r;
                str "-e"; str "signed-integer"; str "-b"; b; str "-c"; c;
                str "-"])
  | ffplay =>
      layout <- ch_layout channels ;;
      let loglevel := if debug then str "warning" else str "quiet" in
      b <- py_str bits ;;
      r <- py_str rate ;;
      Ok (Some [str "ffplay"; str "-f"; str "s" ++ b ++ str "le";
                str "-ar"; r; str "-ch_layout"; layout;
                str "-probesize"; str "32"; str "-analyzeduration"; str "0";
                str "-nodisp"; str "-autoexit"; str "-loglevel"; loglevel;
                str "-i"; str "pipe:0"])
  | paplay =>
      r <- py_str rate ;;
      c <- py_str channels ;;
      f <- sample_format width ;;
      Ok (Some [str "paplay"; str "--raw"; str "--rate=" ++ r;
                str "--channels=" ++ c; str "--format=" ++ f])
  | afplay => Ok None
  end.

(** The command line of a child that [start_streaming_player]
    started. *)
Definition command_line (child : process) : result (option (list pystr)) :=
  popen_args (program child) (arg_rate child) (arg_bits child)
    (arg_width child) (arg_channels child) (stderr_piped child).

(** ** [play_wav_buffer] (lines 109-120)

    The temporary file is written by [Wave_write] of the [wave] module,
    whose attributes and methods are followed here, on a little-endian
    machine.  [afplay] tells whether [subprocess.run(["afplay", tmp],
    check=True)] returns, given the bytes of the file. *)

Inductive wav_exn : Type :=
| WaveError        (* wave.Error *)
| StructError      (* struct.error *)
| CompareTypeError (* TypeError of a comparison with a number *)
| PlayerError.     (* CalledProcessError, or the OSError of a missing afplay *)

(** [struct.pack("<H", v)] for [n = 2], [struct.pack("<L", v)] for
    [n = 4]; None stands for [struct.error]. *)
Fixpoint le_bytes (n : nat) (v : Z) : bytes :=
  match n with
  | O => []
  | S n' => byte_of (Z.to_N (v mod 256)) :: le_bytes n' (v / 256)
  end.

Definition pack (n : nat) (v : Z) : option bytes :=
  if (0 <=? v) && (v <? 256 ^ Z.of_nat n) then Some (le_bytes n v) else None.

Definition ascii_bytes (s : string) : bytes := map byte_of (str s).

Record wave_write : Type := mk_wave_write {
  file : bytes;
  nchannels : Z;
  sampwidth : Z;
  framerate : Z;
  nframes : Z;
  datawritten : Z;
  datalength : Z;
  headerwritten : bool;
  form_length_pos : nat;
  data_length_pos : nat
}.

(** A method call: the object after it, and the exception it raised. *)
Definition called : Type := wave_write * option wav_exn.

Definition initfp : wave_write :=
  mk_wave_write [] 0 0 0 0 0 0 false O O.

Definition setnchannels (w : wave_write) (v : json) : called :=
  if negb (datawritten w =? 0) then (w, Some WaveError)
  else
    match as_int v with
    | Raise _ => (w, Some CompareTypeError)
    | Ok n =>
        if n <? 1 then (w, Some WaveError)
        else
          (mk_wave_write (file w) n (sampwidth w) (framerate w) (nframes w)
             (datawritten w) (datalength w) (headerwritten w)
             (form_length_pos w) (data_length_pos w), None)
    end.

Definition setsampwidth (w : wave_write) (v : json) : called :=
  if negb (datawritten w =? 0) then (w, Some WaveError)
  else
    match as_int v with
    | Raise _ => (w, Some CompareTypeError)
    | Ok n =>
        if (n <? 1) || (n >? 4) then (w, Some WaveError)
        else
          (mk_wave_write (file w) (nchannels w) n (framerate w) (nframes w)
             (datawritten w) (datalength w) (headerwritten w)
             (form_length_pos w) (data_length_pos w), None)
    end.

(** [int(round(framerate))] is [framerate] for an integer. *)
Definition setframerate (w : wave_write) (v : json) : called :=
  if negb (datawritten w =? 0) then (w, Some WaveError)
  else
    match as_int v with
    | Raise _ => (w, Some CompareTypeError)
    | Ok n =>
        if n <=? 0 then (w, Some WaveError)
        else
          (mk_wave_write (file w) (nchannels w) (sampwidth w) n (nframes w)
             (datawritten w) (datalength w) (headerwritten w)
             (form_length_pos w) (data_length_pos w), None)
    end.

(** [struct.pack('<L4s4sLHHLLHH4s', ...)] of [_write_header]. *)
Definition pack_header (w : wave_write) (length : Z) : option bytes :=
  match pack 4 (36 + length), pack 4 16, pack 2 1, pack 2 (nchannels w),
        pack 4 (framerate w),
        pack 4 (nchannels w * framerate w * sampwidth w),
        pack 2 (nchannels w * sampwidth w), pack 2 (sampwidth w * 8) with
  | Some form, Some sixteen, Some pcm, Some channels, Some rate,
    Some per_second, Some per_frame, Some bits =>
      Some (form ++ ascii_bytes "WAVE" ++ ascii_bytes "fmt " ++ sixteen ++ pcm
            ++ channels ++ rate ++ per_second ++ per_frame ++ bits
            ++ ascii_bytes "data")
  | _, _, _, _, _, _, _, _ => None
  end.

Definition _write_header (w : wave_write) (initlength : Z) : called :=
  let file1 := file w ++ ascii_bytes "RIFF" in
  let frames := if nframes w =? 0
                then initlength / (nchannels w * sampwidth w)
                else nframes w in
  let length := frames * nchannels w * sampwidth w in
  let form_pos := List.length file1 in
  match pack_header w length with
  | None =>
      (mk_wave_write file1 (nchannels w) (sampwidth w) (framerate w) frames
         (datawritten w) length false form_pos (data_length_pos w),
       Some StructError)
  | Some header =>
      let file2 := file1 ++ header in
      let data_pos := List.length file2 in
      match pack 4 length with
      | None =>
          (mk_wave_write file2 (nchannels w) (sampwidth w) (framerate w)
             frames (datawritten w) length false form_pos data_pos,
           Some StructError)
      | Some l =>
          (mk_wave_write (file2 ++ l) (nchannels w) (sampwidth w)
             (framerate w) frames (datawritten w) length true form_pos
             data_pos, None)
      end
  end.

Definition _ensure_header_written (w : wave_write) (datasize : Z) : called :=
  if headerwritten w then (w, None)
  else if nchannels w =? 0 then (w, Some WaveError)
  else if sampwidth w =? 0 then (w, Some WaveError)
  else if framerate w =? 0 then (w, Some WaveError)
  else _write_header w datasize.

Definition writeframesraw (w : wave_write) (data : bytes) : called :=
  match _ensure_header_written w (len data) with
  | (w1, Some e) => (w1, Some e)
  | (w1, None) =>
      (mk_wave_write (file w1 ++ data) (nchannels w1) (sampwidth w1)
         (framerate w1) (nframes w1) (datawritten w1 + len data)
         (datalength w1) (headerwritten w1) (form_length_pos w1)
         (data_length_pos w1), None)
  end.

(** [seek(pos)] and [write(data)] inside the file. *)
Definition overwrite (f : bytes) (pos : nat) (data : bytes) : bytes :=
  firstn pos f ++ data ++ skipn (pos + List.length data) f.

Definition _patchheader (w : wave_write) : called :=
  if datawritten w =? datalength w then (w, None)
  else
    match pack 4 (36 + datawritten w) with
    | None => (w, Some StructError)
    | Some form =>
        let file1 := overwrite (file w) (form_length_pos w) form in
        match pack 4 (datawritten w) with
        | None =>
            (mk_wave_write file1 (nchannels w) (sampwidth w) (framerate w)
               (nframes w) (datawritten w) (datalength w) (headerwritten w)
               (form_length_pos w) (data_length_pos w), Some StructError)
        | Some l =>
            (mk_wave_write (overwrite file1 (data_length_pos w) l)
               (nchannels w) (sampwidth w) (framerate w) (nframes w)
               (datawritten w) (datawritten w) (headerwritten w)
               (form_length_pos w) (data_length_pos w), None)
        end
    end.

Definition writeframes (w : wave_write) (data : bytes) : called :=
  match writeframesraw w data with
  | (w1, Some e) => (w1, Some e)
  | (w1, None) =>
      if datalength w1 =? datawritten w1 then (w1, None) else _patchheader w1
  end.

Definition wave_close (w : wave_write) : called :=
  match _ensure_header_written w 0 with
  | (w1, Some e) => (w1, Some e)
  | (w1, None) =>
      if datalength w1 =? datawritten w1 then (w1, None) else _patchheader w1
  end.

(** One call after the other, up to the first exception. *)
Definition and_then (c : called) (f : wave_write -> called) : called :=
  match c with
  | (w, None) => f w
  | (w, Some e) => (w, Some e)
  end.

(** Lines 113-117: the body of the [with] statement, then [__exit__],
    which closes the writer; an exception of [close] replaces the one
    of the body. *)
Definition write_wav (pcm_data : bytes) (rate width channels : json)
  : called :=
  let (w, in_body) :=
    and_then (and_then (and_then (setnchannels initfp channels)
                          (fun w => setsampwidth w width))
                (fun w => setframerate w rate))
      (fun w => writeframes w pcm_data) in
  match wave_close w with
  | (w', Some e) => (w', Some e)
  | (w', None) => (w', in_body)
  end.

(** What a call of [play_wav_buffer] did: the bytes of the file
    [afplay] was run on, the temporary file in the end (None once it
    is unlinked) and the exception the call raised. *)
Record wav_run : Type := mk_wav_run {
  handed_to_afplay : option bytes;
  tmp_file : option bytes;
  wav_raised : option wav_exn
}.

Definition unlink (r : wav_run) : wav_run :=
  mk_wav_run (handed_to_afplay r) None (wav_raised r).

Definition play_wav_buffer (afplay : bytes -> bool) (pcm_data : bytes)
    (rate width channels : json) : wav_run :=
  unlink
    match write_wav pcm_data rate width channels with
    | (w, Some e) => mk_wav_run None (Some (file w)) (Some e)
    | (w, None) =>
        mk_wav_run (Some (file w)) (Some (file w))
          (if afplay (file w) then None else Some PlayerError)
    end.

(** The call of line 262, [play_wav_buffer(bytes(pcm_buf), **fmt)], for
    a call recorded in the world. *)
Definition play_recorded (afplay : bytes -> bool) (c : bytes * format)
  : wav_run :=
  play_wav_buffer afplay (fst c) (rate (snd c)) (width (snd c))
    (channels (snd c)).

(** The header of a WAV file of PCM samples. *)
Definition wav_header (channels width rate size : Z) : bytes :=
  ascii_bytes "RIFF" ++ le_bytes 4 (36 + size) ++ ascii_bytes "WAVE"
  ++ ascii_bytes "fmt " ++ le_bytes 4 16 ++ le_bytes 2 1
  ++ le_bytes 2 channels ++ le_bytes 4 rate
  ++ le_bytes 4 (channels * rate * width) ++ le_bytes 2 (channels * width)
  ++ le_bytes 2 (width * 8) ++ ascii_bytes "data" ++ le_bytes 4 size.

(** The value of little-endian bytes. *)
Fixpoint le_value (bs : bytes) : Z :=
  match bs with
  | [] => 0
  | b :: bs' => Z.of_N (Byte.to_N b) + 256 * le_value bs'
  end.

(** * Proofs *)

Local Open Scope N_scope.

(** ** Arithmetic of the escapes *)

Ltac div_lia := zify; Z.to_euclidean_division_equations; lia.

Lemma lor_disjoint (a b k : N) : b < 2 ^ k -> N.lor (a * 2 ^ k) b = a * 2 ^ k + b.
Proof.
  intros Hb.
  assert (H0 : N.land (a * 2 ^ k) b = 0).
  { apply N.bits_inj; intros i. rewrite N.land_spec, N.bits_0.
    destruct (N.lt_ge_cases i k) as [Hi | Hi].
    - rewrite N.mul_pow2_bits_low by exact Hi. reflexivity.
    - destruct (N.eq_dec b 0) as [-> | Hnz].
      + rewrite N.bits_0. apply andb_false_r.
      + rewrite (N.bits_above_log2 b i).
        * apply andb_false_r.
        * apply N.log2_lt_pow2 in Hb; lia. }
  rewrite (N.add_nocarry_lxor _ _ H0). symmetry. apply N.lxor_lor. exact H0.
Qed.

Lemma hexval_hexdigit d : d < 16 -> hexval (hexdigit d) = Some d.
Proof.
  intros H. unfold hexdigit, hexval.
  destruct (d <? 10) eqn:E.
  - apply N.ltb_lt in E.
    replace ((48 <=? 48 + d) && (48 + d <=? 57)) with true.
    + f_equal. lia.
    + symmetry. apply andb_true_iff. split; apply N.leb_le; lia.
  - apply N.ltb_ge in E.
    replace ((48 <=? 87 + d) && (87 + d <=? 57)) with false.
    + replace ((97 <=? 87 + d) && (87 + d <=? 102)) with true.
      * f_equal. lia.
      * symmetry. apply andb_true_iff. split; apply N.leb_le; lia.
    + symmetry. apply andb_false_iff. right. apply N.leb_gt. lia.
Qed.

Lemma decode_hex4 n : n < 65536 ->
  match hex4 n with
  | [h1; h2; h3; h4] => decode_uXXXX h1 h2 h3 h4 = Some n
  | _ => False
  end.
Proof.
  intros H. unfold hex4, decode_uXXXX.
  rewrite !hexval_hexdigit by (apply N.mod_lt; discriminate).
  f_equal. div_lia.
Qed.

Lemma surrogate_join c : 0x10000 <= c -> c < 0x110000 ->
  let n := c - 0x10000 in
  let s1 := N.lor 0xd800 (N.land (N.shiftr n 10) 0x3ff) in
  let s2 := N.lor 0xdc00 (N.land n 0x3ff) in
  is_high_surrogate s1 = true /\ is_low_surrogate s2 = true /\
  s1 < 65536 /\ s2 < 65536 /\
  0x10000 + N.lor (N.shiftl (s1 - 0xd800) 10) (s2 - 0xdc00) = c.
Proof.
  intros Hlo Hhi. cbv zeta.
  remember (c - 0x10000) as n eqn:En.
  assert (Hn : n < 0x100000) by lia.
  assert (Hq : n / 1024 < 1024)
    by (apply N.Div0.div_lt_upper_bound; exact Hn).
  assert (Hr : n mod 1024 < 1024) by (apply N.mod_lt; discriminate).
  assert (E1 : N.lor 0xd800 (N.land (N.shiftr n 10) 0x3ff) = 0xd800 + n / 1024).
  { change 0x3ff with (N.ones 10). rewrite N.land_ones, N.shiftr_div_pow2.
    change 0xd800 with (54 * 2 ^ 10). rewrite lor_disjoint.
    - change (2 ^ 10) with 1024. rewrite N.mod_small; [reflexivity | exact Hq].
    - apply N.mod_lt. discriminate. }
  assert (E2 : N.lor 0xdc00 (N.land n 0x3ff) = 0xdc00 + n mod 1024).
  { change 0x3ff with (N.ones 10). rewrite N.land_ones.
    change 0xdc00 with (55 * 2 ^ 10). rewrite lor_disjoint.
    - reflexivity.
    - apply N.mod_lt. discriminate. }
  rewrite E1, E2. unfold is_high_surrogate, is_low_surrogate.
  repeat split.
  - apply andb_true_iff; split; apply N.leb_le; div_lia.
  - apply andb_true_iff; split; apply N.leb_le; div_lia.
  - div_lia.
  - div_lia.
  - replace (0xd800 + n / 1024 - 0xd800) with (n / 1024) by div_lia.
    replace (0xdc00 + n mod 1024 - 0xdc00) with (n mod 1024) by div_lia.
    rewrite N.shiftl_mul_pow2, lor_disjoint by exact Hr.
    change (2 ^ 10) with 1024. clear E1 E2. div_lia.
Qed.

(** ** [scanstring] undoes [encode_string] *)

Lemma scanstring_u4 h1 h2 h3 h4 c t :
  decode_uXXXX h1 h2 h3 h4 = Some c ->
  is_high_surrogate c = false \/ no_low_escape t ->
  scanstring (BACKSLASH :: LETTER_u :: h1 :: h2 :: h3 :: h4 :: t)
  = prepend c (scanstring t).
Proof.
  intros Hd Hno.
  cbn [scanstring]. change (BACKSLASH =? QUOTE) with false.
  change (BACKSLASH =? BACKSLASH) with true.
  change (LETTER_u =? LETTER_u) with true. cbv iota.
  rewrite Hd.
  destruct t as [|b [|u [|g1 [|g2 [|g3 [|g4 r3]]]]]]; try reflexivity.
  destruct (is_high_surrogate c) eqn:Eh; [|reflexivity].
  destruct Hno as [Hno|Hno]; [discriminate|].
  cbn [andb]. destruct ((b =? BACKSLASH) && (u =? LETTER_u)) eqn:Ebu; [|reflexivity].
  destruct (Hno Ebu) as (v & Hv & Hlow). rewrite Hv, Hlow. reflexivity.
Qed.

Lemma scanstring_u c t :
  c < 65536 ->
  is_high_surrogate c = false \/ no_low_escape t ->
  scanstring (BACKSLASH :: LETTER_u :: hex4 c ++ t) = prepend c (scanstring t).
Proof.
  intros Hc Hno. pose proof (decode_hex4 c Hc) as Hd.
  unfold hex4 in *. apply scanstring_u4; assumption.
Qed.

Lemma no_low_escape_u c t :
  c < 65536 -> is_low_surrogate c = false ->
  no_low_escape (BACKSLASH :: LETTER_u :: hex4 c ++ t).
Proof.
  intros Hc Hlow. pose proof (decode_hex4 c Hc) as Hd. unfold hex4 in *.
  cbn. intros _. exists c. split; assumption.
Qed.

Lemma high_not_low c : is_high_surrogate c = true -> is_low_surrogate c = false.
Proof.
  unfold is_high_surrogate, is_low_surrogate. intros H.
  apply andb_true_iff in H. destruct H as [_ H]. apply N.leb_le in H.
  apply andb_false_iff. left. apply N.leb_gt. lia.
Qed.

Lemma escape_char_no_low c t :
  c < 0x110000 -> is_low_surrogate c = false ->
  no_low_escape (escape_char c ++ t).
Proof.
  intros Hv Hlow. unfold escape_char.
  destruct (c =? QUOTE); [cbn; destruct t as [|? [|? [|? [|? ?]]]]; cbn; try exact I; intros; discriminate|].
  destruct (c =? BACKSLASH) eqn:Ebs; [cbn; destruct t as [|? [|? [|? [|? ?]]]]; cbn; try exact I; intros; discriminate|].
  destruct (c =? 10); [cbn; destruct t as [|? [|? [|? [|? ?]]]]; cbn; try exact I; intros; discriminate|].
  destruct (c =? 13); [cbn; destruct t as [|? [|? [|? [|? ?]]]]; cbn; try exact I; intros; discriminate|].
  destruct (c =? 9); [cbn; destruct t as [|? [|? [|? [|? ?]]]]; cbn; try exact I; intros; discriminate|].
  destruct (c =? 8); [cbn; destruct t as [|? [|? [|? [|? ?]]]]; cbn; try exact I; intros; discriminate|].
  destruct (c =? 12); [cbn; destruct t as [|? [|? [|? [|? ?]]]]; cbn; try exact I; intros; discriminate|].
  destruct ((32 <=? c) && (c <=? 126)).
  { cbn [List.app]. destruct t as [|? [|? [|? [|? [|? ?]]]]]; cbn; try exact I.
    rewrite Ebs. cbn. intros; discriminate. }
  destruct (c <? 65536) eqn:Elt.
  { apply N.ltb_lt in Elt. apply no_low_escape_u; assumption. }
  apply N.ltb_ge in Elt.
  destruct (surrogate_join c Elt Hv) as (Hh & Hl & H1 & H2 & _).
  rewrite <- List.app_assoc.
  apply (no_low_escape_u _ _ H1). apply high_not_low. exact Hh.
Qed.

Lemma str_ok_cons c s :
  str_ok (c :: s) = true ->
  c < 0x110000 /\ str_ok s = true /\
  (is_high_surrogate c = false \/
   match s with c' :: _ => is_low_surrogate c' = false | [] => True end).
Proof.
  unfold str_ok. cbn [forallb no_surrogate_pair]. intros H.
  apply andb_true_iff in H. destruct H as [H1 H2].
  apply andb_true_iff in H1. destruct H1 as [Hc Hs].
  apply andb_true_iff in H2. destruct H2 as [Hp Hn].
  apply N.ltb_lt in Hc. rewrite Hs, Hn. repeat split; try assumption.
  destruct s as [|c' s']; [right; exact I|].
  apply negb_true_iff in Hp. apply andb_false_iff in Hp.
  destruct Hp; [left|right]; assumption.
Qed.

Lemma str_ok_valid s : str_ok s = true -> Forall (fun c => c < 0x110000) s.
Proof.
  induction s as [|c s IH]; intros H; [constructor|].
  apply str_ok_cons in H. destruct H as (Hc & Hs & _).
  constructor; auto.
Qed.

Lemma scanstring_escape s rest :
  str_ok s = true ->
  scanstring (flat_map escape_char s ++ QUOTE :: rest) = Ok (s, rest).
Proof.
  induction s as [|c s IH]; intros Hok.
  - reflexivity.
  - apply str_ok_cons in Hok. destruct Hok as (Hc & Hs & Hpair).
    specialize (IH Hs). cbn [flat_map]. rewrite <- List.app_assoc.
    set (t := flat_map escape_char s ++ QUOTE :: rest) in *.
    assert (Hno : is_high_surrogate c = false \/ no_low_escape t).
    { destruct Hpair as [Hh | Hl]; [left; exact Hh | right].
      subst t. destruct s as [|c' s'].
      - cbn. destruct rest as [|? [|? [|? [|? [|? ?]]]]]; cbn;
          try exact I; intros; discriminate.
      - apply str_ok_cons in Hs. destruct Hs as (Hc' & _ & _).
        cbn [flat_map]. rewrite <- List.app_assoc.
        apply escape_char_no_low; assumption. }
    unfold escape_char.
    destruct (c =? QUOTE) eqn:E1.
    { apply N.eqb_eq in E1. subst c. cbn. rewrite IH. reflexivity. }
    destruct (c =? BACKSLASH) eqn:E2.
    { apply N.eqb_eq in E2. subst c. cbn. rewrite IH. reflexivity. }
    destruct (c =? 10) eqn:E3.
    { apply N.eqb_eq in E3. subst c. cbn. rewrite IH. reflexivity. }
    destruct (c =? 13) eqn:E4.
    { apply N.eqb_eq in E4. subst c. cbn. rewrite IH. reflexivity. }
    destruct (c =? 9) eqn:E5.
    { apply N.eqb_eq in E5. subst c. cbn. rewrite IH. reflexivity. }
    destruct (c =? 8) eqn:E6.
    { apply N.eqb_eq in E6. subst c. cbn. rewrite IH. reflexivity. }
    destruct (c =? 12) eqn:E7.
    { apply N.eqb_eq in E7. subst c. cbn. rewrite IH. reflexivity. }
    destruct ((32 <=? c) && (c <=? 126)) eqn:E8.
    { apply andb_true_iff in E8. destruct E8 as [Ea Eb].
      apply N.leb_le in Ea.
      cbn [List.app scanstring]. rewrite E1, E2.
      replace (c <? 32) with false by (symmetry; apply N.ltb_ge; exact Ea).
      rewrite IH. reflexivity. }
    destruct (c <? 65536) eqn:E9.
    { apply N.ltb_lt in E9. cbn [List.app].
      rewrite scanstring_u by assumption. rewrite IH. reflexivity. }
    apply N.ltb_ge in E9.
    destruct (surrogate_join c E9 Hc) as (Hh & Hl & H1 & H2 & Hj).
    cbv zeta in Hh, Hl, H1, H2, Hj.
    set (s1 := N.lor 55296 (N.land (N.shiftr (c - 65536) 10) 1023)) in *.
    set (s2 := N.lor 56320 (N.land (c - 65536) 1023)) in *.
    pose proof (decode_hex4 s1 H1) as D1. pose proof (decode_hex4 s2 H2) as D2.
    unfold hex4 in *. cbn [List.app].
    cbn [scanstring]. change (BACKSLASH =? QUOTE) with false.
    change (BACKSLASH =? BACKSLASH) with true.
    change (LETTER_u =? LETTER_u) with true. cbv iota.
    rewrite D1, Hh. cbn [andb]. rewrite D2, Hl, Hj, IH. reflexivity.
Qed.

(** ** Integer literals *)

Lemma follow_no_digit rest :
  follow rest -> starts_with_digit rest = false /\ float_tail rest = false.
Proof.
  destruct rest as [|c r]; [split; reflexivity|].
  intros [-> | [-> | ->]]; split; reflexivity.
Qed.

Lemma span_digits_uint u rest :
  starts_with_digit rest = false ->
  span_digits (digits_of_uint u ++ rest) = (digits_of_uint u, rest).
Proof.
  intros Hr. induction u; cbn [digits_of_uint List.app span_digits];
    try (change (is_digit _) with true; cbv iota; rewrite IHu; reflexivity).
  destruct rest as [|c r]; [reflexivity|].
  cbn in Hr. cbn. rewrite Hr. reflexivity.
Qed.

Lemma uint_of_digits_of_uint u : uint_of_digits (digits_of_uint u) = u.
Proof.
  induction u; cbn; congruence.
Qed.

Lemma to_uint_not_D0 p u : Pos.to_uint p <> D0 u.
Proof.
  intros E.
  assert (Hn : unorm (Pos.to_uint p) = Pos.to_uint p).
  { rewrite <- (DecimalPos.Unsigned.to_of (Pos.to_uint p)).
    rewrite DecimalPos.Unsigned.of_to. reflexivity. }
  rewrite E in Hn. rewrite unorm_D0 in Hn. unfold unorm in Hn.
  destruct (nzhead u) eqn:En; try discriminate Hn.
  - injection Hn as Hu. subst u.
    exact (DecimalPos.Unsigned.to_uint_nonzero p E).
  - exact (nzhead_nonzero _ _ En).
Qed.

Lemma match_number_pos p rest :
  follow rest ->
  match_number (digits_of_uint (Pos.to_uint p) ++ rest)
  = Some (Ok (JInt (Zpos p), rest)) /\
  exists c r, digits_of_uint (Pos.to_uint p) = c :: r /\ is_digit c = true.
Proof.
  intros Hf. destruct (follow_no_digit rest Hf) as [Hd Hfl].
  pose proof (DecimalPos.Unsigned.of_to p) as Hof.
  pose proof (to_uint_not_D0 p) as H0.
  pose proof (DecimalPos.Unsigned.to_uint_nonnil p) as Hnil.
  pose proof (uint_of_digits_of_uint (Pos.to_uint p)) as Hrt.
  pose proof (span_digits_uint (Pos.to_uint p) rest Hd) as Hsp.
  destruct (Pos.to_uint p) as [|u|u|u|u|u|u|u|u|u|u] eqn:E;
    [ contradiction | exfalso; exact (H0 u eq_refl) | .. ];
    (split; [| eexists _, _; split; reflexivity]);
    unfold match_number; cbn [digits_of_uint List.app] in *;
    change (_ =? MINUS) with false; cbv iota;
    change (is_digit _) with true; change (_ =? 48) with false; cbv iota;
    rewrite Hsp, Hfl, Hrt; unfold N.of_uint; rewrite Hof; reflexivity.
Qed.

Lemma scan_once_number f c r :
  is_digit c = true \/ c = MINUS ->
  scan_once (S f) (c :: r) =
  match match_number (c :: r) with
  | Some res => res
  | None =>
      match strip_prefix (str "-Infinity") (c :: r) with
      | None => Raise ValueError
      | Some _ => Raise Unsupported
      end
  end.
Proof.
  intros Hc.
  assert (Hr : 45 <= c <= 57).
  { destruct Hc as [Hd | ->]; [|unfold MINUS; lia].
    unfold is_digit in Hd. apply andb_true_iff in Hd.
    destruct Hd as [Ha Hb]. apply N.leb_le in Ha, Hb. lia. }
  cbn [scan_once].
  replace (c =? QUOTE) with false by (symmetry; apply N.eqb_neq; unfold QUOTE; lia).
  replace (c =? LBRACE) with false by (symmetry; apply N.eqb_neq; unfold LBRACE; lia).
  replace (c =? LBRACKET) with false by (symmetry; apply N.eqb_neq; unfold LBRACKET; lia).
  change (strip_prefix (str "null") (c :: r))
    with (if 110 =? c then strip_prefix (str "ull") r else None).
  change (strip_prefix (str "true") (c :: r))
    with (if 116 =? c then strip_prefix (str "rue") r else None).
  change (strip_prefix (str "false") (c :: r))
    with (if 102 =? c then strip_prefix (str "alse") r else None).
  change (strip_prefix (str "NaN") (c :: r))
    with (if 78 =? c then strip_prefix (str "aN") r else None).
  change (strip_prefix (str "Infinity") (c :: r))
    with (if 73 =? c then strip_prefix (str "nfinity") r else None).
  replace (110 =? c) with false by (symmetry; apply N.eqb_neq; lia).
  replace (116 =? c) with false by (symmetry; apply N.eqb_neq; lia).
  replace (102 =? c) with false by (symmetry; apply N.eqb_neq; lia).
  replace (78 =? c) with false by (symmetry; apply N.eqb_neq; lia).
  replace (73 =? c) with false by (symmetry; apply N.eqb_neq; lia).
  reflexivity.
Qed.

Lemma scan_once_int f z rest :
  follow rest ->
  scan_once (S f) (repr_int z ++ rest) = Ok (JInt z, rest).
Proof.
  intros Hf. destruct (follow_no_digit rest Hf) as [Hd Hfl].
  unfold repr_int. destruct z as [|p|p]; cbn [Z.to_int].
  - cbn [digits_of_uint List.app]. rewrite scan_once_number by (left; reflexivity).
    unfold match_number. change (48 =? MINUS) with false. cbv iota.
    change (is_digit 48) with true. change (48 =? 48) with true. cbv iota.
    rewrite Hfl. reflexivity.
  - destruct (match_number_pos p rest Hf) as (Hm & c & r & E & Hc).
    revert Hm. rewrite E. cbn [List.app]. intros Hm.
    rewrite scan_once_number by (left; exact Hc). rewrite Hm. reflexivity.
  - destruct (match_number_pos p rest Hf) as (Hm & c & r & E & Hc).
    cbn [List.app]. rewrite scan_once_number by (right; reflexivity).
    revert Hm. unfold match_number. rewrite E. cbn [List.app].
    change (MINUS =? MINUS) with true. cbv iota.
    replace (c =? MINUS) with false.
    2:{ symmetry. apply N.eqb_neq. unfold is_digit in Hc.
        apply andb_true_iff in Hc. destruct Hc as [Ha _].
        apply N.leb_le in Ha. unfold MINUS. lia. }
    cbv iota. rewrite Hc.
    destruct (if c =? 48 then ([c], r ++ rest) else span_digits (c :: r ++ rest)) as [ds rst].
    destruct (float_tail rst); [discriminate|].
    intros Hm. injection Hm as Hn Hrst. subst rst. rewrite Hn. reflexivity.
Qed.

(** ** Dicts with distinct keys *)

Lemma pystr_eqb_eq a b : pystr_eqb a b = true <-> a = b.
Proof.
  revert b. induction a as [|x a IH]; intros [|y b]; cbn; split; intros H;
    try reflexivity; try discriminate.
  - apply andb_true_iff in H. destruct H as [Hx Ha].
    apply N.eqb_eq in Hx. apply IH in Ha. congruence.
  - injection H as -> ->. rewrite N.eqb_refl. cbn. apply IH. reflexivity.
Qed.

Lemma pystr_eqb_refl a : pystr_eqb a a = true.
Proof. apply pystr_eqb_eq. reflexivity. Qed.

Lemma pystr_eqb_sym a b : pystr_eqb a b = pystr_eqb b a.
Proof.
  destruct (pystr_eqb a b) eqn:E.
  - apply pystr_eqb_eq in E. subst. symmetry. apply pystr_eqb_refl.
  - destruct (pystr_eqb b a) eqn:E'; [|reflexivity].
    apply pystr_eqb_eq in E'. subst. rewrite pystr_eqb_refl in E. discriminate.
Qed.

Lemma dict_set_fresh d k v :
  existsb (pystr_eqb k) (map fst d) = false -> dict_set d k v = d ++ [(k, v)].
Proof.
  induction d as [|[k' v'] d IH]; cbn; intros H; [reflexivity|].
  apply orb_false_iff in H. destruct H as [Hk Hd].
  rewrite pystr_eqb_sym, Hk. rewrite IH by exact Hd. reflexivity.
Qed.

Lemma dict_update_distinct members acc :
  distinct_keys (map fst acc ++ map fst members) = true ->
  fold_left (fun d kv => dict_set d (fst kv) (snd kv)) members acc
  = acc ++ members.
Proof.
  revert acc. induction members as [|[k v] ms IH]; intros acc H; cbn.
  - rewrite List.app_nil_r. reflexivity.
  - rewrite dict_set_fresh.
    + rewrite IH.
      * rewrite <- List.app_assoc. reflexivity.
      * rewrite map_app. cbn. rewrite <- List.app_assoc. exact H.
    + clear IH. cbn in H. induction acc as [|[k' v'] acc IHa]; [reflexivity|].
      cbn in H |- *. apply andb_true_iff in H. destruct H as [Hk Hrest].
      rewrite (IHa Hrest). apply negb_true_iff in Hk.
      rewrite existsb_app in Hk. apply orb_false_iff in Hk.
      destruct Hk as [_ Hk]. cbn in Hk. apply orb_false_iff in Hk.
      destruct Hk as [Hk _]. rewrite pystr_eqb_sym, Hk. reflexivity.
Qed.

Lemma dict_of_pairs_distinct members :
  distinct_keys (map fst members) = true -> dict_of_pairs members = members.
Proof.
  intros H. unfold dict_of_pairs. rewrite dict_update_distinct; [reflexivity|].
  exact H.
Qed.

(** ** [scan_once] undoes [dumps] *)

Lemma dumps_start j : exists c r, dumps j = c :: r /\ value_start c.
Proof.
  unfold value_start.
  destruct j as [|[|]|z|s|items|members]; cbn [dumps];
    try (eexists _, _; split; [reflexivity|]; repeat split; discriminate).
  unfold repr_int. destruct z as [|p|p]; cbn [Z.to_int].
  - eexists _, _; split; [reflexivity|]; repeat split; discriminate.
  - destruct (match_number_pos p [] I) as (_ & c & r & E & Hc).
    exists c, r. split; [exact E|]. unfold is_digit in Hc.
    apply andb_true_iff in Hc. destruct Hc as [Ha Hb].
    apply N.leb_le in Ha, Hb. unfold is_ws, RBRACKET, RBRACE.
    repeat split; try lia.
    repeat (apply orb_false_iff; split); apply N.eqb_neq; lia.
  - eexists _, _; split; [reflexivity|]; repeat split; discriminate.
Qed.

Lemma skip_ws_start c r : is_ws c = false -> skip_ws (c :: r) = c :: r.
Proof. intros H. cbn. rewrite H. reflexivity. Qed.

Lemma skip_ws_dumps j rest : skip_ws (dumps j ++ rest) = dumps j ++ rest.
Proof.
  destruct (dumps_start j) as (c & r & E & Hws & _). rewrite E.
  apply skip_ws_start. exact Hws.
Qed.

Lemma join_cons sep p q ps :
  join sep (p :: q :: ps) = p ++ sep ++ join sep (q :: ps).
Proof. reflexivity. Qed.

Lemma join_members kv members rest :
  join [COMMA] (map encode_member (kv :: members)) ++ RBRACE :: rest
  = QUOTE :: flat_map escape_char (fst kv) ++ QUOTE :: COLON
      :: dumps (snd kv)
      ++ match members with
         | [] => []
         | _ => COMMA :: join [COMMA] (map encode_member members)
         end ++ RBRACE :: rest.
Proof.
  destruct members as [|kv' members].
  - cbn [map join]. unfold encode_member, encode_string.
    cbn [List.app]. repeat (rewrite <- List.app_assoc; cbn [List.app]).
    reflexivity.
  - cbn [map]. rewrite join_cons. unfold encode_member at 1.
    unfold encode_string.
    cbn [List.app]. repeat (rewrite <- List.app_assoc; cbn [List.app]).
    reflexivity.
Qed.

Lemma scan_once_dumps fuel :
  (forall j rest, json_ok j = true -> follow rest -> (weight j <= fuel)%nat ->
     scan_once fuel (dumps j ++ rest) = Ok (j, rest)) /\
  (forall x items rest, forallb json_ok (x :: items) = true ->
     (items_weight (x :: items) <= fuel)%nat ->
     scan_items fuel (join [COMMA] (map dumps (x :: items)) ++ RBRACKET :: rest)
     = Ok (x :: items, rest)) /\
  (forall kv members rest,
     forallb (fun kv => str_ok (fst kv) && json_ok (snd kv)) (kv :: members)
     = true ->
     (members_weight (kv :: members) <= fuel)%nat ->
     scan_members fuel
       (flat_map escape_char (fst kv) ++ QUOTE :: COLON :: dumps (snd kv)
          ++ match members with
             | [] => []
             | _ => COMMA :: join [COMMA] (map encode_member members)
             end ++ RBRACE :: rest)
     = Ok (kv :: members, rest)).
Proof.
  induction fuel as [|f (IHv & IHi & IHm)].
  - repeat split.
    + intros j rest _ _ H. destruct j; cbn in H; lia.
    + intros x items rest _ H. cbn in H. lia.
    + intros kv members rest _ H. cbn in H. lia.
  - repeat split.
    + (* values *)
      intros j rest Hok Hf Hw.
      destruct j as [|[|]|z|s|items|members]; try reflexivity.
      * apply scan_once_int. exact Hf.
      * cbn [json_ok] in Hok. cbn [dumps]. unfold encode_string.
        cbn [List.app scan_once]. change (QUOTE =? QUOTE) with true. cbv iota.
        rewrite <- List.app_assoc. cbn [List.app].
        rewrite scanstring_escape by exact Hok. reflexivity.
      * cbn [json_ok] in Hok. cbn [weight] in Hw. fold (items_weight items) in Hw.
        cbn [dumps List.app scan_once].
        change (LBRACKET =? QUOTE) with false.
        change (LBRACKET =? LBRACE) with false.
        change (LBRACKET =? LBRACKET) with true. cbv iota.
        rewrite <- List.app_assoc. cbn [List.app].
        destruct items as [|x items].
        { reflexivity. }
        destruct (dumps_start x) as (c & r & E & Hws & Hnb & _).
        assert (Hj : exists r', join [COMMA] (map dumps (x :: items)) = c :: r').
        { cbn [map]. destruct (map dumps items); cbn [join]; rewrite E;
            eexists; reflexivity. }
        destruct Hj as (r' & Hj).
        pose proof (IHi x items rest Hok ltac:(lia)) as Hitems.
        rewrite Hj in *. cbn [List.app] in *. rewrite skip_ws_start by exact Hws.
        replace (c =? RBRACKET) with false by (symmetry; apply N.eqb_neq; exact Hnb).
        rewrite Hitems. reflexivity.
      * cbn [json_ok] in Hok. apply andb_true_iff in Hok.
        destruct Hok as [Hdist Hok].
        cbn [weight] in Hw. fold (members_weight members) in Hw.
        change (dumps (JObj members))
          with (LBRACE :: join [COMMA] (map encode_member members) ++ [RBRACE]).
        cbn [List.app scan_once].
        change (LBRACE =? QUOTE) with false.
        change (LBRACE =? LBRACE) with true. cbv iota.
        rewrite <- List.app_assoc. cbn [List.app].
        destruct members as [|kv members].
        { reflexivity. }
        pose proof (IHm kv members rest Hok ltac:(lia)) as Hmem.
        pose proof (join_members kv members rest) as Hj.
        rewrite Hj. rewrite skip_ws_start by reflexivity.
        change (QUOTE =? QUOTE) with true. cbv iota.
        rewrite Hmem. cbn [bind].
        rewrite dict_of_pairs_distinct by exact Hdist. reflexivity.
    + (* items *)
      intros x items rest Hok Hw.
      cbn [forallb] in Hok. apply andb_true_iff in Hok. destruct Hok as [Hx Hit].
      cbn [items_weight fold_right] in Hw. fold (items_weight items) in Hw.
      cbn [scan_items]. cbn [map].
      destruct items as [|y items].
      * cbn [map join]. rewrite IHv; [|exact Hx|cbn; auto|lia].
        cbn [bind]. rewrite skip_ws_start by reflexivity.
        change (RBRACKET =? RBRACKET) with true. reflexivity.
      * cbn [map]. rewrite join_cons. repeat (rewrite <- List.app_assoc; cbn [List.app]).
        rewrite IHv; [|exact Hx|cbn; auto|lia].
        cbn [bind]. rewrite skip_ws_start by reflexivity.
        change (COMMA =? RBRACKET) with false.
        change (COMMA =? COMMA) with true. cbv iota.
        pose proof (IHi y items rest Hit ltac:(lia)) as Hrest.
        cbn [map] in Hrest. 
        assert (Hs : skip_ws (join [COMMA] (dumps y :: map dumps items)
                              ++ RBRACKET :: rest)
                     = join [COMMA] (dumps y :: map dumps items)
                       ++ RBRACKET :: rest).
        { destruct (dumps_start y) as (c & r & E & Hws & _).
          destruct (map dumps items); cbn [join]; rewrite E; cbn [List.app];
            apply skip_ws_start; exact Hws. }
        rewrite Hs, Hrest. reflexivity.
    + (* members *)
      intros [k v] members rest Hok Hw.
      cbn [forallb fst snd] in Hok. apply andb_true_iff in Hok.
      destruct Hok as [Hkv Hms]. apply andb_true_iff in Hkv.
      destruct Hkv as [Hk Hv].
      cbn [members_weight fold_right snd] in Hw.
      fold (members_weight members) in Hw.
      cbn [scan_members fst snd].
      rewrite scanstring_escape by exact Hk. cbn [bind].
      rewrite skip_ws_start by reflexivity.
      change (COLON =? COLON) with true. cbv iota.
      rewrite skip_ws_dumps.
      destruct members as [|kv' members].
      * cbn [List.app]. rewrite IHv; [|exact Hv|cbn; auto|lia].
        cbn [bind]. rewrite skip_ws_start by reflexivity.
        change (RBRACE =? RBRACE) with true. reflexivity.
      * cbn [List.app]. rewrite IHv; [|exact Hv|cbn; auto|lia].
        cbn [bind]. rewrite skip_ws_start by reflexivity.
        change (COMMA =? RBRACE) with false.
        change (COMMA =? COMMA) with true. cbv iota.
        pose proof (IHm kv' members rest Hms ltac:(lia)) as Hrest.
        pose proof (join_members kv' members rest) as Hj.
        rewrite Hj. rewrite skip_ws_start by reflexivity.
        change (QUOTE =? QUOTE) with true. cbv iota.
        rewrite Hrest. reflexivity.
Qed.

(** ** The output of [dumps] is printable ASCII *)

Section JsonInduction.
Variable P : json -> Prop.
Hypothesis Hnull : P JNull.
Hypothesis Hbool : forall b, P (JBool b).
Hypothesis Hint : forall z, P (JInt z).
Hypothesis Hstr : forall s, P (JStr s).
Hypothesis Harr : forall items, Forall P items -> P (JArr items).
Hypothesis Hobj :
  forall members, Forall (fun kv => P (snd kv)) members -> P (JObj members).

Fixpoint json_nested_ind (j : json) : P j :=
  match j with
  | JNull => Hnull
  | JBool b => Hbool b
  | JInt z => Hint z
  | JStr s => Hstr s
  | JArr items =>
      Harr items
        ((fix all (l : list json) : Forall P l :=
            match l with
            | [] => Forall_nil P
            | x :: l' => Forall_cons x (json_nested_ind x) (all l')
            end) items)
  | JObj members =>
      Hobj members
        ((fix all (l : list (pystr * json))
            : Forall (fun kv => P (snd kv)) l :=
            match l with
            | [] => Forall_nil _
            | kv :: l' =>
                Forall_cons kv (json_nested_ind (snd kv)) (all l')
            end) members)
  end.
End JsonInduction.

Lemma hexdigit_printable d : d < 16 -> printable (hexdigit d).
Proof.
  unfold hexdigit, printable. intros H. destruct (d <? 10); lia.
Qed.

Lemma hex4_printable n : Forall printable (hex4 n).
Proof.
  unfold hex4. repeat constructor; apply hexdigit_printable;
    apply N.mod_lt; discriminate.
Qed.

Lemma escape_char_printable c : Forall printable (escape_char c).
Proof.
  assert (Hb : printable BACKSLASH) by (unfold printable, BACKSLASH; lia).
  assert (Hu : printable LETTER_u) by (unfold printable, LETTER_u; lia).
  unfold escape_char.
  repeat match goal with
  | |- Forall _ (if ?b then _ else _) => destruct b eqn:?
  end;
  try (repeat constructor; unfold printable, BACKSLASH, QUOTE; lia).
  - match goal with
    | H : (_ && _) = true |- _ =>
        apply andb_true_iff in H; destruct H as [Ha Hb'];
        apply N.leb_le in Ha, Hb'; repeat constructor; unfold printable; lia
    end.
  - constructor; [exact Hb | constructor; [exact Hu | apply hex4_printable]].
  - cbv zeta. apply Forall_app. split;
      (constructor; [exact Hb | constructor; [exact Hu | apply hex4_printable]]).
Qed.

Lemma encode_string_printable s : Forall printable (encode_string s).
Proof.
  unfold encode_string. constructor; [unfold printable, QUOTE; lia|].
  apply Forall_app. split.
  - induction s as [|c s IH]; cbn [flat_map]; [constructor|].
    apply Forall_app. split; [apply escape_char_printable | exact IH].
  - repeat constructor; unfold printable, QUOTE; lia.
Qed.

Lemma digits_printable u : Forall printable (digits_of_uint u).
Proof.
  induction u; cbn; constructor; try assumption; unfold printable; lia.
Qed.

Lemma join_printable parts :
  Forall (Forall printable) parts -> Forall printable (join [COMMA] parts).
Proof.
  induction 1 as [|p ps Hp Hps IH]; [constructor|].
  destruct ps as [|q ps]; [exact Hp|].
  rewrite join_cons. apply Forall_app. split; [exact Hp|].
  constructor; [unfold printable, COMMA; lia | exact IH].
Qed.

Lemma forallb_printable l :
  forallb (fun c => (32 <=? c) && (c <=? 126)) l = true -> Forall printable l.
Proof.
  intros H. apply Forall_forall. intros c Hc.
  rewrite forallb_forall in H. specialize (H c Hc).
  apply andb_true_iff in H. destruct H as [Ha Hb].
  apply N.leb_le in Ha, Hb. split; assumption.
Qed.

Lemma dumps_printable j : Forall printable (dumps j).
Proof.
  induction j as [|b|z|s|items IH|members IH] using json_nested_ind.
  - apply forallb_printable. reflexivity.
  - destruct b; apply forallb_printable; reflexivity.
  - cbn [dumps]. unfold repr_int. destruct (Z.to_int z).
    + apply digits_printable.
    + constructor; [unfold printable, MINUS; lia | apply digits_printable].
  - apply encode_string_printable.
  - cbn [dumps]. constructor; [unfold printable, LBRACKET; lia|].
    apply Forall_app. split.
    + apply join_printable. apply Forall_map. exact IH.
    + repeat constructor; unfold printable, RBRACKET; lia.
  - cbn [dumps]. constructor; [unfold printable, LBRACE; lia|].
    apply Forall_app. split.
    + apply join_printable. apply Forall_map.
      eapply Forall_impl; [|exact IH]. intros kv Hkv. cbn beta.
      apply Forall_app. split; [apply encode_string_printable|].
      constructor; [unfold printable, COLON; lia | exact Hkv].
    + repeat constructor; unfold printable, RBRACE; lia.
Qed.

(** ** [loads] undoes [dumps] *)

Lemma length_join_items (items : list json) :
  Forall (fun x => (weight x <= List.length (dumps x))%nat) items ->
  (items_weight items <= S (List.length (join [COMMA] (map dumps items))))%nat.
Proof.
  induction 1 as [|x items Hx Hit IH]; [cbn; lia|].
  cbn [items_weight fold_right]. fold (items_weight items).
  destruct items as [|y items].
  - cbn. lia.
  - cbn [map]. rewrite join_cons. rewrite !length_app. cbn [List.length].
    cbn [map] in IH. lia.
Qed.

Lemma length_join_members (members : list (pystr * json)) :
  Forall (fun kv => (weight (snd kv) <= List.length (dumps (snd kv)))%nat)
    members ->
  (members_weight members
   <= S (List.length (join [COMMA] (map encode_member members))))%nat.
Proof.
  induction 1 as [|x items Hx Hit IH]; [cbn; lia|].
  cbn [members_weight fold_right]. fold (members_weight items).
  destruct items as [|y items].
  - cbn [map join]. unfold encode_member. rewrite length_app.
    cbn [List.length members_weight fold_right]. lia.
  - cbn [map]. rewrite join_cons. rewrite !length_app. cbn [List.length].
    cbn [map] in IH. unfold encode_member at 1. rewrite length_app.
    cbn [List.length]. lia.
Qed.

Lemma weight_le_length j : (weight j <= List.length (dumps j))%nat.
Proof.
  induction j as [|b|z|s|items IH|members IH] using json_nested_ind.
  - cbn. lia.
  - destruct b; cbn; lia.
  - destruct (dumps_start (JInt z)) as (c & r & E & _). rewrite E. cbn. lia.
  - cbn. lia.
  - cbn [weight dumps]. fold (items_weight items).
    pose proof (length_join_items items IH).
    cbn [List.length]. rewrite length_app. cbn [List.length]. lia.
  - change (dumps (JObj members))
      with (LBRACE :: join [COMMA] (map encode_member members) ++ [RBRACE]).
    cbn [weight]. fold (members_weight members).
    pose proof (length_join_members members IH).
    cbn [List.length]. rewrite length_app. cbn [List.length]. lia.
Qed.

Theorem loads_dumps j : json_ok j = true -> loads (dumps j) = Ok j.
Proof.
  intros Hok. unfold loads.
  destruct (dumps_start j) as (c & r & E & Hws & _ & _ & Hbom).
  pose proof (skip_ws_dumps j []) as Hskip. rewrite List.app_nil_r in Hskip.
  pose proof (weight_le_length j) as Hw.
  destruct (scan_once_dumps (S (2 * List.length (dumps j)))) as (Hv & _ & _).
  specialize (Hv j [] Hok I ltac:(lia)). rewrite List.app_nil_r in Hv.
  assert (Hb : starts_with_bom (dumps j) = false).
  { unfold starts_with_bom. rewrite E. apply N.eqb_neq. exact Hbom. }
  rewrite Hb, Hskip, Hv. reflexivity.
Qed.

Local Open Scope Z_scope.

(** ** The read loops of [recv_event] *)

Lemma recv_shape sock z :
  1 <= z ->
  exists k, (1 <= k <= Z.to_nat z)%nat /\
    recv sock z = (firstn k (inbound sock),
                   moved sock (skipn k (inbound sock)) (tl (chunking sock))).
Proof.
  intros Hz. unfold recv, moved.
  destruct (chunking sock) as [|c ch].
  - exists (Z.to_nat z). split; [lia | reflexivity].
  - exists (Nat.min (Z.to_nat z) (S c)). split; [lia | reflexivity].
Qed.

Lemma bytes_eqb_newline b : bytes_eqb [b] [x0a] = Byte.eqb b x0a.
Proof. cbn. apply andb_true_r. Qed.

Lemma read_header_spec fuel sock buf :
  (List.length (inbound sock) < fuel)%nat ->
  read_header fuel sock buf =
  match split_line (inbound sock) with
  | None => Raise (ConnectionError "Connection closed by server")
  | Some (line, rest) =>
      Ok (buf ++ line,
          moved sock rest (skipn (S (List.length line)) (chunking sock)))
  end.
Proof.
  revert sock buf. induction fuel as [|f IH]; intros sock buf Hf; [lia|].
  cbn [read_header].
  destruct (recv_shape sock 1 ltac:(lia)) as (k & Hk & Hrecv).
  assert (k = 1%nat) by lia. subst k. rewrite Hrecv. clear Hrecv.
  destruct sock as [inb ch out cl]. cbn [inbound chunking] in *.
  destruct inb as [|b inb]; [reflexivity|].
  cbn [firstn skipn split_line]. rewrite bytes_eqb_newline.
  destruct (Byte.eqb b x0a).
  - rewrite List.app_nil_r. unfold moved. cbn. destruct ch; reflexivity.
  - rewrite IH by (cbn in *; lia). unfold moved. cbn.
    destruct (split_line inb) as [[line rest]|]; [|reflexivity].
    rewrite <- List.app_assoc. cbn. destruct ch; [|reflexivity].
    cbn. destruct (List.length line); reflexivity.
Qed.

Lemma take_exact_none n bs : len bs < n -> take_exact n bs = None.
Proof.
  intros H. unfold take_exact. apply Z.ltb_lt in H. rewrite H. reflexivity.
Qed.

Lemma take_exact_some n bs :
  n <= len bs ->
  take_exact n bs = Some (firstn (Z.to_nat n) bs, skipn (Z.to_nat n) bs).
Proof.
  intros H. unfold take_exact. apply Z.ltb_ge in H. rewrite H. reflexivity.
Qed.

Lemma firstn_split_add {A} (k m : nat) (l : list A) :
  firstn k l ++ firstn m (skipn k l) = firstn (k + m) l.
Proof.
  revert l. induction k as [|k IH]; intros l; [reflexivity|].
  destruct l as [|x l]; cbn.
  - rewrite firstn_nil. reflexivity.
  - rewrite IH. reflexivity.
Qed.

Lemma skipn_skipn_add {A} (k m : nat) (l : list A) :
  skipn m (skipn k l) = skipn (k + m) l.
Proof.
  revert l. induction k as [|k IH]; intros l; [reflexivity|].
  destruct l as [|x l]; cbn.
  - rewrite skipn_nil. reflexivity.
  - apply IH.
Qed.

Lemma len_cons (b : byte) bs : len (b :: bs) = 1 + len bs.
Proof. unfold len. cbn [List.length]. lia. Qed.

Lemma len_app (a b : bytes) : len (a ++ b) = len a + len b.
Proof. unfold len. rewrite length_app. lia. Qed.

Lemma len_firstn k (bs : bytes) :
  len (firstn k bs) = Z.of_nat (Nat.min k (List.length bs)).
Proof. unfold len. rewrite length_firstn. reflexivity. Qed.

Lemma len_skipn k (bs : bytes) :
  len (skipn k bs) = Z.of_nat (List.length bs - k).
Proof. unfold len. rewrite length_skipn. reflexivity. Qed.

Lemma len_length (bs : bytes) : len bs = Z.of_nat (List.length bs).
Proof. reflexivity. Qed.

(** What an accumulation loop must deliver: the next [need] bytes. *)
Lemma read_data_spec fuel sock extra_buf n :
  (List.length (inbound sock) < fuel)%nat ->
  if len extra_buf <? n then
    match take_exact (n - len extra_buf) (inbound sock) with
    | None =>
        read_data fuel sock extra_buf n
        = Raise (ConnectionError "Connection closed while reading data")
    | Some (got, rest) =>
        exists ch, read_data fuel sock extra_buf n
                   = Ok (extra_buf ++ got, moved sock rest ch)
    end
  else read_data fuel sock extra_buf n = Ok (extra_buf, sock).
Proof.
  revert sock extra_buf. induction fuel as [|f IH]; intros sock extra_buf Hf; [lia|].
  cbn [read_data]. destruct (len extra_buf <? n) eqn:Elt; [|reflexivity].
  apply Z.ltb_lt in Elt.
  destruct (recv_shape sock (n - len extra_buf) ltac:(lia)) as (k & Hk & Hrecv).
  rewrite Hrecv. clear Hrecv.
  destruct sock as [inb ch out cl]. unfold moved in *.
  cbn [inbound chunking outbound closed] in *.
  destruct inb as [|b inb].
  { rewrite firstn_nil. rewrite take_exact_none by (cbn; lia). reflexivity. }
  destruct k as [|k]; [lia|]. cbn [firstn]. cbv iota.
  change (skipn (S k) (b :: inb)) with (skipn k inb).
  pose proof (len_cons b inb) as Hinb. pose proof (len_length inb) as Hinb'.
  pose proof (len_cons b (firstn k inb)) as Hchunk.
  rewrite len_firstn in Hchunk.
  pose proof (len_skipn k inb) as Hskip.
  set (chunk := b :: firstn k inb) in *.
  set (sock' := {| inbound := skipn k inb; chunking := tl ch;
                   outbound := out; closed := cl |}).
  specialize (IH sock' (extra_buf ++ chunk)).
  assert (Hlen : (List.length (inbound sock') < f)%nat).
  { subst sock'. cbn [inbound]. rewrite length_skipn. cbn in Hf. lia. }
  specialize (IH Hlen). rewrite len_app in IH.
  subst sock'. cbn [inbound outbound closed] in IH.
  destruct (len extra_buf + len chunk <? n) eqn:Elt2.
  - apply Z.ltb_lt in Elt2.
    destruct (take_exact (n - (len extra_buf + len chunk)) (skipn k inb))
      as [[got rest]|] eqn:Et.
    + unfold take_exact in Et.
      destruct (len (skipn k inb) <? n - (len extra_buf + len chunk)) eqn:El;
        [discriminate|].
      apply Z.ltb_ge in El. injection Et as <- <-.
      assert (Hk2 : (k <= List.length inb)%nat) by lia.
      rewrite take_exact_some by lia.
      destruct IH as (ch' & IH). exists ch'. rewrite IH.
      replace (Z.to_nat (n - len extra_buf))
        with (S (k + Z.to_nat (n - (len extra_buf + len chunk))))%nat by lia.
      cbn [firstn skipn]. rewrite <- firstn_split_add, <- skipn_skipn_add.
      rewrite <- List.app_assoc. reflexivity.
    + unfold take_exact in Et.
      destruct (len (skipn k inb) <? n - (len extra_buf + len chunk)) eqn:El;
        [|discriminate].
      apply Z.ltb_lt in El.
      rewrite take_exact_none by lia.
      exact IH.
  - apply Z.ltb_ge in Elt2.
    assert (Hk2 : (k <= List.length inb)%nat) by lia.
    rewrite take_exact_some by lia.
    exists (tl ch). rewrite IH.
    replace (Z.to_nat (n - len extra_buf)) with (S k) by lia.
    reflexivity.
Qed.

Lemma read_payload_spec fuel sock parts remaining :
  (List.length (inbound sock) < fuel)%nat ->
  if remaining >? 0 then
    match take_exact remaining (inbound sock) with
    | None =>
        read_payload fuel sock parts remaining
        = Raise (ConnectionError "Connection closed while reading payload")
    | Some (got, rest) =>
        exists ch parts',
          read_payload fuel sock parts remaining
          = Ok (parts', moved sock rest ch)
          /\ List.concat parts' = List.concat parts ++ got
    end
  else read_payload fuel sock parts remaining = Ok (parts, sock).
Proof.
  revert sock parts remaining.
  induction fuel as [|f IH]; intros sock parts remaining Hf; [lia|].
  cbn [read_payload]. destruct (remaining >? 0) eqn:Egt; [|reflexivity].
  apply Z.gtb_lt in Egt.
  destruct (recv_shape sock (Z.min remaining 65536) ltac:(lia))
    as (k & Hk & Hrecv).
  rewrite Hrecv. clear Hrecv.
  destruct sock as [inb ch out cl]. unfold moved in *.
  cbn [inbound chunking outbound closed] in *.
  destruct inb as [|b inb].
  { rewrite firstn_nil. rewrite take_exact_none by (cbn; lia). reflexivity. }
  destruct k as [|k]; [lia|]. cbn [firstn]. cbv iota.
  change (skipn (S k) (b :: inb)) with (skipn k inb).
  pose proof (len_cons b inb) as Hinb. pose proof (len_length inb) as Hinb'.
  pose proof (len_cons b (firstn k inb)) as Hchunk.
  rewrite len_firstn in Hchunk.
  pose proof (len_skipn k inb) as Hskip.
  set (chunk := b :: firstn k inb) in *.
  set (sock' := {| inbound := skipn k inb; chunking := tl ch;
                   outbound := out; closed := cl |}).
  specialize (IH sock' (parts ++ [chunk]) (remaining - len chunk)).
  assert (Hlen : (List.length (inbound sock') < f)%nat).
  { subst sock'. cbn [inbound]. rewrite length_skipn. cbn in Hf. lia. }
  specialize (IH Hlen).
  subst sock'. cbn [inbound outbound closed] in IH.
  assert (Hcat : List.concat (parts ++ [chunk]) = List.concat parts ++ chunk).
  { rewrite concat_app. cbn. rewrite List.app_nil_r. reflexivity. }
  destruct (remaining - len chunk >? 0) eqn:Egt2.
  - apply Z.gtb_lt in Egt2.
    destruct (take_exact (remaining - len chunk) (skipn k inb))
      as [[got rest]|] eqn:Et.
    + unfold take_exact in Et.
      destruct (len (skipn k inb) <? remaining - len chunk) eqn:El;
        [discriminate|].
      apply Z.ltb_ge in El. injection Et as <- <-.
      assert (Hk2 : (k <= List.length inb)%nat) by lia.
      rewrite take_exact_some by lia.
      destruct IH as (ch' & parts' & IH & Hparts).
      exists ch', parts'.
      replace (Z.to_nat remaining)
        with (S (k + Z.to_nat (remaining - len chunk)))%nat by lia.
      cbn [firstn skipn]. rewrite <- firstn_split_add, <- skipn_skipn_add.
      split; [exact IH|]. rewrite Hparts, Hcat, <- List.app_assoc.
      reflexivity.
    + unfold take_exact in Et.
      destruct (len (skipn k inb) <? remaining - len chunk) eqn:El;
        [|discriminate].
      apply Z.ltb_lt in El.
      rewrite take_exact_none by lia.
      exact IH.
  - assert (Hle : remaining - len chunk <= 0).
    { destruct (Z.gtb_spec (remaining - len chunk) 0); [discriminate | lia]. }
    assert (Hk2 : (k <= List.length inb)%nat) by lia.
    rewrite take_exact_some by lia.
    exists (tl ch), (parts ++ [chunk]).
    replace (Z.to_nat remaining) with (S k) by lia.
    split; [exact IH | exact Hcat].
Qed.

Lemma split_line_app bs line rest :
  split_line bs = Some (line, rest) ->
  bs = line ++ x0a :: rest /\ ~ In x0a line.
Proof.
  revert line rest. induction bs as [|b bs IH]; intros line rest H; [discriminate|].
  cbn in H. destruct (Byte.eqb b x0a) eqn:E.
  - injection H as <- <-. apply Byte.byte_dec_bl in E. subst b.
    split; [reflexivity | intros []].
  - destruct (split_line bs) as [[l r]|]; [|discriminate].
    injection H as <- <-. destruct (IH l r eq_refl) as [-> Hn].
    split; [reflexivity|]. intros [Hb | Hin]; [|exact (Hn Hin)].
    subst b. cbn in E. discriminate.
Qed.

Lemma split_line_found line rest :
  ~ In x0a line -> split_line (line ++ x0a :: rest) = Some (line, rest).
Proof.
  induction line as [|b line IH]; intros Hn; cbn.
  - reflexivity.
  - destruct (Byte.eqb b x0a) eqn:E.
    + apply Byte.byte_dec_bl in E. exfalso. apply Hn. left. exact E.
    + rewrite IH; [reflexivity|]. intros Hin. apply Hn. right. exact Hin.
Qed.


Lemma take_exact_app n bs got rest :
  take_exact n bs = Some (got, rest) -> 0 <= n ->
  bs = got ++ rest /\ len got = n.
Proof.
  unfold take_exact. destruct (len bs <? n) eqn:E; [discriminate|].
  apply Z.ltb_ge in E. intros H Hn. injection H as <- <-.
  split; [symmetry; apply firstn_skipn|].
  rewrite len_firstn. unfold len in E. lia.
Qed.

Lemma read_data_block_spec fuel sock data n :
  (List.length (inbound sock) < fuel)%nat ->
  match decode_data_block (inbound sock) data n with
  | Ok (d, rest) =>
      (exists ch, read_data_block fuel sock data n = Ok (d, moved sock rest ch))
      /\ (List.length rest <= List.length (inbound sock))%nat
  | Raise e => read_data_block fuel sock data n = Raise e
  end.
Proof.
  intros Hf. unfold decode_data_block, read_data_block.
  destruct (n >? 0) eqn:En.
  - apply Z.gtb_lt in En.
    pose proof (read_data_spec fuel sock [] n Hf) as Hspec.
    change (len []) with 0 in Hspec. rewrite Z.sub_0_r in Hspec.
    replace (0 <? n) with true in Hspec by (symmetry; apply Z.ltb_lt; exact En).
    destruct (take_exact n (inbound sock)) as [[got rest]|] eqn:Et.
    + destruct Hspec as (ch & ->). cbn [bind List.app].
      destruct (take_exact_app _ _ _ _ Et ltac:(lia)) as [Hbs _].
      destruct data; try reflexivity. cbn [bind].
      destruct (utf8_decode got) as [text|e]; [|reflexivity]. cbn [bind].
      destruct (loads text) as [extra|e]; [|reflexivity]. cbn [bind].
      destruct (update members extra) as [d|e]; [|reflexivity]. cbn [bind].
      split; [exists ch; reflexivity|]. rewrite Hbs, length_app. lia.
    + rewrite Hspec. reflexivity.
  - split; [|lia]. exists (chunking sock). destruct sock; reflexivity.
Qed.

Lemma read_payload_block_spec fuel sock n :
  (List.length (inbound sock) < fuel)%nat ->
  match decode_payload_block (inbound sock) n with
  | Ok (p, rest) =>
      exists ch, read_payload_block fuel sock n = Ok (p, moved sock rest ch)
  | Raise e => read_payload_block fuel sock n = Raise e
  end.
Proof.
  intros Hf. unfold decode_payload_block, read_payload_block.
  destruct (n >? 0) eqn:En.
  - pose proof (read_payload_spec fuel sock [] n Hf) as Hspec.
    rewrite En in Hspec.
    destruct (take_exact n (inbound sock)) as [[got rest]|] eqn:Et.
    + destruct Hspec as (ch & parts & -> & Hcat). cbn [bind].
      exists ch. rewrite Hcat. reflexivity.
    + rewrite Hspec. reflexivity.
  - exists (chunking sock). destruct sock; reflexivity.
Qed.

(** [recv_event] computes [decode_frame] of the inbound bytes, whatever
    the fragmentation. *)
Lemma recv_event_decode sock :
  match decode_frame (inbound sock) with
  | Ok (ev, rest) => exists ch, recv_event sock = Ok (ev, moved sock rest ch)
  | Raise e => recv_event sock = Raise e
  end.
Proof.
  unfold decode_frame, recv_event.
  rewrite read_header_spec by lia.
  destruct (split_line (inbound sock)) as [[buf rest]|] eqn:Es; [|reflexivity].
  cbn [bind List.app].
  destruct (parse_header buf) as [header|e]; [|reflexivity]. cbn [bind].
  destruct (subscript header (str "type")) as [ty|e]; [|reflexivity]. cbn [bind].
  destruct (as_int (get header (str "data_length") (JInt 0))) as [n|e];
    [|reflexivity]. cbn [bind].
  destruct (split_line_app _ _ _ Es) as [Hbs _].
  set (s1 := moved sock rest _).
  assert (H1 : (List.length (inbound s1) < S (List.length (inbound sock)))%nat).
  { subst s1. cbn. rewrite Hbs, length_app. cbn. lia. }
  pose proof (read_data_block_spec _ s1 (get header (str "data") (JObj [])) n H1)
    as Hd.
  change (inbound s1) with rest in Hd.
  destruct (decode_data_block rest (get header (str "data") (JObj [])) n)
    as [[d rest1]|e]; [|rewrite Hd; reflexivity].
  destruct Hd as ((ch1 & ->) & Hlen1). cbn [bind].
  destruct (as_int (get header (str "payload_length") (JInt 0))) as [m|e];
    [|reflexivity]. cbn [bind].
  set (s2 := moved s1 rest1 ch1).
  assert (H2 : (List.length (inbound s2) < S (List.length (inbound sock)))%nat).
  { subst s2. cbn. cbn in H1. lia. }
  pose proof (read_payload_block_spec _ s2 m H2) as Hp.
  change (inbound s2) with rest1 in Hp.
  destruct (decode_payload_block rest1 m) as [[p rest2]|e];
    [|rewrite Hp; reflexivity].
  destruct Hp as (ch2 & ->). cbn [bind]. exists ch2. reflexivity.
Qed.


Local Open Scope Z_scope.

(** ** What [send_event] writes *)

Lemma to_N_byte_of c : (c < 256)%N -> Byte.to_N (byte_of c) = c.
Proof.
  intros H. unfold byte_of. destruct (Byte.of_N c) as [b|] eqn:E.
  - apply Byte.to_of_N. exact E.
  - apply Byte.of_N_None_iff in E. lia.
Qed.

Lemma utf8_encode_printable s :
  Forall printable s -> utf8_encode s = Ok (map byte_of s).
Proof.
  induction 1 as [|c s Hc Hs IH]; [reflexivity|].
  cbn [utf8_encode map]. unfold utf8_encode_char.
  replace (c <? 128)%N with true
    by (symmetry; apply N.ltb_lt; unfold printable in Hc; lia).
  cbn [bind]. rewrite IH. reflexivity.
Qed.

Lemma utf8_decode_printable s :
  Forall printable s -> utf8_decode (map byte_of s) = Ok s.
Proof.
  induction 1 as [|c s Hc Hs IH]; [reflexivity|].
  cbn [utf8_decode map]. unfold printable in Hc.
  rewrite to_N_byte_of by lia.
  replace (c <? 128)%N with true by (symmetry; apply N.ltb_lt; lia).
  rewrite IH. reflexivity.
Qed.

Lemma newline_not_printable s : Forall printable s -> ~ In x0a (map byte_of s).
Proof.
  intros H Hin. apply in_map_iff in Hin. destruct Hin as (c & Hc & Hin).
  rewrite Forall_forall in H. specialize (H c Hin). unfold printable in H.
  pose proof (to_N_byte_of c ltac:(lia)) as Hn. rewrite Hc in Hn.
  cbn in Hn. lia.
Qed.

Lemma parse_header_line header :
  json_ok (JObj header) = true ->
  parse_header (map byte_of (dumps (JObj header))) = Ok header.
Proof.
  intros Hok. unfold parse_header.
  rewrite utf8_decode_printable by apply dumps_printable. cbn [bind].
  rewrite loads_dumps by exact Hok. reflexivity.
Qed.

Lemma take_exact_all (p : bytes) : take_exact (len p) p = Some (p, []).
Proof.
  rewrite take_exact_some by lia. unfold len. rewrite Nat2Z.id.
  rewrite firstn_all, skipn_all. reflexivity.
Qed.


Lemma utf8_encode_line s :
  Forall printable s ->
  utf8_encode (s ++ [NEWLINE]) = Ok (map byte_of s ++ [x0a]).
Proof.
  induction 1 as [|c s Hc Hs IH]; [reflexivity|].
  cbn [List.app utf8_encode map]. unfold utf8_encode_char.
  replace (c <? 128)%N with true
    by (symmetry; apply N.ltb_lt; unfold printable in Hc; lia).
  cbn [bind]. rewrite IH. reflexivity.
Qed.

Lemma send_event_outbound sock event_type data payload :
  send_event sock event_type data payload
  = Ok (mk_socket (inbound sock) (chunking sock)
          (outbound sock
           ++ header_line (sent_header event_type data payload)
           ++ bytes_or_empty payload)
          (closed sock)).
Proof.
  unfold send_event, sent_header. cbv zeta.
  rewrite utf8_encode_line by apply dumps_printable.
  cbn [bind]. unfold sendall, header_line.
  cbn [inbound chunking outbound closed].
  destruct payload as [[|b p]|]; cbn [bytes_or_empty];
    rewrite ?List.app_nil_r, <- ?List.app_assoc; reflexivity.
Qed.


(** ** Decoding reads a prefix of the stream *)

Lemma recv_events_decode fuel sock :
  recv_events fuel sock = decode_frames fuel (inbound sock).
Proof.
  revert sock. induction fuel as [|f IH]; intros sock; [reflexivity|].
  cbn [recv_events decode_frames].
  pose proof (recv_event_decode sock) as H.
  destruct (decode_frame (inbound sock)) as [[ev rest]|e].
  - destruct H as (ch & ->). rewrite IH. reflexivity.
  - rewrite H. reflexivity.
Qed.

Lemma take_exact_prefix n bs got rest rest' :
  take_exact n bs = Some (got, rest) -> 0 <= n ->
  take_exact n (got ++ rest') = Some (got, rest').
Proof.
  intros H Hn. destruct (take_exact_app _ _ _ _ H Hn) as [_ Hlen].
  rewrite take_exact_some by (rewrite len_app; unfold len in *; lia).
  rewrite <- Hlen. unfold len. rewrite Nat2Z.id.
  rewrite firstn_app, skipn_app, firstn_all, skipn_all, Nat.sub_diag.
  cbn. rewrite List.app_nil_r. reflexivity.
Qed.

Lemma decode_data_block_prefix body data n d rest :
  decode_data_block body data n = Ok (d, rest) ->
  exists block, body = block ++ rest /\
    (n <= 0 -> block = [] /\ d = data) /\
    (0 < n -> len block = n) /\
    forall rest', decode_data_block (block ++ rest') data n = Ok (d, rest').
Proof.
  unfold decode_data_block. destruct (n >? 0) eqn:En.
  - apply Z.gtb_lt in En.
    destruct (take_exact n body) as [[got r]|] eqn:Et; [|discriminate].
    destruct (take_exact_app _ _ _ _ Et ltac:(lia)) as [Hb Hl].
    intros H. exists got.
    destruct data; try discriminate. cbn [bind] in H.
    destruct (utf8_decode got) as [text|] eqn:Eu; [|discriminate].
    cbn [bind] in H.
    destruct (loads text) as [extra|] eqn:El; [|discriminate].
    cbn [bind] in H.
    destruct (update members extra) as [d'|] eqn:Eup; [|discriminate].
    cbn [bind] in H. injection H as <- <-.
    repeat split; try lia; try assumption.
    intros rest'. rewrite (take_exact_prefix _ _ _ _ rest' Et) by lia.
    cbn [bind]. rewrite Eu. cbn [bind]. rewrite El. cbn [bind]. rewrite Eup.
    reflexivity.
  - intros H. injection H as <- <-. exists [].
    assert (n <= 0) by (destruct (Z.gtb_spec n 0); [discriminate | lia]).
    repeat split; try lia; reflexivity.
Qed.

Lemma decode_payload_block_prefix body m p rest :
  decode_payload_block body m = Ok (p, rest) ->
  body = p ++ rest /\ (m <= 0 -> p = []) /\ (0 < m -> len p = m) /\
  forall rest', decode_payload_block (p ++ rest') m = Ok (p, rest').
Proof.
  unfold decode_payload_block. destruct (m >? 0) eqn:Em.
  - apply Z.gtb_lt in Em.
    destruct (take_exact m body) as [[got r]|] eqn:Et; [|discriminate].
    destruct (take_exact_app _ _ _ _ Et ltac:(lia)) as [Hb Hl].
    intros H. injection H as <- <-.
    repeat split; try lia; try assumption.
    intros rest'. rewrite (take_exact_prefix _ _ _ _ rest' Et) by lia.
    reflexivity.
  - intros H. injection H as <- <-.
    assert (m <= 0) by (destruct (Z.gtb_spec m 0); [discriminate | lia]).
    repeat split; try lia; reflexivity.
Qed.

(** A successful decoding reads a prefix of the stream and depends on
    nothing after it. *)
Lemma decode_frame_prefix bs ev rest :
  decode_frame bs = Ok (ev, rest) ->
  exists frame, bs = frame ++ rest /\
    forall rest', decode_frame (frame ++ rest') = Ok (ev, rest').
Proof.
  intros H. unfold decode_frame in H.
  destruct (split_line bs) as [[line body]|] eqn:Es; [|discriminate].
  destruct (split_line_app _ _ _ Es) as [Hbs Hnl].
  destruct (parse_header line) as [header|] eqn:Eh; [|discriminate].
  cbn [bind] in H.
  destruct (subscript header (str "type")) as [ty|] eqn:Ety; [|discriminate].
  cbn [bind] in H.
  destruct (as_int (get header (str "data_length") (JInt 0))) as [n|] eqn:En;
    [|discriminate]. cbn [bind] in H.
  destruct (decode_data_block body _ n) as [[d r1]|] eqn:Ed; [|discriminate].
  cbn [bind] in H.
  destruct (as_int (get header (str "payload_length") (JInt 0))) as [m|] eqn:Em;
    [|discriminate]. cbn [bind] in H.
  destruct (decode_payload_block r1 m) as [[p r2]|] eqn:Ep; [|discriminate].
  cbn [bind] in H. injection H as <- <-.
  destruct (decode_data_block_prefix _ _ _ _ _ Ed) as (block & Hbody & _ & _ & Hd).
  destruct (decode_payload_block_prefix _ _ _ _ Ep) as (Hr1 & _ & _ & Hp).
  exists (line ++ x0a :: block ++ p). split.
  - rewrite Hbs, Hbody, Hr1. rewrite <- !List.app_assoc. cbn [List.app].
    rewrite <- !List.app_assoc. reflexivity.
  - intros rest'. unfold decode_frame. rewrite <- List.app_assoc.
    cbn [List.app]. rewrite split_line_found by exact Hnl.
    rewrite Eh. cbn [bind]. rewrite Ety. cbn [bind]. rewrite En. cbn [bind].
    rewrite <- List.app_assoc. rewrite Hd. cbn [bind]. rewrite Em. cbn [bind].
    rewrite Hp. reflexivity.
Qed.

Lemma complete_frame_decode frame ev :
  complete_frame frame ev -> decode_frame frame = Ok (ev, []).
Proof.
  unfold complete_frame. intros H.
  pose proof (recv_event_decode (mk_socket frame [] [] false)) as Hd.
  cbn [inbound] in Hd.
  destruct (decode_frame frame) as [[ev' rest']|e].
  - destruct Hd as (ch & Hd). rewrite Hd in H. injection H as -> -> _.
    reflexivity.
  - rewrite Hd in H. discriminate.
Qed.

Lemma complete_frame_anywhere frame ev rest sock :
  complete_frame frame ev -> inbound sock = frame ++ rest ->
  exists ch, recv_event sock = Ok (ev, moved sock rest ch).
Proof.
  intros Hc Hin. apply complete_frame_decode in Hc.
  destruct (decode_frame_prefix _ _ _ Hc) as (fr & Hfr & Hany).
  rewrite List.app_nil_r in Hfr. subst fr.
  pose proof (recv_event_decode sock) as Hd. rewrite Hin, Hany in Hd.
  exact Hd.
Qed.

Lemma declared_payload frame ty d p N :
  decode_frame frame = Ok ((ty, d, p), []) ->
  declares_payload_length frame N -> 0 < N ->
  len p = N /\ exists before, frame = before ++ p.
Proof.
  intros Hdec (line & body & header & Hfr & Hnl & Hh & HN) Hpos.
  unfold decode_frame in Hdec. rewrite Hfr in Hdec.
  rewrite split_line_found in Hdec by exact Hnl. rewrite Hh in Hdec.
  cbn [bind] in Hdec.
  destruct (subscript header (str "type")) as [ty'|]; [|discriminate].
  cbn [bind] in Hdec.
  destruct (as_int (get header (str "data_length") (JInt 0))) as [n|];
    [|discriminate]. cbn [bind] in Hdec.
  destruct (decode_data_block body _ n) as [[d' r1]|] eqn:Ed; [|discriminate].
  cbn [bind] in Hdec. unfold get in Hdec at 1. rewrite HN in Hdec.
  cbn [as_int bind] in Hdec.
  destruct (decode_payload_block r1 N) as [[p' r2]|] eqn:Ep; [|discriminate].
  cbn [bind] in Hdec. injection Hdec as _ _ -> ->.
  destruct (decode_data_block_prefix _ _ _ _ _ Ed) as (block & Hbody & _).
  destruct (decode_payload_block_prefix _ _ _ _ Ep) as (Hr1 & _ & Hlen & _).
  split; [apply Hlen; exact Hpos|].
  exists (line ++ x0a :: block). rewrite Hfr, Hbody, Hr1.
  rewrite List.app_nil_r, <- List.app_assoc. reflexivity.
Qed.

(** ** The request and the receive loop *)

Lemma recv_event_moved sock ev sock' :
  recv_event sock = Ok (ev, sock') ->
  exists rest ch, sock' = moved sock rest ch.
Proof.
  intros H. pose proof (recv_event_decode sock) as Hd.
  destruct (decode_frame (inbound sock)) as [[ev' rest]|e].
  - destruct Hd as (ch & Hd). rewrite Hd in H. injection H as _ <-.
    exists rest, ch. reflexivity.
  - rewrite Hd in H. discriminate.
Qed.

Lemma update_nth_length {A} (l : list A) n f :
  List.length (update_nth l n f) = List.length l.
Proof.
  revert n. induction l as [|x l IH]; intros [|n]; cbn; try reflexivity.
  rewrite IH. reflexivity.
Qed.

Lemma dispatch_sock e ev l w :
  match dispatch e ev l w with
  | Continue _ w' | BreakStop _ w' | BreakPipe _ w' => sock w' = sock w
  | Throw _ => True
  end.
Proof.
  destruct ev as [[ty data] payload]. unfold dispatch.
  destruct (is_str ty (str "audio-start")).
  { unfold on_audio_start. destruct data; try exact I.
    destruct (streaming e); [|reflexivity].
    destruct (start_streaming_player _ _ _ _ _) as [[child|]|]; try exact I;
      reflexivity. }
  destruct (is_str ty (str "audio-chunk")).
  { unfold on_audio_chunk. destruct payload; [reflexivity|].
    destruct (if streaming e then proc l else None); [|reflexivity].
    destruct (pipe_breaks e _ _); reflexivity. }
  destruct (is_str ty (str "audio-stop")).
  { unfold on_audio_stop.
    destruct (if streaming e then proc l else None); [reflexivity|].
    destruct (pcm_buf l); reflexivity. }
  reflexivity.
Qed.

Lemma event_loop_outbound fuel e l w :
  outbound (sock (final (event_loop fuel e l w))) = outbound (sock w).
Proof.
  revert l w. induction fuel as [|f IH]; intros l w; [reflexivity|].
  cbn [event_loop].
  destruct (recv_event (sock w)) as [[ev sock']|ex] eqn:Er; [|reflexivity].
  destruct (recv_event_moved _ _ _ Er) as (rest & ch & ->).
  pose proof (dispatch_sock e ev l (set_sock w (moved (sock w) rest ch))) as Hs.
  destruct (dispatch e ev l _) as [l' w'|l' w'|l' w'|ex]; cbn [final];
    try rewrite IH; try rewrite Hs; reflexivity.
Qed.

(** Every exit of [main] passes through the [finally] clause. *)
Lemma main_closes_socket e text voice speaker connected :
  closed (sock (final (main e text voice speaker connected))) = true.
Proof. reflexivity. Qed.

Lemma synth_data_nonempty text voice speaker :
  exists kv d, synth_data text voice speaker = kv :: d.
Proof.
  unfold synth_data. destruct (truthy_str voice || truthy_str speaker);
    eexists _, _; reflexivity.
Qed.

Lemma main_outbound e text voice speaker connected :
  outbound (sock (final (main e text voice speaker connected)))
  = outbound connected
    ++ header_line (synthesize_header (synth_data text voice speaker)).
Proof.
  unfold main. rewrite send_event_outbound. cbn [bytes_or_empty].
  rewrite List.app_nil_r. unfold finally_close. cbn [final sock].
  unfold set_sock, close. cbn [sock outbound].
  rewrite event_loop_outbound. unfold sent_header.
  destruct (synth_data_nonempty text voice speaker) as (kv & d & ->).
  reflexivity.
Qed.

Lemma dispatch_audio_start e d payload l w l' w' :
  dispatch e (audio_start d payload) l w = Continue l' w' ->
  fmt l' = declared_format d
  /\ pcm_buf l' = pcm_buf l
  /\ wav_played w' = wav_played w
  /\ sock w' = sock w
  /\ (streaming e = false -> procs w' = procs w /\ proc l' = proc l)
  /\ (streaming e = true -> player e <> afplay ->
      exists child,
        procs w' = procs w ++ [child]
        /\ proc l' = Some (List.length (procs w))
        /\ program child = player e
        /\ arg_rate child = rate (declared_format d)
        /\ arg_width child = width (declared_format d)
        /\ arg_channels child = channels (declared_format d)
        /\ stdin_writes child = [] /\ stdin_closed child = false).
Proof.
  change (dispatch e (audio_start d payload) l w)
    with (on_audio_start e (JObj d) l w).
  unfold on_audio_start. fold (declared_format d).
  destruct (streaming e) eqn:Es.
  - unfold start_streaming_player.
    destruct (times8 (width (declared_format d))) as [bits|ex];
      [|discriminate]. cbn [bind].
    destruct (player e) eqn:Ep.
    + intros H. injection H as <- <-. repeat split; try discriminate.
      intros _ _. eexists. repeat split.
    + destruct (hashable _); [|discriminate].
      intros H. injection H as <- <-. repeat split; try discriminate.
      intros _ _. eexists. repeat split.
    + destruct (hashable _); [|discriminate].
      intros H. injection H as <- <-. repeat split; try discriminate.
      intros _ _. eexists. repeat split.
    + intros H. injection H as <- <-. repeat split; try discriminate.
      intros _ Hne. exfalso. apply Hne. reflexivity.
  - intros H. injection H as <- <-. repeat split; discriminate.
Qed.



Local Open Scope N_scope.

(** ** The bounds of the loop unrollings are never reached *)

Lemma skip_ws_length s : (List.length (skip_ws s) <= List.length s)%nat.
Proof.
  induction s as [|c s IH]; cbn; [lia|]. destruct (is_ws c); cbn; lia.
Qed.

Lemma prepend_ok c res v r :
  prepend c res = Ok (v, r) -> exists v', res = Ok (v', r).
Proof.
  unfold prepend. destruct res as [[v' r']|e]; cbn; [|discriminate].
  intros H. injection H as _ <-. exists v'. reflexivity.
Qed.

Lemma scanstring_shrinks s v r :
  scanstring s = Ok (v, r) -> (List.length r < List.length s)%nat.
Proof.
  remember (List.length s) as n eqn:Hn.
  assert (Hle : (List.length s <= n)%nat) by lia. rewrite Hn. clear Hn.
  revert s v r Hle. induction n as [|n IH]; intros s v r Hle H.
  - destruct s; [discriminate | cbn in Hle; lia].
  - destruct s as [|c r0]; [discriminate|]. cbn [scanstring] in H.
    cbn [List.length] in *.
    destruct (c =? QUOTE).
    { injection H as _ <-. lia. }
    destruct (c =? BACKSLASH).
    2:{ destruct (c <? 32); [discriminate|].
        apply prepend_ok in H. destruct H as (v' & H).
        apply IH in H; lia. }
    destruct r0 as [|e r1]; [discriminate|]. cbn [List.length] in *.
    destruct (e =? LETTER_u).
    2:{ destruct (unescape e); [|discriminate].
        apply prepend_ok in H. destruct H as (v' & H).
        apply IH in H; lia. }
    destruct r1 as [|h1 [|h2 [|h3 [|h4 r2]]]]; try discriminate.
    cbn [List.length] in *.
    destruct (decode_uXXXX h1 h2 h3 h4) as [uni|]; [|discriminate].
    assert (Hplain : forall v', scanstring r2 = Ok (v', r) ->
                       (List.length r < S (S (S (S (S (S (List.length r2)))))))%nat).
    { intros v' H'. apply IH in H'; lia. }
    destruct r2 as [|b [|u [|g1 [|g2 [|g3 [|g4 r3]]]]]];
      try (apply prepend_ok in H; destruct H as (v' & H);
           exact (Hplain _ H)).
    destruct (is_high_surrogate uni && (b =? BACKSLASH) && (u =? LETTER_u)).
    2:{ apply prepend_ok in H. destruct H as (v' & H). exact (Hplain _ H). }
    destruct (decode_uXXXX g1 g2 g3 g4) as [uni2|]; [|discriminate].
    destruct (is_low_surrogate uni2).
    2:{ apply prepend_ok in H. destruct H as (v' & H). exact (Hplain _ H). }
    apply prepend_ok in H. destruct H as (v' & H).
    apply IH in H; cbn [List.length] in *; lia.
Qed.

Lemma span_digits_length s ds rest :
  span_digits s = (ds, rest) -> (List.length rest <= List.length s)%nat.
Proof.
  revert ds rest. induction s as [|c s IH]; intros ds rest H; cbn in H.
  - injection H as _ <-. cbn. lia.
  - destruct (is_digit c).
    + destruct (span_digits s) as [ds' rest'] eqn:E. injection H as _ <-.
      specialize (IH _ _ eq_refl). cbn. lia.
    + injection H as _ <-. lia.
Qed.

Lemma span_digits_cons c r0 ds rest :
  is_digit c = true -> span_digits (c :: r0) = (ds, rest) ->
  (List.length rest <= List.length r0)%nat.
Proof.
  intros Ed Es. cbn [span_digits] in Es. rewrite Ed in Es.
  destruct (span_digits r0) as [ds' rest'] eqn:Es'. injection Es as _ <-.
  apply span_digits_length in Es'. exact Es'.
Qed.

Lemma match_number_shrinks s v r :
  match_number s = Some (Ok (v, r)) -> (List.length r < List.length s)%nat.
Proof.
  unfold match_number. intros H.
  destruct s as [|c r0]; [discriminate|].
  destruct (c =? MINUS).
  - destruct r0 as [|c' r1]; [discriminate|].
    destruct (is_digit c') eqn:Ed; [|discriminate].
    destruct (c' =? 48).
    + destruct (float_tail r1); [discriminate|]. injection H as _ <-. cbn. lia.
    + destruct (span_digits (c' :: r1)) as [ds rest] eqn:Es.
      destruct (float_tail rest); [discriminate|]. injection H as _ <-.
      apply (span_digits_cons _ _ _ _ Ed) in Es. cbn. lia.
  - destruct (is_digit c) eqn:Ed; [|discriminate].
    destruct (c =? 48).
    + destruct (float_tail r0); [discriminate|]. injection H as _ <-. cbn. lia.
    + destruct (span_digits (c :: r0)) as [ds rest] eqn:Es.
      destruct (float_tail rest); [discriminate|]. injection H as _ <-.
      apply (span_digits_cons _ _ _ _ Ed) in Es. cbn. lia.
Qed.

Lemma strip_prefix_length p s rest :
  strip_prefix p s = Some rest ->
  List.length s = (List.length p + List.length rest)%nat.
Proof.
  revert s. induction p as [|a p IH]; intros s H; cbn in H.
  - injection H as <-. reflexivity.
  - destruct s as [|b s]; [discriminate|]. destruct (a =? b); [|discriminate].
    apply IH in H. cbn. lia.
Qed.

Lemma scan_shrinks fuel :
  (forall s v r, scan_once fuel s = Ok (v, r) ->
     (List.length r < List.length s)%nat)
  /\ (forall s v r, scan_items fuel s = Ok (v, r) ->
        (List.length r < List.length s)%nat)
  /\ (forall s v r, scan_members fuel s = Ok (v, r) ->
        (List.length r < List.length s)%nat).
Proof.
  induction fuel as [|f (IHv & IHi & IHm)].
  { repeat split; intros; discriminate. }
  repeat split.
  - intros s v r H. cbn [scan_once] in H.
    destruct s as [|c r0]; [discriminate|]. cbn [List.length].
    destruct (c =? QUOTE).
    { destruct (scanstring r0) as [[sv sr]|] eqn:E; [|discriminate].
      cbn [bind] in H. injection H as _ <-.
      apply scanstring_shrinks in E. lia. }
    destruct (c =? LBRACE).
    { pose proof (skip_ws_length r0) as Hw.
      destruct (skip_ws r0) as [|c1 r1]; [discriminate|]. cbn [List.length] in Hw.
      destruct (c1 =? QUOTE).
      - destruct (scan_members f r1) as [[ps pr]|] eqn:E; [|discriminate].
        cbn [bind] in H. injection H as _ <-. apply IHm in E. lia.
      - destruct (c1 =? RBRACE); [|discriminate]. injection H as _ <-. lia. }
    destruct (c =? LBRACKET).
    { pose proof (skip_ws_length r0) as Hw.
      destruct (skip_ws r0) as [|c1 r1]; [discriminate|]. cbn [List.length] in Hw.
      destruct (c1 =? RBRACKET).
      - injection H as _ <-. lia.
      - destruct (scan_items f (c1 :: r1)) as [[its ir]|] eqn:E; [|discriminate].
        cbn [bind] in H. injection H as _ <-. apply IHi in E.
        cbn [List.length] in E. lia. }
    destruct (strip_prefix (str "null") (c :: r0)) as [r1|] eqn:E1.
    { injection H as _ <-. apply strip_prefix_length in E1.
      cbn [List.length] in E1. cbn in E1. lia. }
    destruct (strip_prefix (str "true") (c :: r0)) as [r1|] eqn:E2.
    { injection H as _ <-. apply strip_prefix_length in E2.
      cbn [List.length] in E2. cbn in E2. lia. }
    destruct (strip_prefix (str "false") (c :: r0)) as [r1|] eqn:E3.
    { injection H as _ <-. apply strip_prefix_length in E3.
      cbn [List.length] in E3. cbn in E3. lia. }
    destruct (match_number (c :: r0)) as [res|] eqn:Em.
    { subst res. apply match_number_shrinks in Em. exact Em. }
    destruct (strip_prefix (str "NaN") (c :: r0));
      destruct (strip_prefix (str "Infinity") (c :: r0));
      destruct (strip_prefix (str "-Infinity") (c :: r0)); discriminate.
  - intros s v r H. cbn [scan_items] in H.
    destruct (scan_once f s) as [[v1 s1]|] eqn:E; [|discriminate].
    cbn [bind] in H. apply IHv in E.
    pose proof (skip_ws_length s1) as Hw.
    destruct (skip_ws s1) as [|c r1]; [discriminate|]. cbn [List.length] in Hw.
    destruct (c =? RBRACKET).
    { injection H as _ <-. lia. }
    destruct (c =? COMMA); [|discriminate].
    pose proof (skip_ws_length r1) as Hw'.
    destruct (scan_items f (skip_ws r1)) as [[vs rs]|] eqn:E'; [|discriminate].
    cbn [bind] in H. injection H as _ <-. apply IHi in E'. lia.
  - intros s v r H. cbn [scan_members] in H.
    destruct (scanstring s) as [[k s1]|] eqn:E; [|discriminate].
    cbn [bind] in H. apply scanstring_shrinks in E.
    pose proof (skip_ws_length s1) as Hw.
    destruct (skip_ws s1) as [|c s2]; [discriminate|]. cbn [List.length] in Hw.
    destruct (c =? COLON); [|discriminate].
    pose proof (skip_ws_length s2) as Hw2.
    destruct (scan_once f (skip_ws s2)) as [[v1 s3]|] eqn:E1; [|discriminate].
    cbn [bind] in H. apply IHv in E1.
    pose proof (skip_ws_length s3) as Hw3.
    destruct (skip_ws s3) as [|c' r1]; [discriminate|]. cbn [List.length] in Hw3.
    destruct (c' =? RBRACE).
    { injection H as _ <-. lia. }
    destruct (c' =? COMMA); [|discriminate].
    pose proof (skip_ws_length r1) as Hw4.
    destruct (skip_ws r1) as [|q r']; [discriminate|]. cbn [List.length] in Hw4.
    destruct (q =? QUOTE); [|discriminate].
    destruct (scan_members f r') as [[kvs rs]|] eqn:E2; [|discriminate].
    cbn [bind] in H. injection H as _ <-. apply IHm in E2. lia.
Qed.

Lemma prepend_raise c res e :
  prepend c res = Raise e -> res = Raise e.
Proof.
  unfold prepend. destruct res as [[v r]|e']; cbn; [discriminate|].
  intros H. exact H.
Qed.

Lemma scanstring_raises s e : scanstring s = Raise e -> e = ValueError.
Proof.
  remember (List.length s) as n eqn:Hn.
  assert (Hle : (List.length s <= n)%nat) by lia. clear Hn.
  revert s Hle. induction n as [|n IH]; intros s Hle H.
  - destruct s; [cbn in H; congruence | cbn in Hle; lia].
  - destruct s as [|c r0]; [cbn in H; congruence|]. cbn [scanstring] in H.
    cbn [List.length] in *.
    destruct (c =? QUOTE); [discriminate|].
    destruct (c =? BACKSLASH).
    2:{ destruct (c <? 32); [congruence|].
        apply prepend_raise in H. apply IH in H; [exact H | lia]. }
    destruct r0 as [|e' r1]; [congruence|]. cbn [List.length] in *.
    destruct (e' =? LETTER_u).
    2:{ destruct (unescape e'); [|congruence].
        apply prepend_raise in H. apply IH in H; [exact H | lia]. }
    destruct r1 as [|h1 [|h2 [|h3 [|h4 r2]]]]; try congruence.
    cbn [List.length] in *.
    destruct (decode_uXXXX h1 h2 h3 h4) as [uni|]; [|congruence].
    assert (Hplain : scanstring r2 = Raise e -> e = ValueError).
    { intros H'. apply IH in H'; [exact H' | lia]. }
    destruct r2 as [|b [|u [|g1 [|g2 [|g3 [|g4 r3]]]]]];
      try (apply prepend_raise in H; exact (Hplain H)).
    destruct (is_high_surrogate uni && (b =? BACKSLASH) && (u =? LETTER_u)).
    2:{ apply prepend_raise in H. exact (Hplain H). }
    destruct (decode_uXXXX g1 g2 g3 g4) as [uni2|]; [|congruence].
    destruct (is_low_surrogate uni2).
    2:{ apply prepend_raise in H. exact (Hplain H). }
    apply prepend_raise in H. apply IH in H; [exact H|].
    cbn [List.length] in *. lia.
Qed.

Lemma match_number_raises s e :
  match_number s = Some (Raise e) -> e = Unsupported.
Proof.
  unfold match_number. intros H.
  destruct s as [|c r0]; [discriminate|].
  destruct (c =? MINUS).
  - destruct r0 as [|c' r1]; [discriminate|].
    destruct (is_digit c'); [|discriminate].
    destruct (if c' =? 48 then ([c'], r1) else span_digits (c' :: r1))
      as [ds rest].
    destruct (float_tail rest); congruence.
  - destruct (is_digit c); [|discriminate].
    destruct (if c =? 48 then ([c], r0) else span_digits (c :: r0))
      as [ds rest].
    destruct (float_tail rest); congruence.
Qed.

Lemma scan_fuel fuel :
  (forall s, (2 * List.length s < fuel)%nat ->
     scan_once fuel s <> Raise FuelExhausted)
  /\ (forall s, (2 * List.length s + 1 < fuel)%nat ->
        scan_items fuel s <> Raise FuelExhausted)
  /\ (forall s, (2 * List.length s < fuel)%nat ->
        scan_members fuel s <> Raise FuelExhausted).
Proof.
  induction fuel as [|f (IHv & IHi & IHm)].
  { repeat split; intros; lia. }
  destruct (scan_shrinks f) as (Sv & Si & Sm).
  repeat split.
  - intros s Hf H. cbn [scan_once] in H.
    destruct s as [|c r0]; [discriminate|]. cbn [List.length] in Hf.
    destruct (c =? QUOTE).
    { destruct (scanstring r0) as [[sv sr]|e] eqn:E; [discriminate|].
      cbn [bind] in H. apply scanstring_raises in E. congruence. }
    destruct (c =? LBRACE).
    { pose proof (skip_ws_length r0) as Hw.
      destruct (skip_ws r0) as [|c1 r1]; [discriminate|]. cbn [List.length] in Hw.
      destruct (c1 =? QUOTE).
      - destruct (scan_members f r1) as [[ps pr]|e] eqn:E; [discriminate|].
        cbn [bind] in H. injection H as ->. revert E. apply IHm. lia.
      - destruct (c1 =? RBRACE); discriminate. }
    destruct (c =? LBRACKET).
    { pose proof (skip_ws_length r0) as Hw.
      destruct (skip_ws r0) as [|c1 r1]; [discriminate|]. cbn [List.length] in Hw.
      destruct (c1 =? RBRACKET); [discriminate|].
      destruct (scan_items f (c1 :: r1)) as [[its ir]|e] eqn:E; [discriminate|].
      cbn [bind] in H. injection H as ->. revert E. apply IHi.
      cbn [List.length]. lia. }
    destruct (strip_prefix (str "null") (c :: r0)); [discriminate|].
    destruct (strip_prefix (str "true") (c :: r0)); [discriminate|].
    destruct (strip_prefix (str "false") (c :: r0)); [discriminate|].
    destruct (match_number (c :: r0)) as [res|] eqn:Em.
    { subst res. apply match_number_raises in Em. discriminate. }
    destruct (strip_prefix (str "NaN") (c :: r0));
      destruct (strip_prefix (str "Infinity") (c :: r0));
      destruct (strip_prefix (str "-Infinity") (c :: r0)); discriminate.
  - intros s Hf H. cbn [scan_items] in H.
    destruct (scan_once f s) as [[v1 s1]|e] eqn:E.
    2:{ cbn [bind] in H. injection H as ->. revert E. apply IHv. lia. }
    cbn [bind] in H. apply Sv in E.
    pose proof (skip_ws_length s1) as Hw.
    destruct (skip_ws s1) as [|c r1]; [discriminate|]. cbn [List.length] in Hw.
    destruct (c =? RBRACKET); [discriminate|].
    destruct (c =? COMMA); [|discriminate].
    pose proof (skip_ws_length r1) as Hw'.
    destruct (scan_items f (skip_ws r1)) as [[vs rs]|e] eqn:E'; [discriminate|].
    cbn [bind] in H. injection H as ->. revert E'. apply IHi. lia.
  - intros s Hf H. cbn [scan_members] in H.
    destruct (scanstring s) as [[k s1]|e] eqn:E.
    2:{ cbn [bind] in H. apply scanstring_raises in E. congruence. }
    cbn [bind] in H. apply scanstring_shrinks in E.
    pose proof (skip_ws_length s1) as Hw.
    destruct (skip_ws s1) as [|c s2]; [discriminate|]. cbn [List.length] in Hw.
    destruct (c =? COLON); [|discriminate].
    pose proof (skip_ws_length s2) as Hw2.
    destruct (scan_once f (skip_ws s2)) as [[v1 s3]|e] eqn:E1.
    2:{ cbn [bind] in H. injection H as ->. revert E1. apply IHv. lia. }
    cbn [bind] in H. apply Sv in E1.
    pose proof (skip_ws_length s3) as Hw3.
    destruct (skip_ws s3) as [|c' r1]; [discriminate|]. cbn [List.length] in Hw3.
    destruct (c' =? RBRACE); [discriminate|].
    destruct (c' =? COMMA); [|discriminate].
    pose proof (skip_ws_length r1) as Hw4.
    destruct (skip_ws r1) as [|q r']; [discriminate|]. cbn [List.length] in Hw4.
    destruct (q =? QUOTE); [|discriminate].
    destruct (scan_members f r') as [[kvs rs]|e] eqn:E2; [discriminate|].
    cbn [bind] in H. injection H as ->. revert E2. apply IHm. lia.
Qed.

(** [loads] never stops for lack of fuel. *)
Lemma loads_total s : loads s <> Raise FuelExhausted.
Proof.
  unfold loads. destruct (starts_with_bom s); [discriminate|].
  destruct (scan_fuel (S (2 * List.length s))) as (Hv & _ & _).
  pose proof (skip_ws_length s) as Hw.
  specialize (Hv (skip_ws s) ltac:(lia)).
  destruct (scan_once _ (skip_ws s)) as [[v rest]|e]; cbn [bind].
  - destruct (skip_ws rest); discriminate.
  - congruence.
Qed.

Lemma utf8_decode_raises bs e : utf8_decode bs = Raise e -> e = ValueError.
Proof.
  remember (List.length bs) as n eqn:Hn.
  assert (Hle : (List.length bs <= n)%nat) by lia. clear Hn.
  revert bs Hle. induction n as [|n IH]; intros bs Hle H.
  - destruct bs; [discriminate | cbn in Hle; lia].
  - destruct bs as [|b0 r0]; [discriminate|]. cbn [utf8_decode] in H.
    cbn [List.length] in Hle.
    assert (Hrec : forall r c, (List.length r <= n)%nat ->
              (s <- utf8_decode r ;; Ok (c :: s)) = Raise e -> e = ValueError).
    { intros r c Hr Hb. destruct (utf8_decode r) as [s|e'] eqn:E;
        [discriminate|]. cbn [bind] in Hb. injection Hb as <-.
      exact (IH r Hr E). }
    cbv zeta in H.
    destruct (Byte.to_N b0 <? 128).
    { apply (Hrec r0 _ ltac:(lia) H). }
    destruct ((194 <=? Byte.to_N b0) && (Byte.to_N b0 <=? 223)).
    { destruct r0 as [|b1 r1]; [congruence|]. cbn [List.length] in Hle.
      destruct (is_cont b1); [|congruence].
      apply (Hrec r1 _ ltac:(lia) H). }
    destruct ((224 <=? Byte.to_N b0) && (Byte.to_N b0 <=? 239)).
    { destruct r0 as [|b1 [|b2 r2]]; try congruence. cbn [List.length] in Hle.
      match type of H with
      | (if ?c then _ else _) = _ => destruct c; [|congruence]
      end.
      apply (Hrec r2 _ ltac:(lia) H). }
    destruct ((240 <=? Byte.to_N b0) && (Byte.to_N b0 <=? 244)).
    { destruct r0 as [|b1 [|b2 [|b3 r3]]]; try congruence.
      cbn [List.length] in Hle.
      match type of H with
      | (if ?c then _ else _) = _ => destruct c; [|congruence]
      end.
      apply (Hrec r3 _ ltac:(lia) H). }
    congruence.
Qed.

Lemma update_pair_raises item : update_pair item <> Raise FuelExhausted.
Proof.
  unfold update_pair.
  repeat match goal with
  | |- context [match ?x with _ => _ end] => destruct x
  end; discriminate.
Qed.

Lemma update_seq_raises d items : update_seq d items <> Raise FuelExhausted.
Proof.
  revert d. induction items as [|item items IH]; intros d; cbn [update_seq].
  - discriminate.
  - pose proof (update_pair_raises item) as Hp.
    destruct (update_pair item) as [[k v]|e]; cbn [bind].
    + apply IH.
    + congruence.
Qed.

Lemma update_raises d extra : update d extra <> Raise FuelExhausted.
Proof.
  unfold update. destruct extra; try discriminate; apply update_seq_raises.
Qed.

Lemma parse_header_raises buf : parse_header buf <> Raise FuelExhausted.
Proof.
  unfold parse_header.
  destruct (utf8_decode buf) as [text|e] eqn:Eu; cbn [bind].
  - pose proof (loads_total text) as Hl.
    destruct (loads text) as [parsed|e]; cbn [bind]; [|congruence].
    destruct parsed; discriminate.
  - apply utf8_decode_raises in Eu. congruence.
Qed.

Local Open Scope Z_scope.

Lemma decode_frame_raises bs : decode_frame bs <> Raise FuelExhausted.
Proof.
  unfold decode_frame.
  destruct (split_line bs) as [[buf rest]|]; [|discriminate].
  pose proof (parse_header_raises buf) as Hh.
  destruct (parse_header buf) as [header|e]; cbn [bind]; [|congruence].
  unfold subscript. destruct (dict_get header (str "type")); [|discriminate].
  cbn [bind].
  destruct (get header (str "data_length") (JInt 0)) as [|[|]| | | |];
    try discriminate; cbn [as_int bind];
  (match goal with
   | |- context [decode_data_block ?r ?d ?n] =>
       assert (Hd : decode_data_block r d n <> Raise FuelExhausted);
       [ unfold decode_data_block; destruct (n >? 0); [|discriminate];
         destruct (take_exact n r) as [[extra rest']|]; [|discriminate];
         destruct d; try discriminate; cbn [bind];
         destruct (utf8_decode extra) as [text|e] eqn:Eu; cbn [bind];
         [ pose proof (loads_total text) as Hl;
           destruct (loads text) as [ex|e]; cbn [bind]; [|congruence];
           pose proof (update_raises members ex) as Hup;
           destruct (update members ex); cbn [bind];
           [discriminate | congruence]
         | apply utf8_decode_raises in Eu; congruence ]
       | destruct (decode_data_block r d n) as [[d' r']|e]; cbn [bind];
         [|congruence] ]
   end);
  (destruct (get header (str "payload_length") (JInt 0)) as [|[|]| | | |];
    try discriminate; cbn [as_int bind];
   match goal with
   | |- context [decode_payload_block ?r ?n] =>
       unfold decode_payload_block; destruct (n >? 0); [|discriminate];
       destruct (take_exact n r) as [[p rest']|]; discriminate
   end).
Qed.

(** [recv_event] never stops for lack of fuel, and a successful call
    consumes at least the newline of its header line. *)
Lemma recv_event_total sock : recv_event sock <> Raise FuelExhausted.
Proof.
  pose proof (recv_event_decode sock) as H.
  pose proof (decode_frame_raises (inbound sock)) as Hd.
  destruct (decode_frame (inbound sock)) as [[ev rest]|e].
  - destruct H as (ch & ->). discriminate.
  - rewrite H. congruence.
Qed.

Lemma recv_event_consumes sock ev sock' :
  recv_event sock = Ok (ev, sock') ->
  (List.length (inbound sock') < List.length (inbound sock))%nat.
Proof.
  intros H. pose proof (recv_event_decode sock) as Hd.
  destruct (decode_frame (inbound sock)) as [[ev' rest]|e] eqn:Ed.
  - destruct Hd as (ch & Hd). rewrite Hd in H. injection H as _ <-.
    cbn [moved inbound]. unfold decode_frame in Ed.
    destruct (split_line (inbound sock)) as [[buf r0]|] eqn:Es; [|discriminate].
    destruct (split_line_app _ _ _ Es) as [Hbs _].
    destruct (parse_header buf); [|discriminate]. cbn [bind] in Ed.
    destruct (subscript _ _); [|discriminate]. cbn [bind] in Ed.
    destruct (as_int _) as [n|]; [|discriminate]. cbn [bind] in Ed.
    destruct (decode_data_block r0 _ n) as [[d r1]|] eqn:E1; [|discriminate].
    cbn [bind] in Ed.
    destruct (as_int _) as [m|]; [|discriminate]. cbn [bind] in Ed.
    destruct (decode_payload_block r1 m) as [[p r2]|] eqn:E2; [|discriminate].
    cbn [bind] in Ed. injection Ed as _ <-.
    destruct (decode_data_block_prefix _ _ _ _ _ E1) as (blk & Hr0 & _).
    destruct (decode_payload_block_prefix _ _ _ _ E2) as (Hr1 & _).
    rewrite Hbs, Hr0, Hr1. rewrite !length_app. cbn [List.length].
    rewrite !length_app. lia.
  - rewrite Hd in H. discriminate.
Qed.

Lemma recv_events_total fuel sock :
  (List.length (inbound sock) < fuel)%nat ->
  snd (recv_events fuel sock) <> FuelExhausted.
Proof.
  revert sock. induction fuel as [|f IH]; intros sock Hf; [lia|].
  cbn [recv_events].
  pose proof (recv_event_total sock) as Ht.
  destruct (recv_event sock) as [[ev sock']|e] eqn:E.
  - apply recv_event_consumes in E.
    specialize (IH sock' ltac:(lia)).
    destruct (recv_events f sock') as [evs e]. exact IH.
  - cbn [snd]. congruence.
Qed.

Lemma dispatch_throws e ev l w ex :
  dispatch e ev l w = Throw ex -> ex <> FuelExhausted.
Proof.
  destruct ev as [[ty data] payload]. unfold dispatch.
  destruct (is_str ty (str "audio-start")).
  { unfold on_audio_start. destruct data; try (intros H; congruence).
    destruct (streaming e); [|discriminate].
    unfold start_streaming_player.
    destruct (times8 _) as [bits|ex'] eqn:Et; cbn [bind].
    - destruct (player e); try discriminate;
        destruct (hashable _); try discriminate; intros H; congruence.
    - unfold times8 in Et. destruct (width _); try discriminate;
        intros H; congruence. }
  destruct (is_str ty (str "audio-chunk")).
  { unfold on_audio_chunk. destruct payload; [discriminate|].
    destruct (if streaming e then proc l else None); [|discriminate].
    destruct (pipe_breaks e _ _); discriminate. }
  destruct (is_str ty (str "audio-stop")).
  { unfold on_audio_stop.
    destruct (if streaming e then proc l else None); [discriminate|].
    destruct (pcm_buf l); discriminate. }
  discriminate.
Qed.

(** The receive loop always ends by itself: at [audio-stop], at a
    broken pipe or at an exception of the program. *)
Lemma event_loop_total fuel e l w :
  (List.length (inbound (sock w)) < fuel)%nat ->
  how (event_loop fuel e l w) <> Uncaught FuelExhausted.
Proof.
  revert l w. induction fuel as [|f IH]; intros l w Hf; [lia|].
  cbn [event_loop].
  pose proof (recv_event_total (sock w)) as Ht.
  destruct (recv_event (sock w)) as [[ev sock']|ex] eqn:E.
  - apply recv_event_consumes in E.
    pose proof (dispatch_sock e ev l (set_sock w sock')) as Hs.
    pose proof (dispatch_throws e ev l (set_sock w sock')) as Hth.
    destruct (dispatch e ev l (set_sock w sock')) as [l' w'|l' w'|l' w'|ex];
      cbn [how]; try discriminate.
    + apply IH. rewrite Hs. cbn [set_sock sock]. lia.
    + specialize (Hth ex eq_refl). congruence.
  - cbn [how]. congruence.
Qed.

Lemma main_total e text voice speaker connected :
  how (main e text voice speaker connected) <> Uncaught FuelExhausted.
Proof.
  unfold main. rewrite send_event_outbound. unfold finally_close. cbn [how].
  apply event_loop_total. cbn. lia.
Qed.


Local Open Scope Z_scope.

(** * The claims *)

(** ** Round trip of the framing *)




(** ** Failure of the sink *)

(** C2 (as amended): when the write of a chunk to the sink raises
    [BrokenPipeError], the receive loop ends at that event: the world is
    the one before the event but for the socket, which stands right
    after the chunk's frame, so no later event, an [audio-stop]
    included, is decoded or processed and the sink's input is not
    closed; [main] closes the connection all the same. *)
Theorem sink_failure_stops_receive_loop (e : env) (l : locals) (w : world)
    (fuel : nat) (data : json) (payload : bytes) (sock' : socket) (pid : nat) :
  recv_event (sock w) = Ok (audio_chunk data payload, sock') ->
  payload <> [] ->
  streaming e = true ->
  proc l = Some pid ->
  pipe_breaks e pid (writes_so_far w pid) = true ->
  how (event_loop (S fuel) e l w) = PipeBroke
  /\ final (event_loop (S fuel) e l w) = set_sock w sock'
  /\ forall text voice speaker connected,
       closed (sock (final (main e text voice speaker connected))) = true.
Proof.
  intros Hrecv Hp Hs Hproc Hbreak.
  assert (Hstep : exists l', dispatch e (audio_chunk data payload) l
                               (set_sock w sock')
                             = BreakPipe l' (set_sock w sock')).
  { change (dispatch e (audio_chunk data payload) l (set_sock w sock'))
      with (on_audio_chunk e payload l (set_sock w sock')).
    unfold on_audio_chunk. destruct payload as [|b p]; [contradiction|].
    rewrite Hs, Hproc.
    change (writes_so_far (set_sock w sock') pid) with (writes_so_far w pid).
    rewrite Hbreak. eexists. reflexivity. }
  destruct Hstep as (l' & Hstep).
  cbn [event_loop]. rewrite Hrecv, Hstep. cbn [how final].
  split; [reflexivity|]. split; [reflexivity|].
  intros. apply main_closes_socket.
Qed.

Lemma sink_failure_stops_receive_loop_witness :
  let w := mk_world (server (example_chunk_frame ++ example_stop_frame))
             [sox_child 16000] [] in
  let l := mk_locals (Some O) [] (mk_format (JInt 16000) (JInt 2) (JInt 1))
             0 0 in
  how (event_loop 9 broken_env l w) = PipeBroke
  /\ inbound (sock (final (event_loop 9 broken_env l w))) = example_stop_frame
  /\ procs (final (event_loop 9 broken_env l w)) = [sox_child 16000].
Proof.
  intros w l.
  destruct (sink_failure_stops_receive_loop broken_env l w 8 (JObj [])
              [x01; x0a; x03] (server example_stop_frame) O)
    as (Hhow & Hfinal & _).
  - vm_compute. reflexivity.
  - discriminate.
  - reflexivity.
  - reflexivity.
  - reflexivity.
  - split; [exact Hhow|]. rewrite Hfinal. split; reflexivity.
Defined.

(** C2 as stated fails.  The sink breaks on the chunk: the loop is left
    there and not at [audio-stop], whose frame stays unread on the
    socket; the sink's input is never closed; the connection is
    closed. *)
Lemma audio_stop_is_not_processed_after_sink_failure :
  let r := main broken_env (str "hi") None None
             (server (start_frame 16000 ++ example_chunk_frame
                      ++ example_stop_frame)) in
  how r <> AudioStop
  /\ how r = PipeBroke
  /\ inbound (sock (final r)) = example_stop_frame
  /\ map stdin_closed (procs (final r)) = [false]
  /\ closed (sock (final r)) = true.
Proof.
  vm_compute. repeat split. discriminate.
Qed.

(** ** A second [audio-start] *)

(** C3 (as amended): every [audio-start] event, the first as well as a
    later one, sets the recorded format to the values of that event
    (defaults for absent fields), whatever format was recorded before;
    with a streaming player it starts a new child with those values,
    which [proc] then designates, the children started earlier staying
    in place, neither written to nor closed. *)
Theorem audio_start_replaces_format_and_sink (e : env) (d : dict)
    (payload : bytes) (l l' : locals) (w w' : world) :
  dispatch e (audio_start d payload) l w = Continue l' w' ->
  fmt l' = declared_format d
  /\ (streaming e = true -> player e <> afplay ->
      exists child,
        procs w' = procs w ++ [child]
        /\ proc l' = Some (List.length (procs w))
        /\ arg_rate child = rate (declared_format d)
        /\ arg_width child = width (declared_format d)
        /\ arg_channels child = channels (declared_format d)
        /\ stdin_writes child = [] /\ stdin_closed child = false)
  /\ (streaming e = false -> procs w' = procs w /\ proc l' = proc l).
Proof.
  intros H. apply dispatch_audio_start in H.
  destruct H as (Hf & _ & _ & _ & Hoff & Hon).
  split; [exact Hf|]. split; [|exact Hoff].
  intros Hs Hp. destruct (Hon Hs Hp) as (child & H1 & H2 & _ & H3 & H4 & H5 & H6).
  exists child. repeat split; assumption || apply H6.
Qed.

Lemma audio_start_replaces_format_and_sink_witness :
  exists l' w',
    dispatch quiet_env
      (audio_start [(str "rate", JInt 8000); (str "width", JInt 2);
                    (str "channels", JInt 1)] [])
      (mk_locals (Some O) [] (mk_format (JInt 16000) (JInt 2) (JInt 1)) 0 0)
      (mk_world fresh_socket [sox_child 16000] [])
    = Continue l' w'
    /\ rate (fmt l') = JInt 8000
    /\ List.length (procs w') = 2%nat.
Proof.
  eexists _, _. split; [reflexivity|].
  destruct (audio_start_replaces_format_and_sink quiet_env
              [(str "rate", JInt 8000); (str "width", JInt 2);
               (str "channels", JInt 1)] []
              (mk_locals (Some O) []
                 (mk_format (JInt 16000) (JInt 2) (JInt 1)) 0 0)
              _ (mk_world fresh_socket [sox_child 16000] []) _ eq_refl)
    as (Hf & Hon & _).
  split.
  - rewrite Hf. reflexivity.
  - destruct (Hon eq_refl ltac:(discriminate)) as (child & Hp & _).
    rewrite Hp. reflexivity.
Defined.

(** C3 as stated fails.  Two [audio-start] events in one response: the
    second one changes the recorded rate from 16000 to 8000 and starts
    a second child, which receives the chunk and is the one closed at
    [audio-stop]. *)
Lemma second_audio_start_is_not_ignored :
  let r := main quiet_env (str "hi") None None
             (server (start_frame 16000 ++ start_frame 8000
                      ++ example_chunk_frame ++ example_stop_frame)) in
  how r = AudioStop
  /\ rate (fmt (vars r)) <> JInt 16000
  /\ rate (fmt (vars r)) = JInt 8000
  /\ map arg_rate (procs (final r)) = [JInt 16000; JInt 8000]
  /\ map stdin_writes (procs (final r)) = [[]; [[x01; x0a; x03]]]
  /\ map stdin_closed (procs (final r)) = [false; true].
Proof.
  vm_compute. repeat split. discriminate.
Qed.

(** ** Premature end of the stream *)



(** ** Exact lengths *)

(** C5: when the stream starts with a complete frame whose header
    declares [payload_length = N > 0], [recv_event] returns the frame's
    event with a payload of exactly [N] bytes, the last [N] bytes of the
    frame, and leaves the stream at the first byte after the frame; a
    second frame that follows immediately is decoded by the next call. *)
Theorem recv_event_length_prefix_exact
    (frame rest : bytes) (ev : event) (N : Z) (sock : socket) :
  complete_frame frame ev ->
  declares_payload_length frame N ->
  0 < N ->
  inbound sock = frame ++ rest ->
  exists sock',
    recv_event sock = Ok (ev, sock')
    /\ inbound sock' = rest
    /\ len (snd ev) = N
    /\ (exists before, frame = before ++ snd ev)
    /\ forall frame2 ev2 rest2,
         complete_frame frame2 ev2 -> rest = frame2 ++ rest2 ->
         exists sock'',
           recv_event sock' = Ok (ev2, sock'') /\ inbound sock'' = rest2.
Proof.
  intros Hc Hdecl Hpos Hin.
  destruct (complete_frame_anywhere _ _ _ _ Hc Hin) as (ch & Hrecv).
  exists (moved sock rest ch). split; [exact Hrecv|]. split; [reflexivity|].
  destruct ev as [[ty d] p]. cbn [snd].
  destruct (declared_payload _ _ _ _ _ (complete_frame_decode _ _ Hc) Hdecl Hpos)
    as [Hlen Hbefore].
  split; [exact Hlen|]. split; [exact Hbefore|].
  intros frame2 ev2 rest2 Hc2 Hrest.
  destruct (complete_frame_anywhere frame2 ev2 rest2 (moved sock rest ch) Hc2 Hrest)
    as (ch2 & Hrecv2).
  eexists. split; [exact Hrecv2 | reflexivity].
Qed.

Lemma recv_event_length_prefix_exact_witness :
  exists sock',
    recv_event (mk_socket (example_chunk_frame ++ example_stop_frame)
                  [0%nat; 2%nat] [] false)
    = Ok ((JStr (str "audio-chunk"), JObj [], [x01; x0a; x03]), sock')
    /\ inbound sock' = example_stop_frame.
Proof.
  destruct (recv_event_length_prefix_exact example_chunk_frame
              example_stop_frame
              (JStr (str "audio-chunk"), JObj [], [x01; x0a; x03]) 3
              (mk_socket (example_chunk_frame ++ example_stop_frame)
                 [0%nat; 2%nat] [] false))
    as (sock' & Hrecv & Hin & _).
  - vm_compute. reflexivity.
  - exists (map byte_of (dumps (JObj example_chunk_header))),
      [x01; x0a; x03], example_chunk_header.
    split; [reflexivity|]. split.
    + apply newline_not_printable, dumps_printable.
    + split; [apply parse_header_line|]; reflexivity.
  - lia.
  - reflexivity.
  - exists sock'. split; assumption.
Defined.

(** ** Fragmentation of the stream *)

(** C6: the events decoded from a byte stream, and the error that ends
    the decoding, are the same under any two fragmentations of the
    stream into reads; [S (length stream)] calls always reach the end
    of the stream. *)
Theorem recv_event_fragmentation_independent
    (stream : bytes) (ch1 ch2 : list nat) (out : bytes) (cl : bool) :
  let s1 := mk_socket stream ch1 out cl in
  let s2 := mk_socket stream ch2 out cl in
  match recv_event s1, recv_event s2 with
  | Ok (ev1, s1'), Ok (ev2, s2') => ev1 = ev2 /\ inbound s1' = inbound s2'
  | Raise e1, Raise e2 => e1 = e2
  | _, _ => False
  end
  /\ (forall n, recv_events n s1 = recv_events n s2)
  /\ snd (recv_events (S (List.length stream)) s1) <> FuelExhausted.
Proof.
  intros s1 s2. split; [|split].
  - pose proof (recv_event_decode s1) as H1.
    pose proof (recv_event_decode s2) as H2.
    change (inbound s1) with stream in H1. change (inbound s2) with stream in H2.
    destruct (decode_frame stream) as [[ev rest]|e].
    + destruct H1 as (c1 & ->). destruct H2 as (c2 & ->). split; reflexivity.
    + rewrite H1, H2. reflexivity.
  - intros n. rewrite !recv_events_decode. reflexivity.
  - apply recv_events_total. cbn. lia.
Qed.

(** ** Defaults of the format *)

(** C7: after an [audio-start] event the recorded format holds, for each
    of [rate], [width], [channels] absent from the event's data, the
    default 22050, 2, 1; with empty data the event is always accepted
    and the format is (22050, 2, 1). *)
Theorem audio_start_format_defaults (e : env) (d : dict) (payload : bytes)
    (l : locals) (w : world) :
  (forall l' w',
      dispatch e (audio_start d payload) l w = Continue l' w' ->
      (dict_get d (str "rate") = None -> rate (fmt l') = JInt 22050)
      /\ (dict_get d (str "width") = None -> width (fmt l') = JInt 2)
      /\ (dict_get d (str "channels") = None -> channels (fmt l') = JInt 1))
  /\ exists l' w',
      dispatch e (audio_start [] payload) l w = Continue l' w'
      /\ fmt l' = mk_format (JInt 22050) (JInt 2) (JInt 1).
Proof.
  split.
  - intros l' w' H. apply dispatch_audio_start in H. destruct H as (-> & _).
    unfold declared_format, get. cbn [rate width channels].
    repeat split; intros ->; reflexivity.
  - change (dispatch e (audio_start [] payload) l w)
      with (on_audio_start e (JObj []) l w).
    unfold on_audio_start. destruct (streaming e); [|eexists _, _; split; reflexivity].
    destruct (player e); eexists _, _; split; reflexivity.
Qed.

Lemma audio_start_format_defaults_witness :
  exists l' w',
    dispatch (mk_env sox true false (fun _ _ => false))
      (audio_start [(str "rate", JInt 16000)] [])
      initial_locals (mk_world fresh_socket [] []) = Continue l' w'
    /\ width (fmt l') = JInt 2 /\ channels (fmt l') = JInt 1.
Proof.
  eexists _, _. split; [reflexivity|].
  destruct (audio_start_format_defaults
              (mk_env sox true false (fun _ _ => false))
              [(str "rate", JInt 16000)] [] initial_locals
              (mk_world fresh_socket [] [])) as [H _].
  destruct (H _ _ eq_refl) as (_ & Hw & Hc).
  split; [apply Hw | apply Hc]; reflexivity.
Defined.

(** ** The request *)

(** C8: [main] writes to the connection exactly the bytes of one
    [synthesize] event, a single newline-terminated header line with no
    payload, whose data holds the text under ["text"] and
    holds a ["voice"] mapping exactly when a selector is supplied, that
    mapping holding ["name"] exactly when a voice is supplied and
    ["speaker"] exactly when a speaker is; a selector is supplied when
    it is a non-empty string (the tests [if voice], [if speaker]). *)
Theorem synthesize_request (e : env) (text : pystr)
    (voice speaker : option pystr) (connected : socket) :
  let data := synth_data text voice speaker in
  outbound (sock (final (main e text voice speaker connected)))
  = outbound connected ++ header_line (synthesize_header data)
  /\ send_event connected (str "synthesize") (Some (JObj data)) None
     = Ok (sendall connected (header_line (synthesize_header data)))
  /\ ~ In x0a (map byte_of (dumps (JObj (synthesize_header data))))
  /\ dict_get data (str "text") = Some (JStr text)
  /\ (if truthy_str voice || truthy_str speaker
      then exists v,
          dict_get data (str "voice") = Some (JObj v)
          /\ dict_get v (str "name")
             = (if truthy_str voice then Some (str_value voice) else None)
          /\ dict_get v (str "speaker")
             = (if truthy_str speaker then Some (str_value speaker) else None)
      else dict_get data (str "voice") = None)
  /\ synth_data (str "hello world") None None
     = [(str "text", JStr (str "hello world"))]
  /\ synth_data text (Some (str "en_US-amy")) (Some (str "0"))
     = [(str "text", JStr text);
        (str "voice", JObj [(str "name", JStr (str "en_US-amy"));
                            (str "speaker", JStr (str "0"))])].
Proof.
  intros data. split; [apply main_outbound|]. split.
  { rewrite send_event_outbound. cbn [bytes_or_empty].
    rewrite List.app_nil_r. unfold sendall, sent_header. subst data.
    destruct (synth_data_nonempty text voice speaker) as (kv & d & ->).
    reflexivity. }
  split; [apply newline_not_printable, dumps_printable|].
  subst data. unfold synth_data.
  destruct (truthy_str voice) eqn:Ev; destruct (truthy_str speaker) eqn:Es;
    cbn [orb]; (split; [reflexivity|]);
    (split; [try (eexists; repeat split; reflexivity); reflexivity|]);
    split; reflexivity.
Qed.

(** ** Lengths that are not positive *)

(** C9: when the header's [data_length] and [payload_length] are not
    positive (zero, negative or absent), neither accumulation loop runs
    and no read is made past the header line: [recv_event] returns the
    type, the header's data unchanged and the empty payload, the socket
    having served exactly the reads of the header line.  Each block by
    itself is skipped whenever its own length is not positive. *)
Theorem recv_event_nonpositive_lengths
    (sock : socket) (line body : bytes) (header : dict) (ty : json) (n m : Z) :
  inbound sock = line ++ x0a :: body ->
  ~ In x0a line ->
  parse_header line = Ok header ->
  subscript header (str "type") = Ok ty ->
  as_int (get header (str "data_length") (JInt 0)) = Ok n ->
  as_int (get header (str "payload_length") (JInt 0)) = Ok m ->
  (n <= 0 ->
   forall fuel s data, read_data_block fuel s data n = Ok (data, s))
  /\ (m <= 0 ->
      forall fuel s, read_payload_block fuel s m = Ok ([], s))
  /\ (n <= 0 -> m <= 0 ->
      recv_event sock
      = Ok ((ty, get header (str "data") (JObj []), []),
            moved sock body (skipn (S (List.length line)) (chunking sock)))).
Proof.
  intros Hin Hnl Hh Hty Hn Hm.
  assert (Hdata : n <= 0 ->
            forall fuel s data, read_data_block fuel s data n = Ok (data, s)).
  { intros Hle fuel s data. unfold read_data_block.
    replace (n >? 0) with false; [reflexivity|].
    symmetry. destruct (Z.gtb_spec n 0); [lia | reflexivity]. }
  assert (Hpay : m <= 0 ->
            forall fuel s, read_payload_block fuel s m = Ok ([], s)).
  { intros Hle fuel s. unfold read_payload_block.
    replace (m >? 0) with false; [reflexivity|].
    symmetry. destruct (Z.gtb_spec m 0); [lia | reflexivity]. }
  split; [exact Hdata|]. split; [exact Hpay|].
  intros Hn0 Hm0. unfold recv_event.
  rewrite read_header_spec by lia. rewrite Hin.
  rewrite split_line_found by exact Hnl. cbn [bind List.app].
  rewrite Hh. cbn [bind]. rewrite Hty. cbn [bind]. rewrite Hn. cbn [bind].
  rewrite Hdata by exact Hn0. cbn [bind]. rewrite Hm. cbn [bind].
  rewrite Hpay by exact Hm0. reflexivity.
Qed.

Lemma recv_event_nonpositive_lengths_witness :
  recv_event (mk_socket (header_line example_idle_header ++ [x41; x42])
                [] [] false)
  = Ok ((JStr (str "audio-stop"), JObj [(str "k", JInt 1)], []),
        mk_socket [x41; x42] [] [] false).
Proof.
  destruct (recv_event_nonpositive_lengths
              (mk_socket (header_line example_idle_header ++ [x41; x42])
                 [] [] false)
              (map byte_of (dumps (JObj example_idle_header))) [x41; x42]
              example_idle_header (JStr (str "audio-stop")) 0 (-4))
    as (_ & _ & H).
  - unfold header_line. rewrite <- List.app_assoc. reflexivity.
  - apply newline_not_printable, dumps_printable.
  - apply parse_header_line. reflexivity.
  - reflexivity.
  - reflexivity.
  - reflexivity.
  - rewrite H by lia. vm_compute. reflexivity.
Defined.

(** ** Chunks before [audio-start] *)



(** A chunk that arrives before [audio-start]: it stays in [pcm_buf],
    the child started afterwards receives nothing and no file is
    played. *)
Lemma early_chunk_run :
  let r := main quiet_env (str "hi") None None
             (server (example_chunk_frame ++ start_frame 16000
                      ++ example_stop_frame)) in
  how r = AudioStop
  /\ pcm_buf (vars r) = [x01; x0a; x03]
  /\ wav_played (final r) = []
  /\ map stdin_writes (procs (final r)) = [[]]
  /\ map stdin_closed (procs (final r)) = [true].
Proof.
  vm_compute. repeat split.
Qed.

(** ** The end-to-end scenario

    The request for "hello world" without voice or speaker, answered by
    [audio-start] at 16000 Hz, two chunks of 4000 bytes and
    [audio-stop], the transport delivering at most 1500 bytes a read:
    one [synthesize] line is sent, the sink receives the two chunks in
    two writes and its input is closed. *)
Lemma end_to_end_scenario :
  let stream := start_frame 16000 ++ chunk_frame (repeat x01 4000)
                ++ chunk_frame (repeat x02 4000) ++ example_stop_frame in
  let r := main quiet_env (str "hello world") None None
             (mk_socket stream (repeat 1499%nat 200) [] false) in
  how r = AudioStop
  /\ outbound (sock (final r))
     = header_line (synthesize_header [(str "text", JStr (str "hello world"))])
  /\ map stdin_writes (procs (final r)) = [[repeat x01 4000; repeat x02 4000]]
  /\ map stdin_closed (procs (final r)) = [true]
  /\ total_bytes (vars r) = 8000
  /\ inbound (sock (final r)) = []
  /\ closed (sock (final r)) = true.
Proof.
  vm_compute. repeat split.
Qed.

(** * Further properties of the program *)

Local Open Scope Z_scope.

Lemma len_nonneg (b : bytes) : 0 <= len b.
Proof. unfold len. lia. Qed.

(** ** What [send_event] puts on the wire *)



(** ** Events sent one after the other *)






(** ** Headers that are not as expected *)

Lemma decode_frame_line line body :
  ~ In x0a line ->
  decode_frame (line ++ x0a :: body)
  = (header <- parse_header line ;;
     event_type <- subscript header (str "type") ;;
     let data := get header (str "data") (JObj []) in
     data_length <- as_int (get header (str "data_length") (JInt 0)) ;;
     '(data, rest) <- decode_data_block body data data_length ;;
     payload_length <- as_int (get header (str "payload_length") (JInt 0)) ;;
     '(payload, rest) <- decode_payload_block rest payload_length ;;
     Ok ((event_type, data, payload), rest)).
Proof.
  intros Hnl. unfold decode_frame. rewrite split_line_found by exact Hnl.
  reflexivity.
Qed.

Lemma recv_event_raises sock e :
  decode_frame (inbound sock) = Raise e -> recv_event sock = Raise e.
Proof.
  intros H. pose proof (recv_event_decode sock) as Hd. rewrite H in Hd.
  exact Hd.
Qed.

(** X3: when the header line is a JSON object without the key
    ["type"], [recv_event] raises [KeyError], whatever else the header
    holds and whatever follows the line. *)
Theorem recv_event_header_without_type (sock : socket) (line body : bytes)
    (header : dict) :
  inbound sock = line ++ x0a :: body ->
  ~ In x0a line ->
  parse_header line = Ok header ->
  dict_get header (str "type") = None ->
  recv_event sock = Raise KeyError.
Proof.
  intros Hin Hnl Hh Hty. apply recv_event_raises.
  rewrite Hin, decode_frame_line by exact Hnl. rewrite Hh. cbn [bind].
  unfold subscript. rewrite Hty. reflexivity.
Qed.

Lemma recv_event_header_without_type_witness :
  recv_event
    (server (header_line [(str "payload_length", JInt 3)] ++ [x01; x02; x03]))
  = Raise KeyError.
Proof.
  apply (recv_event_header_without_type _
           (map byte_of (dumps (JObj [(str "payload_length", JInt 3)])))
           [x01; x02; x03] [(str "payload_length", JInt 3)]).
  - cbn [server inbound]. unfold header_line. rewrite <- List.app_assoc.
    reflexivity.
  - apply newline_not_printable, dumps_printable.
  - apply parse_header_line. reflexivity.
  - reflexivity.
Defined.

(** X4: when the header line is JSON text for a value that is
    not an object (a list, a string, a number, true, false, null),
    [recv_event] raises [TypeError]; when the line is not valid UTF-8
    it raises [ValueError]. *)
Theorem recv_event_header_not_an_object (sock : socket) (line body : bytes) :
  inbound sock = line ++ x0a :: body ->
  ~ In x0a line ->
  (forall text v,
      utf8_decode line = Ok text -> loads text = Ok v ->
      (forall h, v <> JObj h) ->
      recv_event sock = Raise TypeError)
  /\ (forall e, utf8_decode line = Raise e -> recv_event sock = Raise ValueError).
Proof.
  intros Hin Hnl. split.
  - intros text v Hu Hl Hv. apply recv_event_raises.
    rewrite Hin, decode_frame_line by exact Hnl. unfold parse_header.
    rewrite Hu. cbn [bind]. rewrite Hl. cbn [bind].
    destruct v; try reflexivity. exfalso. eapply Hv. reflexivity.
  - intros e Hu. apply recv_event_raises.
    rewrite Hin, decode_frame_line by exact Hnl. unfold parse_header.
    rewrite Hu. cbn [bind]. apply utf8_decode_raises in Hu. subst e.
    reflexivity.
Qed.

Lemma recv_event_header_not_an_object_witness :
  recv_event (server (map byte_of (str "[1,2]") ++ [x0a])) = Raise TypeError
  /\ recv_event (server [xff; x0a]) = Raise ValueError.
Proof.
  split.
  - destruct (recv_event_header_not_an_object
                (server (map byte_of (str "[1,2]") ++ [x0a]))
                (map byte_of (str "[1,2]")) []) as (H & _).
    + reflexivity.
    + vm_compute. intuition discriminate.
    + apply (H (str "[1,2]") (JArr [JInt 1; JInt 2])).
      * reflexivity.
      * vm_compute. reflexivity.
      * discriminate.
  - destruct (recv_event_header_not_an_object (server [xff; x0a]) [xff] [])
      as (_ & H).
    + reflexivity.
    + vm_compute. intuition discriminate.
    + apply (H ValueError). reflexivity.
Defined.

Lemma as_int_not_a_number v : not_a_number v -> as_int v = Raise TypeError.
Proof.
  intros [-> | [(s & ->) | [(items & ->) | (members & ->)]]]; reflexivity.
Qed.

(** X5: a length that is not a number makes [recv_event]
    raise [TypeError] at the comparison with 0: a [data_length] that is
    null, a string, a list or an object, before any block is read; a
    [payload_length] of that kind, when no data block is announced,
    likewise. *)
Theorem recv_event_length_not_a_number (sock : socket) (line body : bytes)
    (header : dict) (ty : json) :
  inbound sock = line ++ x0a :: body ->
  ~ In x0a line ->
  parse_header line = Ok header ->
  dict_get header (str "type") = Some ty ->
  (forall v,
      dict_get header (str "data_length") = Some v -> not_a_number v ->
      recv_event sock = Raise TypeError)
  /\ (forall n v,
        as_int (get header (str "data_length") (JInt 0)) = Ok n -> n <= 0 ->
        dict_get header (str "payload_length") = Some v -> not_a_number v ->
        recv_event sock = Raise TypeError).
Proof.
  intros Hin Hnl Hh Hty. split.
  - intros v Hv Hnan. apply recv_event_raises.
    rewrite Hin, decode_frame_line by exact Hnl. rewrite Hh. cbn [bind].
    unfold subscript. rewrite Hty. cbn [bind].
    unfold get. rewrite Hv. rewrite as_int_not_a_number by exact Hnan.
    reflexivity.
  - intros n v Hn Hle Hv Hnan. apply recv_event_raises.
    rewrite Hin, decode_frame_line by exact Hnl. rewrite Hh. cbn [bind].
    unfold subscript. rewrite Hty. cbn [bind]. rewrite Hn. cbn [bind].
    unfold decode_data_block.
    replace (n >? 0) with false by (rewrite Z.gtb_ltb; symmetry; apply Z.ltb_ge; lia).
    cbn [bind]. unfold get. rewrite Hv.
    rewrite as_int_not_a_number by exact Hnan. reflexivity.
Qed.

Lemma recv_event_length_not_a_number_witness :
  recv_event
    (server (header_line [(str "type", JStr (str "audio-chunk"));
                          (str "data_length", JStr (str "3"))]
             ++ [x7b; x7d; x20]))
  = Raise TypeError
  /\ recv_event
       (server (header_line [(str "type", JStr (str "audio-chunk"));
                             (str "payload_length", JNull)]
                ++ [x01; x02; x03]))
     = Raise TypeError.
Proof.
  split.
  - destruct (recv_event_length_not_a_number
                (server (header_line [(str "type", JStr (str "audio-chunk"));
                                      (str "data_length", JStr (str "3"))]
                         ++ [x7b; x7d; x20]))
                (map byte_of
                   (dumps (JObj [(str "type", JStr (str "audio-chunk"));
                                 (str "data_length", JStr (str "3"))])))
                [x7b; x7d; x20]
                [(str "type", JStr (str "audio-chunk"));
                 (str "data_length", JStr (str "3"))]
                (JStr (str "audio-chunk"))) as (H & _).
    + cbn [server inbound]. unfold header_line. rewrite <- List.app_assoc.
      reflexivity.
    + apply newline_not_printable, dumps_printable.
    + apply parse_header_line. reflexivity.
    + reflexivity.
    + apply (H (JStr (str "3"))); [reflexivity|].
      right. left. eexists. reflexivity.
  - destruct (recv_event_length_not_a_number
                (server (header_line [(str "type", JStr (str "audio-chunk"));
                                      (str "payload_length", JNull)]
                         ++ [x01; x02; x03]))
                (map byte_of
                   (dumps (JObj [(str "type", JStr (str "audio-chunk"));
                                 (str "payload_length", JNull)])))
                [x01; x02; x03]
                [(str "type", JStr (str "audio-chunk"));
                 (str "payload_length", JNull)]
                (JStr (str "audio-chunk"))) as (_ & H).
    + cbn [server inbound]. unfold header_line. rewrite <- List.app_assoc.
      reflexivity.
    + apply newline_not_printable, dumps_printable.
    + apply parse_header_line. reflexivity.
    + reflexivity.
    + apply (H 0 JNull); [reflexivity | lia | reflexivity |].
      left. reflexivity.
Defined.

(** ** The data block *)

Lemma dict_get_set d k v k' :
  dict_get (dict_set d k v) k'
  = if pystr_eqb k k' then Some v else dict_get d k'.
Proof.
  induction d as [|[k1 v1] d IH]; cbn [dict_set dict_get].
  - reflexivity.
  - destruct (pystr_eqb k1 k) eqn:E1.
    + apply pystr_eqb_eq in E1. subst k1. cbn [dict_get].
      destruct (pystr_eqb k k'); reflexivity.
    + cbn [dict_get]. destruct (pystr_eqb k1 k') eqn:E2.
      * apply pystr_eqb_eq in E2. subst k'.
        rewrite pystr_eqb_sym, E1. reflexivity.
      * exact IH.
Qed.

Lemma dict_get_absent d k :
  existsb (pystr_eqb k) (map fst d) = false -> dict_get d k = None.
Proof.
  induction d as [|[k1 v1] d IH]; cbn; [reflexivity|].
  intros H. apply orb_false_iff in H. destruct H as [H1 H2].
  rewrite pystr_eqb_sym, H1. apply IH. exact H2.
Qed.

Lemma dict_get_update e : forall d k,
  distinct_keys (map fst e) = true ->
  dict_get (dict_update d e) k
  = match dict_get e k with
    | Some v => Some v
    | None => dict_get d k
    end.
Proof.
  unfold dict_update.
  induction e as [|[k1 v1] e IH]; intros d k Hd; [reflexivity|].
  cbn [fold_left fst snd map distinct_keys dict_get] in *.
  apply andb_true_iff in Hd. destruct Hd as [Hk1 Hd].
  apply negb_true_iff in Hk1.
  rewrite IH by exact Hd. rewrite dict_get_set.
  destruct (pystr_eqb k1 k) eqn:E.
  - apply pystr_eqb_eq in E. subst k.
    rewrite dict_get_absent by exact Hk1. reflexivity.
  - reflexivity.
Qed.

Lemma keys_dict_set d k v k' :
  existsb (pystr_eqb k') (map fst (dict_set d k v))
  = existsb (pystr_eqb k') (map fst d) || pystr_eqb k' k.
Proof.
  induction d as [|[k1 v1] d IH]; cbn [dict_set map fst existsb].
  - rewrite orb_false_r. reflexivity.
  - destruct (pystr_eqb k1 k) eqn:E.
    + apply pystr_eqb_eq in E. subst k1. cbn [map fst existsb].
      destruct (pystr_eqb k' k); cbn; [reflexivity|].
      rewrite orb_false_r. reflexivity.
    + cbn [map fst existsb]. rewrite IH. rewrite orb_assoc. reflexivity.
Qed.

Lemma distinct_dict_set d k v :
  distinct_keys (map fst d) = true ->
  distinct_keys (map fst (dict_set d k v)) = true.
Proof.
  induction d as [|[k1 v1] d IH]; intros H; [reflexivity|].
  cbn [dict_set]. cbn [map fst distinct_keys] in H.
  apply andb_true_iff in H. destruct H as [H1 H2].
  destruct (pystr_eqb k1 k) eqn:E.
  - cbn [map fst distinct_keys]. rewrite H1, H2. reflexivity.
  - cbn [map fst distinct_keys]. rewrite keys_dict_set, E, orb_false_r, H1.
    rewrite IH by exact H2. reflexivity.
Qed.

Lemma distinct_dict_of_pairs pairs :
  distinct_keys (map fst (dict_of_pairs pairs)) = true.
Proof.
  unfold dict_of_pairs.
  assert (H : forall acc, distinct_keys (map fst acc) = true ->
            distinct_keys
              (map fst (fold_left (fun d kv => dict_set d (fst kv) (snd kv))
                          pairs acc)) = true).
  { induction pairs as [|kv pairs IH]; intros acc Hacc; [exact Hacc|].
    cbn [fold_left]. apply IH, distinct_dict_set, Hacc. }
  apply H. reflexivity.
Qed.

Lemma match_number_not_object s r members rest :
  match_number s = Some r -> r <> Ok (JObj members, rest).
Proof.
  unfold match_number.
  destruct (match s with
            | [] => (false, s)
            | c :: r0 => if (c =? MINUS)%N then (true, r0) else (false, s)
            end) as [neg s1].
  destruct s1 as [|c r0]; [discriminate|].
  destruct (is_digit c); [|discriminate].
  destruct (if (c =? 48)%N then ([c], r0) else span_digits (c :: r0))
    as [ds rest'].
  destruct (float_tail rest'); intros H; injection H as <-; discriminate.
Qed.

(** The keys of an object read by [loads] are pairwise distinct. *)
Lemma loads_object_distinct text members :
  loads text = Ok (JObj members) -> distinct_keys (map fst members) = true.
Proof.
  unfold loads. destruct (starts_with_bom text); [discriminate|].
  cbn [scan_once].
  destruct (skip_ws text) as [|c r]; [discriminate|].
  destruct (c =? QUOTE)%N.
  { destruct (scanstring r) as [[v rest]|]; cbn [bind]; [|discriminate].
    destruct (skip_ws rest); discriminate. }
  destruct (c =? LBRACE)%N.
  { destruct (skip_ws r) as [|c1 r1]; [discriminate|].
    destruct (c1 =? QUOTE)%N.
    - destruct (scan_members _ r1) as [[pairs rest]|]; cbn [bind];
        [|discriminate].
      destruct (skip_ws rest); [|discriminate].
      intros H. injection H as <-. apply distinct_dict_of_pairs.
    - destruct (c1 =? RBRACE)%N; cbn [bind]; [|discriminate].
      destruct (skip_ws r1); [|discriminate].
      intros H. injection H as <-. reflexivity. }
  destruct (c =? LBRACKET)%N.
  { destruct (skip_ws r) as [|c1 r1]; [discriminate|].
    destruct (c1 =? RBRACKET)%N; cbn [bind].
    - destruct (skip_ws r1); discriminate.
    - destruct (scan_items _ (c1 :: r1)) as [[items rest]|]; cbn [bind];
        [|discriminate].
      destruct (skip_ws rest); discriminate. }
  destruct (strip_prefix (str "null") (c :: r)) as [rest|].
  { cbn [bind]. destruct (skip_ws rest); discriminate. }
  destruct (strip_prefix (str "true") (c :: r)) as [rest|].
  { cbn [bind]. destruct (skip_ws rest); discriminate. }
  destruct (strip_prefix (str "false") (c :: r)) as [rest|].
  { cbn [bind]. destruct (skip_ws rest); discriminate. }
  destruct (match_number (c :: r)) as [res|] eqn:Em.
  { destruct res as [[v rest]|]; cbn [bind]; [|discriminate].
    destruct (skip_ws rest); [|discriminate].
    intros H. injection H as ->.
    exfalso. exact (match_number_not_object _ _ _ _ Em eq_refl). }
  destruct (strip_prefix (str "NaN") (c :: r));
    destruct (strip_prefix (str "Infinity") (c :: r));
    destruct (strip_prefix (str "-Infinity") (c :: r)); discriminate.
Qed.

(** X6: when the header announces a data block that holds a JSON
    object, the data [recv_event] returns are the header's data updated
    with the block: a key of the block has the block's value, any other
    key the value the header's data gave it; the block is consumed
    whole and nothing after it is read (no payload being announced). *)
Theorem data_block_overrides_header_data (sock : socket)
    (line block rest : bytes) (header d extra : dict) (ty : json)
    (text : pystr) (n m : Z) :
  inbound sock = line ++ x0a :: block ++ rest ->
  ~ In x0a line ->
  parse_header line = Ok header ->
  dict_get header (str "type") = Some ty ->
  get header (str "data") (JObj []) = JObj d ->
  as_int (get header (str "data_length") (JInt 0)) = Ok n ->
  0 < n ->
  len block = n ->
  utf8_decode block = Ok text ->
  loads text = Ok (JObj extra) ->
  as_int (get header (str "payload_length") (JInt 0)) = Ok m ->
  m <= 0 ->
  exists d' sock',
    recv_event sock = Ok ((ty, JObj d', []), sock')
    /\ inbound sock' = rest
    /\ forall k,
         dict_get d' k
         = match dict_get extra k with
           | Some v => Some v
           | None => dict_get d k
           end.
Proof.
  intros Hin Hnl Hh Hty Hd Hn Hpos Hlen Hu Hl Hm Hle.
  pose proof (recv_event_decode sock) as Hdec.
  rewrite Hin, decode_frame_line in Hdec by exact Hnl.
  rewrite Hh in Hdec. cbn [bind] in Hdec.
  unfold subscript in Hdec. rewrite Hty in Hdec. cbn [bind] in Hdec.
  rewrite Hn in Hdec. cbn [bind] in Hdec.
  unfold decode_data_block in Hdec.
  replace (n >? 0) with true in Hdec by (symmetry; apply Z.gtb_lt; lia).
  rewrite <- Hlen in Hdec.
  rewrite (take_exact_prefix (len block) block block [] rest
             (take_exact_all block) (len_nonneg block)) in Hdec.
  rewrite Hd in Hdec. cbn [bind] in Hdec.
  rewrite Hu in Hdec. cbn [bind] in Hdec.
  rewrite Hl in Hdec. cbn [bind update] in Hdec.
  rewrite Hm in Hdec. cbn [bind] in Hdec.
  unfold decode_payload_block in Hdec.
  replace (m >? 0) with false in Hdec
    by (rewrite Z.gtb_ltb; symmetry; apply Z.ltb_ge; lia).
  cbn [bind] in Hdec. destruct Hdec as (ch & Hrecv).
  exists (dict_update d extra), (moved sock rest ch).
  split; [exact Hrecv|]. split; [reflexivity|].
  intros k. apply dict_get_update. eapply loads_object_distinct. exact Hl.
Qed.

Lemma data_block_overrides_header_data_witness :
  exists d' sock',
    recv_event
      (server (header_line
                 [(str "type", JStr (str "audio-start"));
                  (str "data", JObj [(str "rate", JInt 22050);
                                     (str "width", JInt 2)]);
                  (str "data_length", JInt 14)]
               ++ map byte_of (dumps (JObj [(str "rate", JInt 16000)]))
               ++ [x7b]))
    = Ok ((JStr (str "audio-start"), JObj d', []), sock')
    /\ inbound sock' = [x7b]
    /\ dict_get d' (str "rate") = Some (JInt 16000)
    /\ dict_get d' (str "width") = Some (JInt 2).
Proof.
  destruct (data_block_overrides_header_data
              (server (header_line
                         [(str "type", JStr (str "audio-start"));
                          (str "data", JObj [(str "rate", JInt 22050);
                                             (str "width", JInt 2)]);
                          (str "data_length", JInt 14)]
                       ++ map byte_of (dumps (JObj [(str "rate", JInt 16000)]))
                       ++ [x7b]))
              (map byte_of
                 (dumps (JObj [(str "type", JStr (str "audio-start"));
                               (str "data", JObj [(str "rate", JInt 22050);
                                                  (str "width", JInt 2)]);
                               (str "data_length", JInt 14)])))
              (map byte_of (dumps (JObj [(str "rate", JInt 16000)])))
              [x7b]
              [(str "type", JStr (str "audio-start"));
               (str "data", JObj [(str "rate", JInt 22050);
                                  (str "width", JInt 2)]);
               (str "data_length", JInt 14)]
              [(str "rate", JInt 22050); (str "width", JInt 2)]
              [(str "rate", JInt 16000)]
              (JStr (str "audio-start"))
              (dumps (JObj [(str "rate", JInt 16000)])) 14 0)
    as (d' & sock' & Hrecv & Hin & Hget).
  - cbn [server inbound]. unfold header_line. rewrite <- List.app_assoc.
    reflexivity.
  - apply newline_not_printable, dumps_printable.
  - apply parse_header_line. reflexivity.
  - reflexivity.
  - reflexivity.
  - reflexivity.
  - lia.
  - reflexivity.
  - apply utf8_decode_printable, dumps_printable.
  - apply loads_dumps. reflexivity.
  - reflexivity.
  - lia.
  - exists d', sock'. split; [exact Hrecv|]. split; [exact Hin|].
    split; rewrite Hget; reflexivity.
Defined.

(** ** The receive loop, one frame at a time *)

Lemma event_loop_fuel f1 f2 e l w :
  (List.length (inbound (sock w)) < f1)%nat ->
  (List.length (inbound (sock w)) < f2)%nat ->
  event_loop f1 e l w = event_loop f2 e l w.
Proof.
  revert f2 l w. induction f1 as [|f1 IH]; intros f2 l w H1 H2; [lia|].
  destruct f2 as [|f2]; [lia|]. cbn [event_loop].
  destruct (recv_event (sock w)) as [[ev sock']|ex] eqn:E; [|reflexivity].
  apply recv_event_consumes in E.
  pose proof (dispatch_sock e ev l (set_sock w sock')) as Hs.
  destruct (dispatch e ev l (set_sock w sock')) as [l' w'|l' w'|l' w'|ex];
    try reflexivity.
  cbn [set_sock sock] in Hs. apply IH; rewrite Hs; lia.
Qed.

Lemma event_loop_frame frame ev rest fuel e l w :
  complete_frame frame ev ->
  inbound (sock w) = frame ++ rest ->
  exists ch,
    event_loop (S fuel) e l w
    = match dispatch e ev l (set_sock w (moved (sock w) rest ch)) with
      | Continue l' w' => event_loop fuel e l' w'
      | BreakStop l' w' => mk_run AudioStop l' w'
      | BreakPipe l' w' => mk_run PipeBroke l' w'
      | Throw ex =>
          mk_run (Uncaught ex) l (set_sock w (moved (sock w) rest ch))
      end.
Proof.
  intros Hc Hin.
  destruct (complete_frame_anywhere _ _ _ _ Hc Hin) as (ch & Hr).
  exists ch. cbn [event_loop]. rewrite Hr. reflexivity.
Qed.

Lemma complete_frame_length frame ev :
  complete_frame frame ev -> (0 < List.length frame)%nat.
Proof.
  unfold complete_frame. intros H. apply recv_event_consumes in H.
  cbn [inbound List.length] in H. lia.
Qed.

Lemma recv_event_end sock :
  inbound sock = [] ->
  recv_event sock = Raise (ConnectionError "Connection closed by server").
Proof.
  intros H. pose proof (recv_event_decode sock) as Hd. rewrite H in Hd.
  exact Hd.
Qed.

Lemma update_nth_ext {A} (l : list A) n f g :
  (forall x, f x = g x) -> update_nth l n f = update_nth l n g.
Proof.
  intros H. revert n. induction l as [|x l IH]; intros [|n]; cbn;
    try reflexivity; [rewrite H | rewrite IH]; reflexivity.
Qed.

Lemma update_nth_twice {A} (l : list A) n f g :
  update_nth (update_nth l n f) n g = update_nth l n (fun x => g (f x)).
Proof.
  revert n. induction l as [|x l IH]; intros [|n]; cbn; try reflexivity.
  rewrite IH. reflexivity.
Qed.

Lemma update_nth_id {A} (l : list A) n : update_nth l n (fun x => x) = l.
Proof.
  revert n. induction l as [|x l IH]; intros [|n]; cbn; try reflexivity.
  rewrite IH. reflexivity.
Qed.

Lemma child_after_nothing child :
  child_after child [] false = child.
Proof.
  destruct child. unfold child_after. cbn.
  rewrite List.app_nil_r, !orb_false_r. reflexivity.
Qed.

Lemma child_after_write child writes payload :
  write_stdin payload (child_after child writes false)
  = child_after child (writes ++ [payload]) false.
Proof.
  unfold write_stdin, child_after. cbn. rewrite <- List.app_assoc.
  reflexivity.
Qed.

Lemma audible_cons data payload chunks :
  audible ((data, payload) :: chunks)
  = (if non_empty payload then [payload] else []) ++ audible chunks.
Proof.
  unfold audible. cbn [map snd filter]. destruct (non_empty payload);
    reflexivity.
Qed.

Lemma audio_cons data payload chunks :
  audio ((data, payload) :: chunks) = payload ++ audio chunks.
Proof. reflexivity. Qed.

Lemma encodes_length stream evs :
  encodes stream evs -> (List.length evs <= List.length stream)%nat.
Proof.
  induction 1 as [|frame stream ev evs Hc _ IH]; [cbn; lia|].
  apply complete_frame_length in Hc. rewrite length_app. cbn [List.length].
  lia.
Qed.

(** The chunks that reach a running child: each payload that is not
    empty is one write; the counters follow. *)
Lemma chunks_to_child e chunks : forall stream rest fuel l w pid writes child,
  encodes stream (chunk_events chunks) ->
  inbound (sock w) = stream ++ rest ->
  (List.length (inbound (sock w)) < fuel)%nat ->
  streaming e = true ->
  (forall p k, pipe_breaks e p k = false) ->
  proc l = Some pid ->
  nth_error (procs w) pid = Some (child_after child writes false) ->
  exists ch w',
    event_loop fuel e l w
    = event_loop fuel e
        (mk_locals (proc l) (pcm_buf l) (fmt l)
           (total_bytes l + len (audio chunks))
           (chunk_count l + Z.of_nat (List.length (audible chunks))))
        w'
    /\ sock w' = moved (sock w) rest ch
    /\ wav_played w' = wav_played w
    /\ List.length (procs w') = List.length (procs w)
    /\ (forall k, k <> pid -> nth_error (procs w') k = nth_error (procs w) k)
    /\ nth_error (procs w') pid
       = Some (child_after child (writes ++ audible chunks) false).
Proof.
  induction chunks as [|[data payload] chunks IH];
    intros stream rest fuel l w pid writes child Henc Hin Hfuel Hs Hnb Hp Hc.
  - inversion Henc; subst. cbn [List.app] in Hin.
    exists (chunking (sock w)), w. unfold audio, audible. cbn.
    rewrite !Z.add_0_r, List.app_nil_r.
    repeat split; try assumption.
    + destruct l; reflexivity.
    + unfold moved. rewrite <- Hin. destruct (sock w); reflexivity.
  - cbn [chunk_events map fst snd] in Henc.
    inversion Henc as [|frame stream' ev evs Hfr Henc' Ea Eb]; subst.
    rewrite <- List.app_assoc in Hin.
    destruct fuel as [|fuel]; [lia|].
    destruct (event_loop_frame _ _ _ fuel e l w Hfr Hin) as (ch1 & Hstep).
    pose proof (complete_frame_length _ _ Hfr) as Hlen.
    rewrite Hin, !length_app in Hfuel.
    change (dispatch e (audio_chunk data payload) l
              (set_sock w (moved (sock w) (stream' ++ rest) ch1)))
      with (on_audio_chunk e payload l
              (set_sock w (moved (sock w) (stream' ++ rest) ch1))) in Hstep.
    unfold on_audio_chunk in Hstep. rewrite Hs, Hp in Hstep.
    destruct payload as [|b payload].
    + (* no payload: the event is skipped *)
      destruct (IH stream' rest fuel l
                  (set_sock w (moved (sock w) (stream' ++ rest) ch1))
                  pid writes child Henc' eq_refl
                  ltac:(cbn; rewrite length_app; lia) Hs Hnb Hp Hc)
        as (ch & w' & Hrun & Hsock & Hwav & Hlenp & Hother & Hpid).
      exists ch, w'. rewrite audible_cons, audio_cons. cbn [non_empty List.app].
      repeat split; try assumption.
      rewrite Hstep, Hrun.
      apply event_loop_fuel; rewrite Hsock; cbn; lia.
    + rewrite Hnb in Hstep.
      set (w1 := on_proc (set_sock w (moved (sock w) (stream' ++ rest) ch1)) pid
                   (write_stdin (b :: payload))) in *.
      set (l1 := mk_locals (Some pid) (pcm_buf l) (fmt l)
                   (total_bytes l + len (b :: payload)) (chunk_count l + 1)) in *.
      assert (Hc1 : nth_error (procs w1) pid
                    = Some (child_after child (writes ++ [b :: payload]) false)).
      { unfold w1, on_proc. cbn [procs set_sock].
        clear - Hc. revert pid Hc.
        induction (procs w) as [|p ps IHp]; intros [|pid] Hc; try discriminate.
        - cbn in *. injection Hc as ->. rewrite child_after_write. reflexivity.
        - cbn in *. apply IHp. exact Hc. }
      destruct (IH stream' rest fuel l1 w1 pid (writes ++ [b :: payload]) child
                  Henc' eq_refl ltac:(cbn; rewrite length_app; lia)
                  Hs Hnb eq_refl Hc1)
        as (ch & w' & Hrun & Hsock & Hwav & Hlenp & Hother & Hpid).
      exists ch, w'. rewrite audible_cons, audio_cons. cbn [non_empty].
      rewrite Hstep, Hrun.
      split.
      { rewrite (event_loop_fuel fuel (S fuel)) by (rewrite Hsock; cbn; lia).
        f_equal. unfold l1. cbn [proc pcm_buf fmt total_bytes chunk_count].
        rewrite Hp. f_equal.
        - rewrite len_app. lia.
        - cbn [List.app List.length]. lia. }
      split; [exact Hsock|]. split; [exact Hwav|].
      split.
      { rewrite Hlenp. unfold w1, on_proc. cbn [procs set_sock].
        apply update_nth_length. }
      split.
      { intros k Hk. rewrite (Hother k Hk). unfold w1, on_proc.
        cbn [procs set_sock]. clear - Hk. revert pid k Hk.
        induction (procs w) as [|p ps IHp]; intros [|pid] [|k] Hk;
          cbn; try reflexivity; try congruence.
        apply IHp. congruence. }
      rewrite Hpid, <- List.app_assoc. reflexivity.
Qed.

Lemma event_loop_next frame ev rest fuel e l w :
  complete_frame frame ev ->
  inbound (sock w) = frame ++ rest ->
  (List.length (inbound (sock w)) < fuel)%nat ->
  exists ch,
    event_loop fuel e l w
    = match dispatch e ev l (set_sock w (moved (sock w) rest ch)) with
      | Continue l' w' => event_loop fuel e l' w'
      | BreakStop l' w' => mk_run AudioStop l' w'
      | BreakPipe l' w' => mk_run PipeBroke l' w'
      | Throw ex =>
          mk_run (Uncaught ex) l (set_sock w (moved (sock w) rest ch))
      end.
Proof.
  intros Hc Hin Hfuel. destruct fuel as [|fuel]; [lia|].
  destruct (event_loop_frame _ _ _ fuel e l w Hc Hin) as (ch & Hstep).
  exists ch. rewrite Hstep.
  pose proof (dispatch_sock e ev l (set_sock w (moved (sock w) rest ch))) as Hs.
  destruct (dispatch e ev l _) as [l' w'|l' w'|l' w'|ex]; try reflexivity.
  cbn [set_sock sock moved] in Hs.
  apply complete_frame_length in Hc. rewrite Hin, length_app in Hfuel.
  apply event_loop_fuel; rewrite Hs; unfold moved; cbn [inbound]; lia.
Qed.

Lemma event_loop_closed fuel e l w :
  inbound (sock w) = [] -> (0 < fuel)%nat ->
  event_loop fuel e l w
  = mk_run (Uncaught (ConnectionError "Connection closed by server")) l w.
Proof.
  intros Hin Hf. destruct fuel as [|fuel]; [lia|]. cbn [event_loop].
  rewrite recv_event_end by exact Hin. reflexivity.
Qed.

Lemma encodes_app_inv evs1 : forall stream evs2,
  encodes stream (evs1 ++ evs2) ->
  exists s1 s2, stream = s1 ++ s2 /\ encodes s1 evs1 /\ encodes s2 evs2.
Proof.
  induction evs1 as [|ev evs1 IH]; intros stream evs2 H.
  - exists [], stream. repeat split; [constructor | exact H].
  - cbn [List.app] in H.
    inversion H as [|frame stream' ev' evs Hfr Henc Ea Eb]; subst.
    destruct (IH _ _ Henc) as (s1 & s2 & -> & H1 & H2).
    exists (frame ++ s1), s2. rewrite List.app_assoc.
    repeat split; [constructor; assumption | exact H2].
Qed.

Lemma encodes_one stream ev :
  encodes stream [ev] -> complete_frame stream ev.
Proof.
  intros H. inversion H as [|frame stream' ev' evs Hfr Henc Ea Eb]; subst.
  inversion Henc; subst. rewrite List.app_nil_r. exact Hfr.
Qed.

(** The chunks processed while no child is in use: every payload is
    appended to [pcm_buf]. *)
Lemma chunks_to_buffer e chunks : forall stream rest fuel l w,
  encodes stream (chunk_events chunks) ->
  inbound (sock w) = stream ++ rest ->
  (List.length (inbound (sock w)) < fuel)%nat ->
  (if streaming e then proc l else None) = None ->
  exists ch,
    event_loop fuel e l w
    = event_loop fuel e
        (mk_locals (proc l) (pcm_buf l ++ audio chunks) (fmt l)
           (total_bytes l + len (audio chunks))
           (chunk_count l + Z.of_nat (List.length (audible chunks))))
        (set_sock w (moved (sock w) rest ch)).
Proof.
  induction chunks as [|[data payload] chunks IH];
    intros stream rest fuel l w Henc Hin Hfuel Hnone.
  - inversion Henc; subst. cbn [List.app] in Hin.
    exists (chunking (sock w)). unfold audio, audible. cbn.
    rewrite !Z.add_0_r, List.app_nil_r. f_equal.
    + destruct l; reflexivity.
    + unfold set_sock, moved. rewrite <- Hin.
      destruct w as [[? ? ? ?] ? ?]; reflexivity.
  - cbn [chunk_events map fst snd] in Henc.
    inversion Henc as [|frame stream' ev evs Hfr Henc' Ea Eb]; subst.
    rewrite <- List.app_assoc in Hin.
    destruct (event_loop_next _ _ _ fuel e l w Hfr Hin Hfuel) as (ch1 & Hstep).
    pose proof (complete_frame_length _ _ Hfr) as Hlen.
    rewrite Hin, !length_app in Hfuel.
    change (dispatch e (audio_chunk data payload) l
              (set_sock w (moved (sock w) (stream' ++ rest) ch1)))
      with (on_audio_chunk e payload l
              (set_sock w (moved (sock w) (stream' ++ rest) ch1))) in Hstep.
    unfold on_audio_chunk in Hstep. rewrite Hnone in Hstep.
    rewrite audible_cons, audio_cons.
    destruct payload as [|b payload].
    + destruct (IH stream' rest fuel l
                  (set_sock w (moved (sock w) (stream' ++ rest) ch1))
                  Henc' eq_refl ltac:(cbn; rewrite length_app; lia) Hnone)
        as (ch & Hrun).
      exists ch. rewrite Hstep, Hrun. reflexivity.
    + set (l1 := mk_locals (proc l) (pcm_buf l ++ b :: payload) (fmt l)
                   (total_bytes l + len (b :: payload)) (chunk_count l + 1)) in *.
      destruct (IH stream' rest fuel l1
                  (set_sock w (moved (sock w) (stream' ++ rest) ch1))
                  Henc' eq_refl ltac:(cbn; rewrite length_app; lia) Hnone)
        as (ch & Hrun).
      exists ch. rewrite Hstep, Hrun. unfold l1.
      cbn [proc pcm_buf fmt total_bytes chunk_count non_empty].
      f_equal. f_equal.
      * rewrite <- List.app_assoc. reflexivity.
      * rewrite len_app. lia.
      * cbn [List.app List.length]. lia.
Qed.

(** The loop of [main], entered after the request is sent. *)
Lemma main_event_loop e text voice speaker connected :
  exists sock',
    inbound sock' = inbound connected
    /\ main e text voice speaker connected
       = finally_close
           (event_loop (S (List.length (inbound connected))) e initial_locals
              (mk_world sock' [] [])).
Proof.
  unfold main. rewrite send_event_outbound. eexists. split; [|reflexivity].
  reflexivity.
Qed.

Lemma update_nth_single {A} (x : A) f : update_nth [x] 0 f = [f x].
Proof. reflexivity. Qed.

Lemma single_of_nth {A} (l : list A) x :
  List.length l = 1%nat -> nth_error l 0 = Some x -> l = [x].
Proof.
  destruct l as [|y [|z l]]; cbn; intros Hl Hn; try discriminate.
  injection Hn as ->. reflexivity.
Qed.

Lemma start_streaming_player_fresh p r wd c dbg child :
  start_streaming_player p r wd c dbg = Ok (Some child) ->
  stdin_writes child = [] /\ stdin_closed child = false
  /\ waited child = false.
Proof.
  unfold start_streaming_player. destruct (times8 wd) as [bits|]; cbn [bind];
    [|discriminate].
  destruct p; try discriminate;
    try (destruct (hashable _); [|discriminate]);
    intros H; injection H as <-; repeat split.
Qed.

(** ** A streamed response *)



(** X8: when the server closes the connection after [audio-start]
    and some chunks without sending [audio-stop], [main] ends with the
    [ConnectionError] of [recv_event]; the child has received every
    payload that is not empty, in order, but its input is never closed
    and it is not waited for; the connection is closed. *)
Theorem response_without_audio_stop_ends_in_connection_error
    (e : env) (text : pystr) (voice speaker : option pystr)
    (connected : socket) (d : dict) (payload0 : bytes)
    (chunks : list (json * bytes)) (child : process) :
  streaming e = true ->
  (forall pid k, pipe_breaks e pid k = false) ->
  start_streaming_player (player e) (rate (declared_format d))
    (width (declared_format d)) (channels (declared_format d)) (debug e)
  = Ok (Some child) ->
  encodes (inbound connected) (audio_start d payload0 :: chunk_events chunks) ->
  let r := main e text voice speaker connected in
  how r = Uncaught (ConnectionError "Connection closed by server")
  /\ procs (final r) = [child_after child (audible chunks) false]
  /\ wav_played (final r) = []
  /\ total_bytes (vars r) = len (audio chunks)
  /\ closed (sock (final r)) = true.
Proof.
  intros Hs Hnb Hstart Henc r.
  destruct (main_event_loop e text voice speaker connected)
    as (sock0 & Hin0 & Hmain).
  subst r. rewrite Hmain. clear Hmain.
  remember (S (List.length (inbound connected))) as fuel eqn:Hf.
  set (w0 := mk_world sock0 [] []).
  assert (Hfuel : (List.length (inbound (sock w0)) < fuel)%nat)
    by (cbn; rewrite Hin0; lia).
  clear Hf. rewrite <- Hin0 in Henc. clear Hin0.
  inversion Henc as [|f0 s1 ev evs Hf0 Hchunks Ea Eb]; subst.
  symmetry in Ea. rename Ea into Hin.
  change (inbound sock0) with (inbound (sock w0)) in Hin.
  destruct (event_loop_next _ _ _ fuel e initial_locals w0 Hf0 Hin Hfuel)
    as (ch0 & Hstep0).
  change (dispatch e (audio_start d payload0) initial_locals
            (set_sock w0 (moved (sock w0) s1 ch0)))
    with (on_audio_start e (JObj d) initial_locals
            (set_sock w0 (moved (sock w0) s1 ch0)))
    in Hstep0.
  unfold on_audio_start in Hstep0. fold (declared_format d) in Hstep0.
  rewrite Hs, Hstart in Hstep0.
  cbn [procs set_sock w0 List.length pcm_buf total_bytes chunk_count
       initial_locals] in Hstep0.
  set (l1 := mk_locals (Some O) [] (declared_format d) 0 0) in *.
  set (w1 := spawn _ child) in Hstep0.
  pose proof (complete_frame_length _ _ Hf0) as Hlen0.
  assert (Hfuel1 : (List.length (inbound (sock w1)) < fuel)%nat).
  { rewrite Hin, length_app in Hfuel. cbn. lia. }
  destruct (chunks_to_child e chunks s1 [] fuel l1 w1 O [] child
              Hchunks (eq_sym (List.app_nil_r _)) Hfuel1 Hs Hnb eq_refl)
    as (ch1 & w2 & Hrun & Hsock2 & Hwav2 & Hlen2 & _ & Hpid2).
  { cbn. rewrite child_after_nothing. reflexivity. }
  cbn [List.app] in Hpid2. apply single_of_nth in Hpid2; [|exact Hlen2].
  rewrite Hstep0, Hrun.
  rewrite event_loop_closed by first [rewrite Hsock2; reflexivity | lia].
  unfold finally_close.
  cbn [how vars final sock procs wav_played set_sock close closed
       total_bytes l1].
  rewrite Hpid2, Hwav2. repeat split; lia.
Qed.

Lemma response_without_audio_stop_ends_in_connection_error_witness :
  let r := main quiet_env (str "hi") None None
             (server (start_frame 16000 ++ example_chunk_frame)) in
  how r = Uncaught (ConnectionError "Connection closed by server")
  /\ procs (final r)
     = [child_after (sox_child 16000) [[x01; x0a; x03]] false].
Proof.
  intros r.
  destruct (response_without_audio_stop_ends_in_connection_error quiet_env
              (str "hi") None None
              (server (start_frame 16000 ++ example_chunk_frame))
              [(str "rate", JInt 16000); (str "width", JInt 2);
               (str "channels", JInt 1)] []
              [(JObj [], [x01; x0a; x03])] (sox_child 16000))
    as (Hhow & Hprocs & _).
  - reflexivity.
  - reflexivity.
  - reflexivity.
  - cbn [server inbound].
    apply encodes_cons; [vm_compute; reflexivity|].
    rewrite <- (List.app_nil_r example_chunk_frame).
    apply encodes_cons; [vm_compute; reflexivity | apply encodes_nil].
  - split; assumption.
Defined.

(** ** A buffered response *)

(** The run of a buffered response. *)
Lemma buffered_run
    (e : env) (text : pystr) (voice speaker : option pystr)
    (connected : socket) (d : dict) (payload0 : bytes)
    (chunks : list (json * bytes)) (stop_data : json) (stop_payload : bytes)
    (stream trailing : bytes) :
  streaming e = false ->
  encodes stream (audio_start d payload0 :: chunk_events chunks
                  ++ [audio_stop stop_data stop_payload]) ->
  inbound connected = stream ++ trailing ->
  let r := main e text voice speaker connected in
  how r = AudioStop
  /\ procs (final r) = []
  /\ wav_played (final r)
     = (if non_empty (audio chunks)
        then [(audio chunks, declared_format d)] else [])
  /\ total_bytes (vars r) = len (audio chunks)
  /\ inbound (sock (final r)) = trailing.
Proof.
  intros Hs Henc Hin r.
  destruct (main_event_loop e text voice speaker connected)
    as (sock0 & Hin0 & Hmain).
  subst r. rewrite Hmain. clear Hmain.
  inversion Henc as [|f0 stream1 ev evs Hf0 Henc1 Ea Eb]; subst.
  destruct (encodes_app_inv _ _ _ Henc1) as (s1 & s2 & -> & Hchunks & Hstop).
  apply encodes_one in Hstop.
  rewrite <- Hin0 in *. rewrite <- !List.app_assoc in Hin.
  set (fuel := S (List.length (inbound sock0))).
  set (w0 := mk_world sock0 [] []).
  assert (Hfuel : (List.length (inbound (sock w0)) < fuel)%nat)
    by (unfold fuel; cbn; lia).
  destruct (event_loop_next _ _ _ fuel e initial_locals w0 Hf0 Hin Hfuel)
    as (ch0 & Hstep0).
  change (dispatch e (audio_start d payload0) initial_locals
            (set_sock w0 (moved (sock w0) (s1 ++ s2 ++ trailing) ch0)))
    with (on_audio_start e (JObj d) initial_locals
            (set_sock w0 (moved (sock w0) (s1 ++ s2 ++ trailing) ch0)))
    in Hstep0.
  unfold on_audio_start in Hstep0. fold (declared_format d) in Hstep0.
  rewrite Hs in Hstep0.
  cbn [proc pcm_buf total_bytes chunk_count initial_locals] in Hstep0.
  set (l1 := mk_locals None [] (declared_format d) 0 0) in *.
  set (w1 := set_sock w0 _) in Hstep0.
  pose proof (complete_frame_length _ _ Hf0) as Hlen0.
  assert (Hfuel1 : (List.length (inbound (sock w1)) < fuel)%nat).
  { unfold fuel. rewrite Hin. cbn. rewrite !length_app. lia. }
  destruct (chunks_to_buffer e chunks s1 (s2 ++ trailing) fuel l1 w1
              Hchunks eq_refl Hfuel1)
    as (ch1 & Hrun).
  { rewrite Hs. reflexivity. }
  cbn [proc pcm_buf fmt total_bytes chunk_count l1 List.app] in Hrun.
  set (l2 := mk_locals None (audio chunks) (declared_format d)
               (0 + len (audio chunks))
               (0 + Z.of_nat (List.length (audible chunks)))) in *.
  set (w2 := set_sock w1 _) in Hrun.
  assert (Hfuel2 : (List.length (inbound (sock w2)) < fuel)%nat).
  { unfold fuel. rewrite Hin. cbn. rewrite !length_app. lia. }
  destruct (event_loop_next _ _ _ fuel e l2 w2 Hstop eq_refl Hfuel2)
    as (ch2 & Hstep2).
  change (dispatch e (audio_stop stop_data stop_payload) l2
            (set_sock w2 (moved (sock w2) trailing ch2)))
    with (on_audio_stop e l2 (set_sock w2 (moved (sock w2) trailing ch2)))
    in Hstep2.
  unfold on_audio_stop in Hstep2. rewrite Hs in Hstep2.
  cbn [pcm_buf l2] in Hstep2.
  rewrite Hstep0, Hrun, Hstep2. unfold finally_close.
  destruct (audio chunks) as [|b bs] eqn:Ea;
    cbn [how vars final sock procs wav_played set_sock close inbound moved
         total_bytes l2 w2 w1 w0 non_empty List.app];
    repeat split; lia.
Qed.





(** ** Events the loop has no branch for *)

Lemma dispatch_passed_over e ev l w :
  passed_over ev -> dispatch e ev l w = Continue l w.
Proof.
  destruct ev as [[ty data] payload]. intros (Hstart & Hstop & Hchunk).
  unfold dispatch. rewrite Hstart.
  destruct (is_str ty (str "audio-chunk")).
  - rewrite (Hchunk eq_refl). reflexivity.
  - rewrite Hstop. reflexivity.
Qed.

(** X11: an event whose type is none of [audio-start],
    [audio-chunk], [audio-stop] (a type that is not a string included),
    and an [audio-chunk] without payload, are read and skipped: in any
    state of the loop the run is the one the rest of the stream gives,
    and a response that starts with such a frame is processed as the
    response without it. *)
Theorem unhandled_events_are_skipped (e : env) (frame rest : bytes)
    (ev : event) :
  complete_frame frame ev ->
  passed_over ev ->
  (forall fuel l w,
      inbound (sock w) = frame ++ rest ->
      (List.length (inbound (sock w)) < fuel)%nat ->
      exists ch,
        event_loop fuel e l w
        = event_loop fuel e l (set_sock w (moved (sock w) rest ch)))
  /\ (forall text voice speaker ch out cl,
        exists ch',
          main e text voice speaker (mk_socket (frame ++ rest) ch out cl)
          = main e text voice speaker (mk_socket rest ch' out cl)).
Proof.
  intros Hc Hp.
  assert (Hloop : forall fuel l w,
      inbound (sock w) = frame ++ rest ->
      (List.length (inbound (sock w)) < fuel)%nat ->
      exists ch,
        event_loop fuel e l w
        = event_loop fuel e l (set_sock w (moved (sock w) rest ch))).
  { intros fuel l w Hin Hfuel.
    destruct (event_loop_next _ _ _ fuel e l w Hc Hin Hfuel) as (ch & Hstep).
    exists ch. rewrite Hstep, dispatch_passed_over by exact Hp. reflexivity. }
  split; [exact Hloop|].
  intros text voice speaker ch out cl. unfold main.
  rewrite send_event_outbound.
  cbn [inbound chunking outbound closed bytes_or_empty set_sock sock procs
       wav_played].
  set (out' := out ++ _).
  destruct (Hloop (S (List.length (frame ++ rest))) initial_locals
              (mk_world (mk_socket (frame ++ rest) ch out' cl) [] [])
              eq_refl ltac:(cbn; lia)) as (ch' & Hrun).
  exists ch'. rewrite send_event_outbound.
  cbn [inbound chunking outbound closed bytes_or_empty set_sock sock procs
       wav_played].
  fold out'. f_equal.
  change (set_sock _ _)
    with (mk_world (mk_socket (frame ++ rest) ch out' cl) [] []) at 1.
  rewrite Hrun.
  apply complete_frame_length in Hc.
  apply event_loop_fuel; cbn; rewrite ?length_app; lia.
Qed.

Lemma unhandled_events_are_skipped_witness :
  exists ch',
    main quiet_env (str "hi") None None
      (mk_socket
         (header_line [(str "type", JStr (str "run-start"))]
          ++ example_stop_frame) [0%nat] [] false)
    = main quiet_env (str "hi") None None
        (mk_socket example_stop_frame ch' [] false).
Proof.
  destruct (unhandled_events_are_skipped quiet_env
              (header_line [(str "type", JStr (str "run-start"))])
              example_stop_frame (JStr (str "run-start"), JObj [], []))
    as (_ & Hmain).
  - vm_compute. reflexivity.
  - repeat split.
  - apply Hmain.
Defined.

(** ** The account of the bytes *)

Lemma delivered_written w : delivered w = written (procs w).
Proof. reflexivity. Qed.

Lemma written_app ps qs : written (ps ++ qs) = written ps + written qs.
Proof. induction ps as [|p ps IH]; cbn; [reflexivity | rewrite IH; lia]. Qed.

Lemma len_concat_app (a : list bytes) (b : bytes) :
  len (List.concat (a ++ [b])) = len (List.concat a) + len b.
Proof.
  rewrite concat_app. cbn [List.concat]. rewrite List.app_nil_r, len_app.
  reflexivity.
Qed.

Lemma written_write ps pid payload :
  (pid < List.length ps)%nat ->
  written (update_nth ps pid (write_stdin payload)) = written ps + len payload.
Proof.
  revert pid. induction ps as [|p ps IH]; intros [|pid] H; cbn in H; try lia.
  - cbn [update_nth written write_stdin stdin_writes].
    rewrite len_concat_app. lia.
  - cbn [update_nth written]. rewrite IH by lia. lia.
Qed.

Lemma written_close ps pid :
  written (update_nth ps pid close_and_wait) = written ps.
Proof.
  revert pid. induction ps as [|p ps IH]; intros [|pid]; cbn; try reflexivity.
  rewrite IH. reflexivity.
Qed.

Lemma accounted_set_sock l w s : accounted l w -> accounted l (set_sock w s).
Proof. intros H. exact H. Qed.

Lemma dispatch_accounted e ev l w :
  accounted l w ->
  match dispatch e ev l w with
  | Continue l' w' | BreakStop l' w' => accounted l' w'
  | BreakPipe l' w' =>
      len (pcm_buf l') + delivered w' < total_bytes l'
      /\ 0 <= chunk_count l' <= total_bytes l'
      /\ forall pid, proc l' = Some pid -> (pid < List.length (procs w'))%nat
  | Throw _ => True
  end.
Proof.
  intros (Htot & Hcnt & Hpid). destruct ev as [[ty data] payload].
  unfold dispatch. destruct (is_str ty (str "audio-start")).
  { unfold on_audio_start. destruct data; try exact I.
    destruct (streaming e).
    - destruct (start_streaming_player _ _ _ _ _) as [[child|]|] eqn:Es;
        try exact I.
      + apply start_streaming_player_fresh in Es. destruct Es as (Hw & _).
        unfold accounted, spawn.
        cbn [total_bytes pcm_buf chunk_count proc procs].
        rewrite delivered_written in *. cbn [procs].
        rewrite written_app. cbn [written]. rewrite Hw. cbn [List.concat].
        repeat split; try lia.
        * change (len []) with 0. lia.
        * intros pid H. injection H as <-. rewrite length_app. cbn. lia.
      + unfold accounted. cbn [total_bytes pcm_buf chunk_count proc].
        repeat split; try lia. discriminate.
    - unfold accounted. cbn [total_bytes pcm_buf chunk_count proc].
      repeat split; try lia. exact Hpid. }
  destruct (is_str ty (str "audio-chunk")).
  { unfold on_audio_chunk. destruct payload as [|b payload].
    - repeat split; try lia. exact Hpid.
    - pose proof (len_nonneg payload) as Hpl.
      assert (Hl : len (b :: payload) = 1 + len payload) by apply len_cons.
      destruct (if streaming e then proc l else None) as [pid|] eqn:Ep.
      + assert (Hp : proc l = Some pid)
          by (destruct (streaming e); [exact Ep | discriminate]).
        specialize (Hpid pid Hp) as Hlt.
        destruct (pipe_breaks e pid _).
        * cbn [total_bytes pcm_buf chunk_count proc].
          repeat split; try lia. exact Hpid.
        * unfold accounted, on_proc.
          cbn [total_bytes pcm_buf chunk_count proc procs].
          rewrite delivered_written in *. cbn [procs].
          rewrite written_write by exact Hlt.
          repeat split; try lia.
          intros pid' H. rewrite update_nth_length. apply Hpid. exact H.
      + unfold accounted. cbn [total_bytes pcm_buf chunk_count proc].
        rewrite len_app. repeat split; try lia. exact Hpid. }
  destruct (is_str ty (str "audio-stop")).
  { unfold on_audio_stop.
    destruct (if streaming e then proc l else None) as [pid|].
    - unfold accounted, on_proc. rewrite delivered_written in *.
      cbn [procs]. rewrite written_close, update_nth_length.
      repeat split; try lia. exact Hpid.
    - destruct (pcm_buf l) eqn:Eb; unfold accounted in *;
        rewrite ?delivered_written in *; cbn [procs]; rewrite ?Eb;
        repeat split; try lia; exact Hpid. }
  repeat split; try lia. exact Hpid.
Qed.

Lemma event_loop_accounted fuel e : forall l w,
  accounted l w ->
  let r := event_loop fuel e l w in
  (how r <> PipeBroke ->
   total_bytes (vars r) = len (pcm_buf (vars r)) + delivered (final r))
  /\ (how r = PipeBroke ->
      len (pcm_buf (vars r)) + delivered (final r) < total_bytes (vars r))
  /\ 0 <= chunk_count (vars r) <= total_bytes (vars r)
  /\ forall pid, proc (vars r) = Some pid ->
       (pid < List.length (procs (final r)))%nat.
Proof.
  assert (Hend : forall l w ending,
            accounted l w -> ending <> PipeBroke ->
            let r := mk_run ending l w in
            (how r <> PipeBroke ->
             total_bytes (vars r) = len (pcm_buf (vars r)) + delivered (final r))
            /\ (how r = PipeBroke ->
                len (pcm_buf (vars r)) + delivered (final r)
                < total_bytes (vars r))
            /\ 0 <= chunk_count (vars r) <= total_bytes (vars r)
            /\ forall pid, proc (vars r) = Some pid ->
                 (pid < List.length (procs (final r)))%nat).
  { intros l w ending (Htot & Hcnt & Hpid) Hne. cbn [how vars final].
    split; [intros _; exact Htot|]. split; [intros H; contradiction|].
    split; [exact Hcnt | exact Hpid]. }
  induction fuel as [|fuel IH]; intros l w Hacc.
  - apply Hend; [exact Hacc | discriminate].
  - cbn [event_loop].
    destruct (recv_event (sock w)) as [[ev sock']|ex].
    + pose proof (dispatch_accounted e ev l (set_sock w sock')
                    (accounted_set_sock l w sock' Hacc)) as Hd.
      destruct (dispatch e ev l (set_sock w sock')) as [l' w'|l' w'|l' w'|ex].
      * apply IH. exact Hd.
      * apply Hend; [exact Hd | discriminate].
      * destruct Hd as (Htot & Hcnt & Hpid). cbn [how vars final].
        split; [intros H; contradiction|]. split; [intros _; exact Htot|].
        split; [exact Hcnt | exact Hpid].
      * apply Hend; [exact Hacc | discriminate].
    + apply Hend; [exact Hacc | discriminate].
Qed.

(** X12: whatever the server sends and however the run ends, the
    byte counter of [main] accounts for the audio: unless the run ended
    on a broken pipe, [total_bytes] is the number of bytes held in
    [pcm_buf] plus the number of bytes written to the children; after a
    broken pipe it is larger, the chunk that could not be written being
    counted; [chunk_count] never exceeds [total_bytes]; and [proc]
    always designates a child that was started. *)
Theorem counted_bytes_are_buffered_or_written (e : env) (text : pystr)
    (voice speaker : option pystr) (connected : socket) :
  let r := main e text voice speaker connected in
  (how r <> PipeBroke ->
   total_bytes (vars r) = len (pcm_buf (vars r)) + delivered (final r))
  /\ (how r = PipeBroke ->
      len (pcm_buf (vars r)) + delivered (final r) < total_bytes (vars r))
  /\ 0 <= chunk_count (vars r) <= total_bytes (vars r)
  /\ forall pid, proc (vars r) = Some pid ->
       (pid < List.length (procs (final r)))%nat.
Proof.
  intros r. subst r.
  destruct (main_event_loop e text voice speaker connected)
    as (sock0 & _ & ->).
  apply (event_loop_accounted _ e initial_locals (mk_world sock0 [] [])).
  unfold accounted. cbn. repeat split; try lia. discriminate.
Qed.

(** ** An [audio-start] that cannot be used *)

(** X13: an [audio-start] event whose data are not a JSON object
    makes [main] end with the [AttributeError] of [data.get]; with a
    streaming player, one whose width is null or an object makes it end
    with the [TypeError] of [width * 8].  In both cases no child has
    been started, the rest of the response is not read and the
    connection is closed. *)
Theorem unusable_audio_start_ends_the_run
    (e : env) (text : pystr) (voice speaker : option pystr)
    (connected : socket) (frame rest : bytes) (data : json) (payload : bytes) :
  complete_frame frame (JStr (str "audio-start"), data, payload) ->
  inbound connected = frame ++ rest ->
  let r := main e text voice speaker connected in
  ((forall d, data <> JObj d) ->
   how r = Uncaught AttributeError
   /\ procs (final r) = [] /\ inbound (sock (final r)) = rest
   /\ closed (sock (final r)) = true)
  /\ (forall d,
        data = JObj d -> streaming e = true ->
        get d (str "width") (JInt 2) = JNull
        \/ (exists m, get d (str "width") (JInt 2) = JObj m) ->
        how r = Uncaught TypeError
        /\ procs (final r) = [] /\ inbound (sock (final r)) = rest
        /\ closed (sock (final r)) = true).
Proof.
  intros Hc Hin r.
  destruct (main_event_loop e text voice speaker connected)
    as (sock0 & Hin0 & Hmain).
  subst r. rewrite Hmain. clear Hmain.
  set (w0 := mk_world sock0 [] []).
  assert (Hin' : inbound (sock w0) = frame ++ rest)
    by (cbn; congruence).
  destruct (event_loop_next _ _ _ (S (List.length (inbound connected))) e
              initial_locals w0 Hc Hin' ltac:(cbn; rewrite Hin0; lia))
    as (ch & Hstep).
  change (dispatch e (JStr (str "audio-start"), data, payload) initial_locals
            (set_sock w0 (moved (sock w0) rest ch)))
    with (on_audio_start e data initial_locals
            (set_sock w0 (moved (sock w0) rest ch))) in Hstep.
  split.
  - intros Hd. rewrite Hstep. unfold on_audio_start.
    destruct data; try (repeat split; fail).
    exfalso. eapply Hd. reflexivity.
  - intros d -> Hs Hw. rewrite Hstep. unfold on_audio_start. rewrite Hs.
    cbn [width]. unfold start_streaming_player.
    destruct Hw as [-> | (m & ->)]; repeat split.
Qed.

Lemma unusable_audio_start_ends_the_run_witness :
  how (main quiet_env (str "hi") None None
         (server (header_line [(str "type", JStr (str "audio-start"));
                               (str "data", JInt 5)]
                  ++ example_stop_frame)))
  = Uncaught AttributeError
  /\ how (main quiet_env (str "hi") None None
            (server (header_line
                       [(str "type", JStr (str "audio-start"));
                        (str "data", JObj [(str "width", JNull)])]
                     ++ example_stop_frame)))
     = Uncaught TypeError.
Proof.
  split.
  - destruct (unusable_audio_start_ends_the_run quiet_env (str "hi") None None
                (server (header_line [(str "type", JStr (str "audio-start"));
                                      (str "data", JInt 5)]
                         ++ example_stop_frame))
                (header_line [(str "type", JStr (str "audio-start"));
                              (str "data", JInt 5)])
                example_stop_frame (JInt 5) []) as (H & _).
    + vm_compute. reflexivity.
    + reflexivity.
    + apply H. discriminate.
  - destruct (unusable_audio_start_ends_the_run quiet_env (str "hi") None None
                (server (header_line
                           [(str "type", JStr (str "audio-start"));
                            (str "data", JObj [(str "width", JNull)])]
                         ++ example_stop_frame))
                (header_line [(str "type", JStr (str "audio-start"));
                              (str "data", JObj [(str "width", JNull)])])
                example_stop_frame (JObj [(str "width", JNull)]) [])
      as (_ & H).
    + vm_compute. reflexivity.
    + reflexivity.
    + apply (H [(str "width", JNull)]); [reflexivity | reflexivity |].
      left. reflexivity.
Defined.

(** ** The server address *)

Lemma rsplit_colon_none s : ~ In COLON s -> rsplit_colon s = [s].
Proof.
  induction s as [|c s IH]; intros Hn; [reflexivity|].
  cbn [rsplit_colon]. rewrite IH by (intros H; apply Hn; right; exact H).
  replace (c =? COLON)%N with false; [reflexivity|].
  symmetry. apply N.eqb_neq. intros ->. apply Hn. left. reflexivity.
Qed.

Lemma rsplit_colon_last host port_str :
  ~ In COLON port_str ->
  rsplit_colon (host ++ COLON :: port_str) = [host; port_str].
Proof.
  intros Hn. induction host as [|c host IH].
  - cbn [List.app rsplit_colon]. rewrite rsplit_colon_none by exact Hn.
    reflexivity.
  - cbn [List.app rsplit_colon]. rewrite IH. reflexivity.
Qed.

Lemma digits_are_digits u : Forall (fun c => is_digit c = true) (digits_of_uint u).
Proof. induction u; cbn; constructor; try assumption; reflexivity. Qed.

Lemma scan_digits_all ds :
  Forall (fun c => is_digit c = true) ds ->
  scan_digits ds false = Some (ds, []).
Proof.
  induction 1 as [|c ds Hc _ IH]; [reflexivity|].
  cbn [scan_digits]. rewrite Hc, IH. reflexivity.
Qed.

Lemma is_digit_range c : is_digit c = true -> (48 <= c <= 57)%N.
Proof.
  unfold is_digit. intros H. apply andb_true_iff in H. destruct H as [Ha Hb].
  apply N.leb_le in Ha, Hb. lia.
Qed.

Lemma no_high_digits ds :
  Forall (fun c => is_digit c = true) ds ->
  existsb (fun c => (128 <=? c)%N) ds = false.
Proof.
  induction 1 as [|c ds Hc _ IH]; [reflexivity|].
  cbn [existsb]. rewrite IH. apply is_digit_range in Hc.
  replace (128 <=? c)%N with false by (symmetry; apply N.leb_gt; lia).
  reflexivity.
Qed.

(** [int] reads back what [str] writes for an integer. *)
Lemma read_digits_uint u c ds negative :
  digits_of_uint u = c :: ds ->
  read_digits negative (c :: ds)
  = Ok (if negative then - Z.of_uint u else Z.of_uint u).
Proof.
  intros E. pose proof (digits_are_digits u) as Hd. rewrite E in Hd.
  unfold read_digits. rewrite (scan_digits_all _ Hd).
  inversion Hd as [|c' ds' Hc _]; subst. apply is_digit_range in Hc.
  replace (c =? 95)%N with false by (symmetry; apply N.eqb_neq; lia).
  cbn [lstrip]. rewrite <- E, uint_of_digits_of_uint. reflexivity.
Qed.

Lemma digits_nonempty_pos p :
  exists c ds, digits_of_uint (Pos.to_uint p) = c :: ds.
Proof.
  pose proof (DecimalPos.Unsigned.to_uint_nonnil p) as Hnil.
  destruct (Pos.to_uint p); try contradiction; eexists _, _; reflexivity.
Qed.

Lemma int_of_str_repr z : int_of_str (repr_int z) = Ok z.
Proof.
  pose proof (DecimalZ.of_to z) as Hz.
  unfold repr_int. destruct z as [|p|p]; cbn [Z.to_int] in *.
  - reflexivity.
  - cbn [Z.of_int] in Hz.
    destruct (digits_nonempty_pos p) as (c & ds & E).
    pose proof (digits_are_digits (Pos.to_uint p)) as Hd.
    unfold int_of_str. rewrite no_high_digits by exact Hd.
    rewrite E in *. inversion Hd as [|c' ds' Hc _]; subst.
    apply is_digit_range in Hc. cbn [lstrip].
    replace (is_space c) with false.
    2:{ unfold is_space.
        replace (c =? 32)%N with false by (symmetry; apply N.eqb_neq; lia).
        replace (c <=? 13)%N with false by (symmetry; apply N.leb_gt; lia).
        rewrite andb_false_r. reflexivity. }
    replace (c =? 43)%N with false by (symmetry; apply N.eqb_neq; lia).
    replace (c =? MINUS)%N with false
      by (symmetry; apply N.eqb_neq; unfold MINUS; lia).
    rewrite (read_digits_uint (Pos.to_uint p) c ds false E).
    rewrite Hz. reflexivity.
  - cbn [Z.of_int] in Hz.
    destruct (digits_nonempty_pos p) as (c & ds & E).
    pose proof (digits_are_digits (Pos.to_uint p)) as Hd.
    unfold int_of_str. cbn [existsb].
    rewrite no_high_digits by exact Hd. cbn [orb lstrip].
    change (is_space MINUS) with false. cbv iota.
    change (MINUS =? 43)%N with false. change (MINUS =? MINUS)%N with true.
    cbv iota. rewrite E.
    rewrite (read_digits_uint (Pos.to_uint p) c ds true E).
    rewrite Hz. reflexivity.
Qed.

Lemma repr_int_no_colon z : ~ In COLON (repr_int z).
Proof.
  assert (H : forall u, ~ In COLON (digits_of_uint u)).
  { intros u Hin. pose proof (digits_are_digits u) as Hd.
    rewrite Forall_forall in Hd. specialize (Hd _ Hin). discriminate Hd. }
  unfold repr_int. destruct (Z.to_int z) as [u|u]; [apply H|].
  intros [Hm|Hin]; [discriminate Hm | exact (H u Hin)].
Qed.

(** X14: the server address is split at its last colon: for a
    host of any characters, colons included, followed by a colon and the
    decimal writing of a port, the host and the port are the ones
    [connect] is called with; with a player at hand, the program then
    does what [connect] makes of it: the run of [main] on the
    connection, [sys.exit(1)] on an [OSError], the exception
    otherwise. *)
Theorem server_address_is_split_at_the_last_colon
    (cfg : config) (args : arguments) (which : pystr -> bool)
    (connect : pystr -> Z -> connection) (pipe_breaks : nat -> nat -> bool)
    (host : pystr) (port : Z) (name : player_name) (streams : bool) :
  0 <= port <= 65535 ->
  or_else (cli_wyoming args) (cfg_server cfg)
  = Some (host ++ COLON :: repr_int port) ->
  choose_player which = Some (name, streams) ->
  parse_server (host ++ COLON :: repr_int port) = Ok (host, port)
  /\ mgtts cfg args which connect pipe_breaks
     = match connect host port with
       | Connected sock =>
           Ran (main (mk_env name streams (cli_debug args) pipe_breaks)
                  (cli_text args)
                  (or_else (cli_model args) (cfg_model cfg))
                  (or_else (cli_speaker args) (cfg_speaker cfg)) sock)
       | OSError => Exit 1 CannotConnect
       | Escapes => ConnectRaised
       end.
Proof.
  intros _ Hserver Hplayer.
  assert (Hparse : parse_server (host ++ COLON :: repr_int port)
                   = Ok (host, port)).
  { unfold parse_server.
    rewrite rsplit_colon_last by apply repr_int_no_colon.
    rewrite int_of_str_repr. reflexivity. }
  split; [exact Hparse|].
  unfold mgtts. rewrite Hserver.
  destruct (host ++ COLON :: repr_int port) as [|c s] eqn:E.
  { destruct host; discriminate E. }
  rewrite Hparse, Hplayer. reflexivity.
Qed.

Lemma server_address_is_split_at_the_last_colon_witness :
  mgtts (mk_config (Some (str "::1:10200")) None None)
    (mk_arguments None None None false (str "hi"))
    (fun b => pystr_eqb b (str "ffplay"))
    (fun _ _ => OSError) (fun _ _ => false)
  = Exit 1 CannotConnect
  /\ parse_server (str "::1:10200") = Ok (str "::1", 10200).
Proof.
  destruct (server_address_is_split_at_the_last_colon
              (mk_config (Some (str "::1:10200")) None None)
              (mk_arguments None None None false (str "hi"))
              (fun b => pystr_eqb b (str "ffplay"))
              (fun _ _ => OSError) (fun _ _ => false)
              (str "::1") 10200 ffplay true) as (Hparse & Hprog).
  - lia.
  - reflexivity.
  - reflexivity.
  - split; [exact Hprog | exact Hparse].
Defined.

(** X15: a server address without a colon makes the program
    fail with an uncaught [ValueError], at the unpacking of line 166,
    whatever players are installed and before any connection is
    attempted. *)
Theorem server_address_without_colon_raises
    (cfg : config) (args : arguments) (which : pystr -> bool)
    (connect : pystr -> Z -> connection) (pipe_breaks : nat -> nat -> bool)
    (server : pystr) :
  or_else (cli_wyoming args) (cfg_server cfg) = Some server ->
  server <> [] ->
  ~ In COLON server ->
  mgtts cfg args which connect pipe_breaks = Raised ValueError.
Proof.
  intros Hserver Hne Hn. unfold mgtts. rewrite Hserver.
  destruct server as [|c s]; [contradiction|].
  unfold parse_server. rewrite rsplit_colon_none by exact Hn. reflexivity.
Qed.

Lemma server_address_without_colon_raises_witness :
  mgtts (mk_config None None None)
    (mk_arguments (Some (str "localhost")) None None false (str "hi"))
    (fun _ => true) (fun _ _ => Connected fresh_socket) (fun _ _ => false)
  = Raised ValueError.
Proof.
  apply (server_address_without_colon_raises _ _ _ _ _ (str "localhost")).
  - reflexivity.
  - discriminate.
  - vm_compute. intuition discriminate.
Defined.

(** ** The choice of the player *)

(** X16: the player chosen is the first of sox, ffplay, paplay
    and afplay whose program ([play] for sox) is installed: its program
    is found and no preferred one is; the audio is streamed exactly
    when the player is not afplay, and for a player that streams
    [start_streaming_player] never returns None, so that an
    [audio-start] always leaves a child or raises; no player is chosen
    only when none of the four programs is found. *)
Theorem chosen_player_is_the_first_installed (which : pystr -> bool) :
  match choose_player which with
  | Some (name, streams) =>
      which (binary name) = true
      /\ (forall other, preferred other name = true ->
          which (binary other) = false)
      /\ (streams = false <-> name = afplay)
      /\ (streams = true ->
          forall rate width channels debug,
            start_streaming_player name rate width channels debug <> Ok None)
  | None => forall name, which (binary name) = false
  end.
Proof.
  unfold choose_player. cbn [first_found binary].
  destruct (which (str "play")) eqn:Es.
  { split; [exact Es|]. split; [intros []; discriminate|].
    split; [split; discriminate|].
    intros _ r w c d. unfold start_streaming_player.
    destruct (times8 w); discriminate. }
  destruct (which (str "ffplay")) eqn:Ef.
  { split; [exact Ef|].
    split; [intros []; try discriminate; intros _; exact Es|].
    split; [split; discriminate|].
    intros _ r w c d. unfold start_streaming_player.
    destruct (times8 w); cbn [bind]; [|discriminate].
    destruct (hashable c); discriminate. }
  destruct (which (str "paplay")) eqn:Ep.
  { split; [exact Ep|].
    split; [intros []; try discriminate; intros _; assumption|].
    split; [split; discriminate|].
    intros _ r w c d. unfold start_streaming_player.
    destruct (times8 w); cbn [bind]; [|discriminate].
    destruct (hashable w); discriminate. }
  destruct (which (str "afplay")) eqn:Ea.
  { split; [exact Ea|].
    split; [intros []; try discriminate; intros _; assumption|].
    split; [split; reflexivity|]. discriminate. }
  intros []; assumption.
Qed.

(** ** The settings of the request *)

Lemma requested_synth_data text voice speaker :
  requested (synth_data text voice speaker) (str "name")
  = (if truthy_str voice then voice else None)
  /\ requested (synth_data text voice speaker) (str "speaker")
     = (if truthy_str speaker then speaker else None).
Proof.
  unfold synth_data, requested.
  destruct voice as [[|a v]|]; destruct speaker as [[|b s]|]; split;
    reflexivity.
Qed.

(** X17: when the program reaches the server, the one request
    it writes carries the text of the command line and, for the voice
    and for the speaker, the setting of the command line when it is
    given and not empty, else the one of the configuration file when
    that is given and not empty, else none; the connection is closed at
    the end. *)
Theorem command_line_settings_override_configuration
    (cfg : config) (args : arguments) (which : pystr -> bool)
    (connect : pystr -> Z -> connection) (pipe_breaks : nat -> nat -> bool)
    (r : run) :
  mgtts cfg args which connect pipe_breaks = Ran r ->
  exists host port connected data,
    connect host port = Connected connected
    /\ outbound (sock (final r))
       = outbound connected ++ header_line (synthesize_header data)
    /\ dict_get data (str "text") = Some (JStr (cli_text args))
    /\ requested data (str "name")
       = in_force (cli_model args) (cfg_model cfg)
    /\ requested data (str "speaker")
       = in_force (cli_speaker args) (cfg_speaker cfg)
    /\ closed (sock (final r)) = true.
Proof.
  unfold mgtts.
  destruct (or_else (cli_wyoming args) (cfg_server cfg)) as [[|c s]|];
    try discriminate.
  destruct (parse_server (c :: s)) as [[host port]|]; [|discriminate].
  destruct (choose_player which) as [[name streams]|]; [|discriminate].
  destruct (connect host port) as [connected| |] eqn:Ec; try discriminate.
  intros H. injection H as <-.
  exists host, port, connected,
    (synth_data (cli_text args) (or_else (cli_model args) (cfg_model cfg))
       (or_else (cli_speaker args) (cfg_speaker cfg))).
  split; [exact Ec|]. split; [apply main_outbound|].
  split.
  { unfold synth_data. destruct (_ || _); reflexivity. }
  destruct (requested_synth_data (cli_text args)
              (or_else (cli_model args) (cfg_model cfg))
              (or_else (cli_speaker args) (cfg_speaker cfg))) as (Hn & Hs).
  rewrite Hn, Hs. unfold or_else, in_force.
  split; [|split; [|reflexivity]].
  - destruct (truthy_str (cli_model args)) eqn:E; [rewrite E; reflexivity|].
    reflexivity.
  - destruct (truthy_str (cli_speaker args)) eqn:E; [rewrite E; reflexivity|].
    reflexivity.
Qed.

Lemma command_line_settings_override_configuration_witness :
  exists data,
    requested data (str "name") = Some (str "amy")
    /\ requested data (str "speaker") = Some (str "3").
Proof.
  destruct (command_line_settings_override_configuration
              (mk_config (Some (str "h:1")) (Some (str "joe")) (Some (str "3")))
              (mk_arguments None (Some (str "amy")) (Some []) false (str "hi"))
              (fun _ => true) (fun _ _ => Connected fresh_socket)
              (fun _ _ => false)
              (main (mk_env sox true false (fun _ _ => false)) (str "hi")
                 (Some (str "amy")) (Some (str "3")) fresh_socket))
    as (host & port & connected & data & _ & _ & _ & Hn & Hs & _).
  - reflexivity.
  - exists data. split; assumption.
Defined.

(** ** The command line of the players *)

(** X18: for an integer format, the child that sox is started with
    has the command line [play -q -t raw -r R -e signed-integer -b B
    -c C -] in which R, B and C are decimal numbers that read back
    ([int]) as the rate, eight times the width and the number of
    channels. *)
Theorem sox_command_line_carries_the_format (r w c : Z) (debug : bool) :
  0 < r < 2 ^ 32 -> 0 < w < 2 ^ 32 -> 0 < c < 2 ^ 32 ->
  exists child R B C,
    start_streaming_player sox (JInt r) (JInt w) (JInt c) debug
    = Ok (Some child)
    /\ command_line child
       = Ok (Some [str "play"; str "-q"; str "-t"; str "raw"; str "-r"; R;
                   str "-e"; str "signed-integer"; str "-b"; B; str "-c"; C;
                   str "-"])
    /\ int_of_str R = Ok r
    /\ int_of_str B = Ok (w * 8)
    /\ int_of_str C = Ok c.
Proof.
  intros _ _ _. eexists _, (repr_int r), (repr_int (w * 8)), (repr_int c).
  split; [reflexivity|]. split; [reflexivity|].
  rewrite !int_of_str_repr. repeat split.
Qed.

Lemma sox_command_line_carries_the_format_witness :
  exists child R B C,
    start_streaming_player sox (JInt 22050) (JInt 2) (JInt 1) false
    = Ok (Some child)
    /\ command_line child
       = Ok (Some [str "play"; str "-q"; str "-t"; str "raw"; str "-r"; R;
                   str "-e"; str "signed-integer"; str "-b"; B; str "-c"; C;
                   str "-"])
    /\ int_of_str R = Ok 22050
    /\ int_of_str B = Ok 16
    /\ int_of_str C = Ok 1.
Proof.
  apply (sox_command_line_carries_the_format 22050 2 1 false); lia.
Defined.

(** X19: with paplay the sample format of the command line is
    [s32le] for a width of 4 and [s16le] for every other width, so
    that a width of 1 or 3 gives the very command line of a width of
    2: the child is told 16-bit samples whatever the declared width. *)
Theorem paplay_plays_every_width_but_4_as_16_bit (r w c : Z) (debug : bool)
    (child : process) :
  w <> 4 ->
  start_streaming_player paplay (JInt r) (JInt w) (JInt c) debug
  = Ok (Some child) ->
  exists child2,
    start_streaming_player paplay (JInt r) (JInt 2) (JInt c) debug
    = Ok (Some child2)
    /\ command_line child = command_line child2
    /\ command_line child
       = Ok (Some [str "paplay"; str "--raw"; str "--rate=" ++ repr_int r;
                   str "--channels=" ++ repr_int c; str "--format=s16le"]).
Proof.
  intros Hw H. cbn in H. injection H as <-. eexists. split; [reflexivity|].
  assert (Hf : sample_format (JInt w) = Ok (str "s16le")).
  { unfold sample_format. destruct w as [|p|p]; try reflexivity.
    destruct p as [p|p|]; try reflexivity.
    destruct p as [p|p|]; try reflexivity.
    destruct p as [p|p|]; try reflexivity. contradiction. }
  unfold command_line, popen_args.
  cbn [program arg_rate arg_bits arg_width arg_channels stderr_piped py_str
       bind].
  rewrite Hf. split; reflexivity.
Qed.

Lemma paplay_plays_every_width_but_4_as_16_bit_witness :
  exists child1 child2,
    start_streaming_player paplay (JInt 8000) (JInt 1) (JInt 1) false
    = Ok (Some child1)
    /\ start_streaming_player paplay (JInt 8000) (JInt 2) (JInt 1) false
       = Ok (Some child2)
    /\ command_line child1 = command_line child2.
Proof.
  destruct (paplay_plays_every_width_but_4_as_16_bit 8000 1 1 false
              (mk_process paplay (JInt 8000) (JInt 8) (JInt 1) (JInt 1)
                 false [] false false))
    as (child2 & H2 & Heq & _).
  - lia.
  - reflexivity.
  - eexists _, child2. split; [reflexivity|]. split; assumption.
Defined.

(** ** The WAV file of [play_wav_buffer] *)

Lemma le_bytes_length n v : List.length (le_bytes n v) = n.
Proof.
  revert v. induction n as [|n IH]; intros v; cbn; [reflexivity|].
  rewrite IH. reflexivity.
Qed.

Lemma le_value_le_bytes n : forall v,
  0 <= v < 256 ^ Z.of_nat n -> le_value (le_bytes n v) = v.
Proof.
  induction n as [|n IH]; intros v Hv.
  - cbn in *. lia.
  - rewrite Nat2Z.inj_succ, Z.pow_succ_r in Hv by lia.
    cbn [le_bytes le_value].
    rewrite to_N_byte_of by (pose proof (Z.mod_pos_bound v 256); lia).
    rewrite Z2N.id by (pose proof (Z.mod_pos_bound v 256); lia).
    rewrite IH.
    + pose proof (Z.div_mod v 256). lia.
    + split; [apply Z.div_pos; lia|].
      apply Z.div_lt_upper_bound; lia.
Qed.

Lemma pack_some n v :
  0 <= v < 256 ^ Z.of_nat n -> pack n v = Some (le_bytes n v).
Proof.
  intros [Ha Hb]. unfold pack.
  apply Z.leb_le in Ha. apply Z.ltb_lt in Hb. rewrite Ha, Hb. reflexivity.
Qed.

Lemma pack_none n v :
  256 ^ Z.of_nat n <= v -> pack n v = None.
Proof.
  intros H. unfold pack. apply Z.ltb_ge in H. rewrite H, andb_false_r.
  reflexivity.
Qed.

Lemma overwrite_middle (a x x' b : bytes) :
  List.length x = List.length x' ->
  overwrite (a ++ x ++ b) (List.length a) x' = a ++ x' ++ b.
Proof.
  intros Hl. unfold overwrite.
  rewrite firstn_app, Nat.sub_diag, firstn_all. cbn [firstn].
  rewrite List.app_nil_r. f_equal. f_equal.
  rewrite skipn_app, skipn_all2 by lia. cbn [List.app].
  replace (List.length a + List.length x' - List.length a)%nat
    with (List.length x) by lia.
  rewrite skipn_app, skipn_all, Nat.sub_diag. reflexivity.
Qed.

(** Reduction of the attributes of a writer. *)
Ltac wave_fields :=
  cbv beta iota zeta delta
    [file nchannels sampwidth framerate nframes datawritten datalength
     headerwritten form_length_pos data_length_pos initfp and_then].

Lemma wave_settings (rate width channels : json) (r w c : Z) :
  as_int rate = Ok r -> as_int width = Ok w -> as_int channels = Ok c ->
  1 <= c -> 1 <= w <= 4 -> 1 <= r ->
  and_then (and_then (setnchannels initfp channels)
              (fun x => setsampwidth x width))
    (fun x => setframerate x rate)
  = (mk_wave_write [] c w r 0 0 0 false O O, None).
Proof.
  intros Hr Hw Hc Hc1 Hw1 Hr1.
  unfold setnchannels. wave_fields. cbn [Z.eqb negb]. rewrite Hc.
  replace (c <? 1) with false by (symmetry; apply Z.ltb_ge; lia).
  unfold setsampwidth. wave_fields. cbn [Z.eqb negb]. rewrite Hw.
  replace (w <? 1) with false by (symmetry; apply Z.ltb_ge; lia).
  replace (w >? 4) with false
    by (rewrite Z.gtb_ltb; symmetry; apply Z.ltb_ge; lia).
  cbn [orb]. unfold setframerate. wave_fields. cbn [Z.eqb negb]. rewrite Hr.
  replace (r <=? 0) with false by (symmetry; apply Z.leb_gt; lia).
  reflexivity.
Qed.

Lemma pack_header_some (wr : wave_write) (size : Z) :
  1 <= nchannels wr -> 1 <= sampwidth wr <= 4 -> 1 <= framerate wr ->
  nchannels wr * sampwidth wr <= 65535 ->
  nchannels wr * framerate wr * sampwidth wr < 2 ^ 32 ->
  0 <= size -> 36 + size < 2 ^ 32 ->
  pack_header wr size
  = Some (le_bytes 4 (36 + size) ++ ascii_bytes "WAVE" ++ ascii_bytes "fmt "
          ++ le_bytes 4 16 ++ le_bytes 2 1 ++ le_bytes 2 (nchannels wr)
          ++ le_bytes 4 (framerate wr)
          ++ le_bytes 4 (nchannels wr * framerate wr * sampwidth wr)
          ++ le_bytes 2 (nchannels wr * sampwidth wr)
          ++ le_bytes 2 (sampwidth wr * 8) ++ ascii_bytes "data").
Proof.
  intros Hc Hw Hr Hcw Hcrw Hs Hlen. unfold pack_header.
  change (2 ^ 32) with (256 ^ Z.of_nat 4) in *.
  assert (H16 : 256 ^ Z.of_nat 2 = 65536) by reflexivity.
  rewrite !pack_some; try reflexivity; try lia; try nia.
Qed.

Lemma len_ascii_4 a b c d :
  List.length (ascii_bytes (String a (String b (String c (String d EmptyString)))))
  = 4%nat.
Proof. reflexivity. Qed.

Lemma writeframes_fresh (pcm : bytes) (r w c : Z) :
  1 <= c -> 1 <= w <= 4 -> 1 <= r ->
  c * w <= 65535 -> c * r * w < 2 ^ 32 -> 36 + len pcm < 2 ^ 32 ->
  exists frames,
    writeframes (mk_wave_write [] c w r 0 0 0 false O O) pcm
    = (mk_wave_write (wav_header c w r (len pcm) ++ pcm) c w r frames
         (len pcm) (len pcm) true 4 40, None).
Proof.
  intros Hc1 Hw1 Hr1 Hcw Hcrw Hlen.
  pose proof (len_nonneg pcm) as Hp.
  assert (Hcw0 : 1 <= c * w) by nia.
  set (dl := len pcm / (c * w) * c * w).
  assert (Hdl : 0 <= dl <= len pcm).
  { unfold dl. rewrite <- Z.mul_assoc.
    pose proof (Z.mul_div_le (len pcm) (c * w) ltac:(lia)).
    pose proof (Z.div_pos (len pcm) (c * w) ltac:(lia) ltac:(lia)).
    split; [nia | lia]. }
  exists (len pcm / (c * w)).
  unfold writeframes, writeframesraw, _ensure_header_written. wave_fields.
  replace (c =? 0) with false by (symmetry; apply Z.eqb_neq; lia).
  replace (w =? 0) with false by (symmetry; apply Z.eqb_neq; lia).
  replace (r =? 0) with false by (symmetry; apply Z.eqb_neq; lia).
  unfold _write_header. wave_fields. cbn [Z.eqb List.app]. fold dl.
  rewrite pack_header_some by (cbn [nchannels sampwidth framerate]; lia).
  wave_fields.
  rewrite pack_some by (change (256 ^ Z.of_nat 4) with (2 ^ 32); lia).
  wave_fields. rewrite Z.add_0_l.
  destruct (dl =? len pcm) eqn:E.
  - apply Z.eqb_eq in E. rewrite E. unfold wav_header.
    rewrite <- !List.app_assoc. reflexivity.
  - unfold _patchheader. wave_fields.
    rewrite Z.eqb_sym, E.
    rewrite !pack_some by (change (256 ^ Z.of_nat 4) with (2 ^ 32); lia).
    unfold overwrite, wav_header, ascii_bytes, str.
    cbn [le_bytes map list_ascii_of_string List.app List.length firstn skipn
         Nat.add].
    reflexivity.
Qed.

Lemma write_wav_accepted (pcm : bytes) (rate width channels : json)
    (r w c : Z) :
  as_int rate = Ok r -> as_int width = Ok w -> as_int channels = Ok c ->
  1 <= c -> 1 <= w <= 4 -> 1 <= r ->
  c * w <= 65535 -> c * r * w < 2 ^ 32 -> 36 + len pcm < 2 ^ 32 ->
  exists wr,
    write_wav pcm rate width channels = (wr, None)
    /\ file wr = wav_header c w r (len pcm) ++ pcm.
Proof.
  intros Hr Hw Hc Hc1 Hw1 Hr1 Hcw Hcrw Hlen.
  destruct (writeframes_fresh pcm r w c Hc1 Hw1 Hr1 Hcw Hcrw Hlen)
    as (frames & Hwf).
  unfold write_wav.
  change (and_then ?x (fun w0 => writeframes w0 pcm))
    with (match x with
          | (w0, None) => writeframes w0 pcm
          | (w0, Some e) => (w0, Some e)
          end).
  rewrite (wave_settings rate width channels r w c) by assumption.
  rewrite Hwf. unfold wave_close, _ensure_header_written. wave_fields.
  rewrite Z.eqb_refl. eexists. split; reflexivity.
Qed.

(** X20: for a number of channels of at least 1, a width of 1 to 4
    bytes and a positive rate (integers, or Booleans counting as 0 and
    1) whose header fields fit (channels * width below 65536, channels
    * rate * width and the audio plus 36 bytes below 2^32),
    [play_wav_buffer] runs [afplay] on a file made of the 44-byte
    RIFF/WAVE header followed by the audio, unchanged: format tag 1,
    the channels, the rate, the bytes per second, the bytes per frame
    and the bits per sample at their offsets, and the two lengths equal
    to the number of bytes of audio (plus 36 for the first), also when
    the audio is not a whole number of frames; the call raises exactly
    when [afplay] fails, and the temporary file is removed. *)
Theorem wav_file_holds_the_header_and_the_audio (afplay : bytes -> bool)
    (pcm : bytes) (rate width channels : json) (r w c : Z) :
  as_int rate = Ok r -> as_int width = Ok w -> as_int channels = Ok c ->
  1 <= c -> 1 <= w <= 4 -> 1 <= r ->
  c * w <= 65535 -> c * r * w < 2 ^ 32 -> 36 + len pcm < 2 ^ 32 ->
  let run := play_wav_buffer afplay pcm rate width channels in
  exists wav,
    handed_to_afplay run = Some wav
    /\ wav = wav_header c w r (len pcm) ++ pcm
    /\ firstn 4 wav = ascii_bytes "RIFF"
    /\ le_value (firstn 4 (skipn 4 wav)) = 36 + len pcm
    /\ firstn 8 (skipn 8 wav) = ascii_bytes "WAVEfmt "
    /\ le_value (firstn 2 (skipn 20 wav)) = 1
    /\ le_value (firstn 2 (skipn 22 wav)) = c
    /\ le_value (firstn 4 (skipn 24 wav)) = r
    /\ le_value (firstn 4 (skipn 28 wav)) = c * r * w
    /\ le_value (firstn 2 (skipn 32 wav)) = c * w
    /\ le_value (firstn 2 (skipn 34 wav)) = w * 8
    /\ firstn 4 (skipn 36 wav) = ascii_bytes "data"
    /\ le_value (firstn 4 (skipn 40 wav)) = len pcm
    /\ skipn 44 wav = pcm
    /\ wav_raised run = (if afplay wav then None else Some PlayerError)
    /\ tmp_file run = None.
Proof.
  intros Hr Hw Hc Hc1 Hw1 Hr1 Hcw Hcrw Hlen run.
  destruct (write_wav_accepted pcm rate width channels r w c
              Hr Hw Hc Hc1 Hw1 Hr1 Hcw Hcrw Hlen) as (wr & Hwrite & Hfile).
  pose proof (len_nonneg pcm) as Hp.
  assert (Hcw0 : 1 <= c * w) by nia.
  assert (H32 : 256 ^ Z.of_nat 4 = 2 ^ 32) by reflexivity.
  assert (H16 : 256 ^ Z.of_nat 2 = 65536) by reflexivity.
  exists (wav_header c w r (len pcm) ++ pcm).
  subst run. unfold play_wav_buffer. rewrite Hwrite, Hfile.
  cbn [unlink handed_to_afplay tmp_file wav_raised].
  split; [reflexivity|]. split; [reflexivity|].
  split; [reflexivity|].
  split; [apply (le_value_le_bytes 4); lia|].
  split; [reflexivity|].
  split; [apply (le_value_le_bytes 2); lia|].
  split; [apply (le_value_le_bytes 2); nia|].
  split; [apply (le_value_le_bytes 4); nia|].
  split; [apply (le_value_le_bytes 4); lia|].
  split; [apply (le_value_le_bytes 2); lia|].
  split; [apply (le_value_le_bytes 2); lia|].
  split; [reflexivity|].
  split; [apply (le_value_le_bytes 4); lia|].
  repeat split.
Qed.

Lemma wav_file_holds_the_header_and_the_audio_witness :
  handed_to_afplay
    (play_wav_buffer (fun _ => true) [x01; x02; x03]
       (JInt 22050) (JInt 2) (JInt 1))
  = Some (ascii_bytes "RIFF" ++ [x27; x00; x00; x00]
          ++ ascii_bytes "WAVEfmt " ++ [x10; x00; x00; x00; x01; x00]
          ++ [x01; x00; x22; x56; x00; x00; x44; xac; x00; x00; x02; x00;
              x10; x00]
          ++ ascii_bytes "data" ++ [x03; x00; x00; x00; x01; x02; x03]).
Proof.
  destruct (wav_file_holds_the_header_and_the_audio (fun _ => true)
              [x01; x02; x03] (JInt 22050) (JInt 2) (JInt 1) 22050 2 1)
    as (wav & Hh & Hw & _).
  - reflexivity.
  - reflexivity.
  - reflexivity.
  - lia.
  - lia.
  - lia.
  - lia.
  - lia.
  - cbn. lia.
  - rewrite Hh, Hw. reflexivity.
Defined.

Lemma wave_close_unset (wr : wave_write) :
  headerwritten wr = false ->
  nchannels wr = 0 \/ sampwidth wr = 0 \/ framerate wr = 0 ->
  wave_close wr = (wr, Some WaveError).
Proof.
  intros Hh H. unfold wave_close, _ensure_header_written. rewrite Hh.
  destruct (nchannels wr =? 0) eqn:Ec; [reflexivity|].
  destruct (sampwidth wr =? 0) eqn:Ew; [reflexivity|].
  destruct (framerate wr =? 0) eqn:Er; [reflexivity|].
  apply Z.eqb_neq in Ec, Ew, Er. lia.
Qed.

Lemma write_wav_rejected (pcm : bytes) (rate width channels : json) :
  (forall c, as_int channels = Ok c -> c < 1)
  \/ (forall w, as_int width = Ok w -> w < 1 \/ 4 < w)
  \/ (forall r, as_int rate = Ok r -> r <= 0) ->
  exists wr, write_wav pcm rate width channels = (wr, Some WaveError).
Proof.
  intros Hbad. unfold write_wav.
  (* the channels *)
  unfold setnchannels at 1. wave_fields. cbn [Z.eqb negb].
  destruct (as_int channels) as [c|e] eqn:Ec.
  2:{ rewrite wave_close_unset by (try reflexivity; left; reflexivity).
      eexists. reflexivity. }
  destruct (Z.ltb_spec c 1) as [Hc|Hc].
  { rewrite wave_close_unset by (try reflexivity; left; reflexivity).
    eexists. reflexivity. }
  (* the width *)
  unfold setsampwidth at 1. wave_fields. cbn [Z.eqb negb].
  destruct (as_int width) as [w|e] eqn:Ew.
  2:{ rewrite wave_close_unset by (try reflexivity; right; left; reflexivity).
      eexists. reflexivity. }
  destruct ((w <? 1) || (w >? 4)) eqn:Hw.
  { rewrite wave_close_unset by (try reflexivity; right; left; reflexivity).
    eexists. reflexivity. }
  apply orb_false_iff in Hw. destruct Hw as [Hw1 Hw4].
  apply Z.ltb_ge in Hw1. rewrite Z.gtb_ltb in Hw4. apply Z.ltb_ge in Hw4.
  (* the rate *)
  unfold setframerate at 1. wave_fields. cbn [Z.eqb negb].
  destruct (as_int rate) as [r|e] eqn:Er.
  2:{ rewrite wave_close_unset by (try reflexivity; right; right; reflexivity).
      eexists. reflexivity. }
  destruct (Z.leb_spec r 0) as [Hr|Hr].
  { rewrite wave_close_unset by (try reflexivity; right; right; reflexivity).
    eexists. reflexivity. }
  exfalso. destruct Hbad as [H | [H | H]].
  - specialize (H c eq_refl). lia.
  - specialize (H w eq_refl). lia.
  - specialize (H r eq_refl). lia.
Qed.

(** X21: when the number of channels is not a number of at
    least 1, or the width is not a number from 1 to 4, or the rate is
    not a positive number, [play_wav_buffer] raises [wave.Error] (the
    exception of [close] on leaving the [with] statement, which
    replaces a [TypeError] of the comparison), [afplay] is not run and
    the temporary file is removed. *)
Theorem rejected_format_plays_nothing (afplay : bytes -> bool)
    (pcm : bytes) (rate width channels : json) :
  (forall c, as_int channels = Ok c -> c < 1)
  \/ (forall w, as_int width = Ok w -> w < 1 \/ 4 < w)
  \/ (forall r, as_int rate = Ok r -> r <= 0) ->
  let run := play_wav_buffer afplay pcm rate width channels in
  wav_raised run = Some WaveError
  /\ handed_to_afplay run = None
  /\ tmp_file run = None.
Proof.
  intros Hbad run. subst run. unfold play_wav_buffer.
  destruct (write_wav_rejected pcm rate width channels Hbad) as (wr & ->).
  repeat split.
Qed.

Lemma rejected_format_plays_nothing_witness :
  wav_raised (play_wav_buffer (fun _ => true) [x01; x02; x03]
                (JInt 22050) (JInt 8) (JInt 1)) = Some WaveError
  /\ wav_raised (play_wav_buffer (fun _ => true) [x01; x02; x03]
                   (JInt 22050) (JInt 2) (JStr (str "2"))) = Some WaveError.
Proof.
  split.
  - apply (rejected_format_plays_nothing (fun _ => true) [x01; x02; x03]
             (JInt 22050) (JInt 8) (JInt 1)).
    right. left. intros w H. injection H as <-. lia.
  - apply (rejected_format_plays_nothing (fun _ => true) [x01; x02; x03]
             (JInt 22050) (JInt 2) (JStr (str "2"))).
    left. intros c H. discriminate H.
Defined.

Lemma pack_range n v b : pack n v = Some b -> 0 <= v < 256 ^ Z.of_nat n.
Proof.
  unfold pack. destruct (0 <=? v) eqn:Ea; [|discriminate].
  destruct (v <? 256 ^ Z.of_nat n) eqn:Eb; [|discriminate].
  intros _. apply Z.leb_le in Ea. apply Z.ltb_lt in Eb. lia.
Qed.

Lemma pack_header_range (wr : wave_write) (size : Z) (h : bytes) :
  pack_header wr size = Some h ->
  36 + size < 2 ^ 32
  /\ nchannels wr * framerate wr * sampwidth wr < 2 ^ 32
  /\ nchannels wr * sampwidth wr <= 65535.
Proof.
  unfold pack_header.
  destruct (pack 4 (36 + size)) eqn:E1; [|discriminate].
  destruct (pack 4 16); [|discriminate].
  destruct (pack 2 1); [|discriminate].
  destruct (pack 2 (nchannels wr)); [|discriminate].
  destruct (pack 4 (framerate wr)); [|discriminate].
  destruct (pack 4 (nchannels wr * framerate wr * sampwidth wr)) eqn:E2;
    [|discriminate].
  destruct (pack 2 (nchannels wr * sampwidth wr)) eqn:E3; [|discriminate].
  intros _. apply pack_range in E1, E2, E3.
  change (256 ^ Z.of_nat 4) with (2 ^ 32) in *.
  change (256 ^ Z.of_nat 2) with 65536 in *. lia.
Qed.

Lemma write_wav_too_large (pcm : bytes) (rate width channels : json)
    (r w c : Z) :
  as_int rate = Ok r -> as_int width = Ok w -> as_int channels = Ok c ->
  1 <= c -> 1 <= w <= 4 -> 1 <= r ->
  65535 < c * w \/ 2 ^ 32 <= c * r * w \/ 2 ^ 32 <= 36 + len pcm ->
  exists wr, write_wav pcm rate width channels = (wr, Some StructError).
Proof.
  intros Hr Hw Hc Hc1 Hw1 Hr1 Hbig.
  pose proof (len_nonneg pcm) as Hp.
  assert (Hcw0 : 1 <= c * w) by nia.
  set (dl := len pcm / (c * w) * c * w).
  assert (Hdl : 0 <= dl <= len pcm).
  { unfold dl. rewrite <- Z.mul_assoc.
    pose proof (Z.mul_div_le (len pcm) (c * w) ltac:(lia)).
    pose proof (Z.div_pos (len pcm) (c * w) ltac:(lia) ltac:(lia)).
    split; [nia | lia]. }
  unfold write_wav.
  change (and_then ?x (fun w0 => writeframes w0 pcm))
    with (match x with
          | (w0, None) => writeframes w0 pcm
          | (w0, Some e) => (w0, Some e)
          end).
  rewrite (wave_settings rate width channels r w c) by assumption.
  unfold writeframes, writeframesraw, _ensure_header_written. wave_fields.
  replace (c =? 0) with false by (symmetry; apply Z.eqb_neq; lia).
  replace (w =? 0) with false by (symmetry; apply Z.eqb_neq; lia).
  replace (r =? 0) with false by (symmetry; apply Z.eqb_neq; lia).
  unfold _write_header at 1. wave_fields. cbn [Z.eqb List.app]. fold dl.
  set (s3 := mk_wave_write [] c w r 0 0 0 false O O).
  destruct (pack_header s3 dl) as [h|] eqn:Eh.
  - (* the header fits: the length of the data does not *)
    destruct (pack_header_range _ _ _ Eh) as (H1 & H2 & H3).
    cbn [nchannels framerate sampwidth s3] in H2, H3.
    assert (Hlen : 2 ^ 32 <= 36 + len pcm) by lia.
    wave_fields.
    rewrite pack_some by (change (256 ^ Z.of_nat 4) with (2 ^ 32); lia).
    wave_fields. rewrite Z.add_0_l.
    replace (dl =? len pcm) with false by (symmetry; apply Z.eqb_neq; lia).
    unfold _patchheader at 1. wave_fields.
    replace (len pcm =? dl) with false by (symmetry; apply Z.eqb_neq; lia).
    rewrite pack_none by (change (256 ^ Z.of_nat 4) with (2 ^ 32); lia).
    unfold wave_close, _ensure_header_written. wave_fields.
    replace (dl =? len pcm) with false by (symmetry; apply Z.eqb_neq; lia).
    unfold _patchheader. wave_fields.
    replace (len pcm =? dl) with false by (symmetry; apply Z.eqb_neq; lia).
    rewrite pack_none by (change (256 ^ Z.of_nat 4) with (2 ^ 32); lia).
    eexists. reflexivity.
  - (* the header does not fit, neither at [close] *)
    wave_fields.
    unfold wave_close, _ensure_header_written. wave_fields.
    replace (c =? 0) with false by (symmetry; apply Z.eqb_neq; lia).
    replace (w =? 0) with false by (symmetry; apply Z.eqb_neq; lia).
    replace (r =? 0) with false by (symmetry; apply Z.eqb_neq; lia).
    unfold _write_header. wave_fields.
    assert (Hfr : (if len pcm / (c * w) =? 0 then 0 / (c * w)
                   else len pcm / (c * w)) = len pcm / (c * w)).
    { destruct (len pcm / (c * w) =? 0) eqn:E; [|reflexivity].
      apply Z.eqb_eq in E. rewrite E. apply Z.div_0_l. lia. }
    rewrite Hfr. fold dl.
    change (pack_header _ dl) with (pack_header s3 dl). rewrite Eh.
    eexists. reflexivity.
Qed.

(** X22: when the parameters are accepted but a field of the
    header does not fit (channels * width above 65535, channels * rate *
    width or the audio plus 36 bytes not below 2^32),
    [play_wav_buffer] raises [struct.error], [afplay] is not run and
    the temporary file is removed. *)
Theorem oversized_header_field_plays_nothing (afplay : bytes -> bool)
    (pcm : bytes) (rate width channels : json) (r w c : Z) :
  as_int rate = Ok r -> as_int width = Ok w -> as_int channels = Ok c ->
  1 <= c -> 1 <= w <= 4 -> 1 <= r ->
  65535 < c * w \/ 2 ^ 32 <= c * r * w \/ 2 ^ 32 <= 36 + len pcm ->
  let run := play_wav_buffer afplay pcm rate width channels in
  wav_raised run = Some StructError
  /\ handed_to_afplay run = None
  /\ tmp_file run = None.
Proof.
  intros Hr Hw Hc Hc1 Hw1 Hr1 Hbig run. subst run. unfold play_wav_buffer.
  destruct (write_wav_too_large pcm rate width channels r w c
              Hr Hw Hc Hc1 Hw1 Hr1 Hbig) as (wr & ->).
  repeat split.
Qed.

Lemma oversized_header_field_plays_nothing_witness :
  wav_raised (play_wav_buffer (fun _ => true) [x01; x02; x03]
                (JInt 16000) (JInt 2) (JInt 32768)) = Some StructError.
Proof.
  apply (oversized_header_field_plays_nothing (fun _ => true) [x01; x02; x03]
           (JInt 16000) (JInt 2) (JInt 32768) 16000 2 32768);
    try reflexivity; try lia.
Defined.

(** ** From the response to the file *)

(** X23: without a streaming player, for a response made of
    [audio-start], chunks with some audio and [audio-stop], whose
    declared format the [wave] module accepts and whose header fields
    fit, the one call of [play_wav_buffer] made by [main] (line 262)
    runs [afplay] on the 44-byte header of the declared channels, width
    and rate followed by the payloads of the chunks in their order. *)
Theorem buffered_audio_reaches_afplay_as_a_wav_file
    (afplay : bytes -> bool)
    (e : env) (text : pystr) (voice speaker : option pystr)
    (connected : socket) (d : dict) (payload0 : bytes)
    (chunks : list (json * bytes)) (stop_data : json) (stop_payload : bytes)
    (stream trailing : bytes) (r w c : Z) :
  streaming e = false ->
  encodes stream (audio_start d payload0 :: chunk_events chunks
                  ++ [audio_stop stop_data stop_payload]) ->
  inbound connected = stream ++ trailing ->
  audio chunks <> [] ->
  as_int (rate (declared_format d)) = Ok r ->
  as_int (width (declared_format d)) = Ok w ->
  as_int (channels (declared_format d)) = Ok c ->
  1 <= c -> 1 <= w <= 4 -> 1 <= r ->
  c * w <= 65535 -> c * r * w < 2 ^ 32 -> 36 + len (audio chunks) < 2 ^ 32 ->
  exists call,
    wav_played (final (main e text voice speaker connected)) = [call]
    /\ handed_to_afplay (play_recorded afplay call)
       = Some (wav_header c w r (len (audio chunks)) ++ audio chunks)
    /\ tmp_file (play_recorded afplay call) = None.
Proof.
  intros Hs Henc Hin Hne Hr Hw Hc Hc1 Hw1 Hr1 Hcw Hcrw Hlen.
  destruct (buffered_run e text voice speaker connected d payload0 chunks
              stop_data stop_payload stream trailing Hs Henc Hin)
    as (_ & _ & Hwav & _).
  destruct (audio chunks) as [|b bs] eqn:Ea; [contradiction|].
  cbn [non_empty] in Hwav. rewrite <- Ea in *.
  exists (audio chunks, declared_format d). split; [exact Hwav|].
  unfold play_recorded, play_wav_buffer. cbn [fst snd].
  destruct (write_wav_accepted (audio chunks) _ _ _ r w c
              Hr Hw Hc Hc1 Hw1 Hr1 Hcw Hcrw Hlen) as (wr & -> & Hfile).
  cbn [unlink handed_to_afplay tmp_file]. rewrite Hfile. split; reflexivity.
Qed.

Lemma buffered_audio_reaches_afplay_as_a_wav_file_witness :
  exists call,
    wav_played
      (final (main (mk_env afplay false false (fun _ _ => false)) (str "hi")
                None None
                (server (start_frame 16000 ++ example_chunk_frame
                         ++ example_chunk_frame ++ example_stop_frame))))
    = [call]
    /\ handed_to_afplay (play_recorded (fun _ => true) call)
       = Some (wav_header 1 2 16000 6 ++ [x01; x0a; x03; x01; x0a; x03]).
Proof.
  destruct (buffered_audio_reaches_afplay_as_a_wav_file (fun _ => true)
              (mk_env afplay false false (fun _ _ => false)) (str "hi")
              None None
              (server (start_frame 16000 ++ example_chunk_frame
                       ++ example_chunk_frame ++ example_stop_frame))
              [(str "rate", JInt 16000); (str "width", JInt 2);
               (str "channels", JInt 1)] []
              [(JObj [], [x01; x0a; x03]); (JObj [], [x01; x0a; x03])]
              (JObj []) []
              (start_frame 16000 ++ example_chunk_frame
               ++ example_chunk_frame ++ example_stop_frame) [] 16000 2 1)
    as (call & Hcall & Hfile & _).
  - reflexivity.
  - apply encodes_cons; [vm_compute; reflexivity|].
    apply (encodes_cons example_chunk_frame
             (example_chunk_frame ++ example_stop_frame));
      [vm_compute; reflexivity|].
    apply (encodes_cons example_chunk_frame example_stop_frame);
      [vm_compute; reflexivity|].
    rewrite <- (List.app_nil_r example_stop_frame).
    apply encodes_cons; [vm_compute; reflexivity | apply encodes_nil].
  - cbn [server inbound]. rewrite List.app_nil_r. reflexivity.
  - discriminate.
  - reflexivity.
  - reflexivity.
  - reflexivity.
  - lia.
  - lia.
  - lia.
  - lia.
  - lia.
  - cbn. lia.
  - exists call. split; assumption.
Defined.
